(** * Cache-aside layer of the redis-caching service

    A shallow embedding of the TypeScript sources:
    - [CacheKeyBuilder] and [CacheTTL]      (cache-key.util.ts)
    - [RedisService]                        (redis.service.ts)
    - [CacheInterceptor]                    (cache.interceptor.ts)
    - [CacheMetricsService]                 (cache-metrics.service.ts)
    - the [findOne] policy binding          (users.controller.ts)

    JavaScript values, [JSON.stringify]/[JSON.parse] and the Redis server
    are the platform the code runs on.  The service code is written against
    two interfaces ([JsPlatform], [RedisClient]); a concrete JSON fragment
    and a reference key-value store instantiate them.

    Modelling choices:
    - An [async] function is a state-and-exception computation over a
      world that holds the two service singletons, the backend behind the
      raw client, the data store behind the handlers, and a trace of the
      calls made on the raw client and of the handler invocations.
    - Requests run one after the other.  [intercept] is modelled together
      with the subscription of the observable it returns: the write of the
      populate step is issued on the connection before the response leaves
      and before any command of a later request.
    - The Numbers of the metrics service are IEEE 754 doubles: every
      operation is the exact result rounded to the nearest double.
    - [Logger] calls are left out; no statement below is about logging.
    - The raw client always exists (the window before [onModuleInit] is
      not modelled). *)

From Stdlib Require Import ZArith QArith Qround Qabs Qpower Qreduction Lqa Lia.
From Stdlib Require Import String Ascii DecimalString.
From Stdlib Require DecimalN DecimalZ DecimalPos DecimalFacts.
From stdpp Require Import base option list gmap strings.

Local Open Scope Z_scope.
Local Open Scope string_scope.

(* stdpp freezes [String.append] under [simpl]; the string lemmas below
   compute with it. *)
#[local] Arguments String.append !s1 s2 : simpl nomatch.

(* ===================================================================== *)
(** * JavaScript numbers *)
(* ===================================================================== *)

(** The Number type: the values of IEEE 754 binary64.  A finite value is
    given by the rational it denotes, in lowest terms.  Every operation
    returns the exact result rounded to the nearest double, a tie going
    to the even significand, as the standard defines it.  The two zeros
    are one value here: the modelled code neither divides by a zero nor
    prints a sign. *)
Module Double.

Inductive t :=
| NaN
| Infinity (negative : bool)
| Finite (q : Q).

(** The exponent [e] of the binade of [a > 0]: [2^e <= a < 2^(e+1)]. *)
Definition ilog2 (a : Q) : Z :=
  let e := (Z.log2 (Qnum a) - Z.log2 (Zpos (Qden a)))%Z in
  if Qle_bool (2 ^ e) a then e else (e - 1)%Z.

(** The nearest integer, a tie going to the even one. *)
Definition rne (x : Q) : Z :=
  let f := Qfloor x in
  match (x - inject_Z f ?= 1 # 2)%Q with
  | Lt => f
  | Gt => (f + 1)%Z
  | Eq => if Z.even f then f else (f + 1)%Z
  end.

Definition is_negative (q : Q) : bool := negb (Qle_bool 0 q).

(** The double nearest to [q].  Doubles in the binade of exponent [e]
    are [2^(e-52)] apart (53 significant bits), and [2^-1074] apart below
    [2^-1022]; a result of [2^1024] or more is an infinity. *)
Definition of_Q (q : Q) : t :=
  let q := Qred q in
  if Qeq_bool q 0 then Finite 0
  else
    let a := Qabs q in
    let e := Z.max (ilog2 a) (-1022) in
    let ulp := (2 ^ (e - 52))%Q in
    let r := (inject_Z (rne (a / ulp)) * ulp)%Q in
    if Qle_bool (2 ^ 1024) r then Infinity (is_negative q)
    else Finite (Qred (if is_negative q then - r else r)).

Definition of_Z (z : Z) : t := of_Q (inject_Z z).

Definition opp (x : t) : t :=
  match x with
  | NaN => NaN
  | Infinity negative => Infinity (negb negative)
  | Finite q => Finite (- q)
  end.

(** [x + y] *)
Definition add (x y : t) : t :=
  match x, y with
  | NaN, _ | _, NaN => NaN
  | Infinity a, Infinity b => if Bool.eqb a b then Infinity a else NaN
  | Infinity a, Finite _ | Finite _, Infinity a => Infinity a
  | Finite p, Finite q => of_Q (p + q)
  end.

(** [x * y] *)
Definition mul (x y : t) : t :=
  match x, y with
  | NaN, _ | _, NaN => NaN
  | Infinity a, Infinity b => Infinity (xorb a b)
  | Infinity a, Finite q | Finite q, Infinity a =>
      if Qeq_bool q 0 then NaN else Infinity (xorb a (is_negative q))
  | Finite p, Finite q => of_Q (p * q)
  end.

(** [x / y] *)
Definition div (x y : t) : t :=
  match x, y with
  | NaN, _ | _, NaN => NaN
  | Infinity _, Infinity _ => NaN
  | Infinity a, Finite q => Infinity (xorb a (is_negative q))
  | Finite _, Infinity _ => Finite 0
  | Finite p, Finite q =>
      if Qeq_bool q 0
      then if Qeq_bool p 0 then NaN else Infinity (is_negative p)
      else of_Q (p / q)
  end.

(** [x > y] *)
Definition gtb (x y : t) : bool :=
  match x, y with
  | NaN, _ | _, NaN => false
  | Infinity a, Infinity b => negb a && b
  | Infinity a, Finite _ => negb a
  | Finite _, Infinity b => b
  | Finite p, Finite q => negb (Qle_bool p q)
  end.

End Double.

(* ===================================================================== *)
(** * JavaScript values *)
(* ===================================================================== *)

Module Js.

(** Exceptions that travel through the modelled code. *)
Inductive Exn :=
| SyntaxError (msg : string)      (* thrown by JSON.parse *)
| ReplyError (msg : string)       (* an error reply of the cache server *)
| ConnectionError (msg : string)  (* the connection to the server failed *)
| HandlerError (msg : string).    (* anything thrown by the route handler *)

(** Result of running an [async] function to completion. *)
Inductive Outcome (A : Type) :=
| Ret (a : A)
| Throw (e : Exn).
Arguments Ret {A} a.
Arguments Throw {A} e.

(** The values a handler can return.  Numbers are the integers (the safe
    integer range of a double); objects are property lists in enumeration
    order. *)
#[local] Unset Elimination Schemes.
Inductive Value :=
| Undefined
| Null
| Bool (b : bool)
| Number (n : Z)
| Str (s : string)
| Array (xs : list Value)
| Object (props : list (string * Value)).
#[local] Set Elimination Schemes.

(** ToBoolean: what [if (data)] tests. *)
Definition truthy (v : Value) : bool :=
  match v with
  | Undefined | Null => false
  | Bool b => b
  | Number n => negb (n =? 0)%Z
  | Str s => negb (String.eqb s "")
  | Array _ | Object _ => true
  end.

(** ToBoolean on [string | null]: what [if (cachedData)] and
    [x || '0'] test. *)
Definition truthy_str (o : option string) : bool :=
  match o with
  | None => false
  | Some s => negb (String.eqb s "")
  end.

(** Number::toString for integers: decimal digits, [-] for negatives. *)
Definition number_toString (n : Z) : string :=
  NilZero.string_of_int (Z.to_int n).

(** [\d] *)
Definition is_digit (c : ascii) : bool :=
  let n := N_of_ascii c in ((48 <=? n) && (n <=? 57))%N.

(** Longest prefix of decimal digits, and what follows it. *)
Fixpoint span_digits (s : string) : string * string :=
  match s with
  | String c s' =>
      if is_digit c then let '(ds, r) := span_digits s' in (String c ds, r)
      else ("", s)
  | EmptyString => ("", "")
  end.

Fixpoint strip_prefix (p s : string) : option string :=
  match p, s with
  | EmptyString, _ => Some s
  | String a p', String b s' => if Ascii.eqb a b then strip_prefix p' s' else None
  | String _ _, EmptyString => None
  end.

(** White space that [parseInt] skips, as far as it is a single byte. *)
Definition is_white_space (c : ascii) : bool :=
  let n := N_of_ascii c in
  ((n =? 9) || (n =? 10) || (n =? 11) || (n =? 12) || (n =? 13) || (n =? 32))%N.

Fixpoint skip_white_space (s : string) : string :=
  match s with
  | String c s' => if is_white_space c then skip_white_space s' else s
  | EmptyString => s
  end.

(** The value of a hexadecimal digit. *)
Definition hex_digit (c : ascii) : option Z :=
  let n := Z.of_N (N_of_ascii c) in
  if ((48 <=? n) && (n <=? 57))%Z then Some (n - 48)%Z
  else if ((97 <=? n) && (n <=? 102))%Z then Some (n - 87)%Z
  else if ((65 <=? n) && (n <=? 70))%Z then Some (n - 55)%Z
  else None.

(** The value of the leading hexadecimal digits after [acc], if any. *)
Fixpoint hex_value (s : string) (acc : option Z) : option Z :=
  match s with
  | String c s' =>
      match hex_digit c with
      | Some d => hex_value s' (Some (16 * default 0%Z acc + d)%Z)
      | None => acc
      end
  | EmptyString => acc
  end.

(** The integer a string starts with, once white space and sign are
    removed: hexadecimal after [0x] or [0X], decimal otherwise. *)
Definition leading_integer (s : string) : option Z :=
  match strip_prefix "0x" s, strip_prefix "0X" s with
  | Some r, _ | None, Some r => hex_value r None
  | None, None =>
      let ds := fst (span_digits s) in
      if String.eqb ds "" then None
      else Z.of_uint <$> NilEmpty.uint_of_string ds
  end.

(** [parseInt(s)], no radix given: the leading integer as a Number,
    [NaN] when there is none.  Beyond 20 significant digits the language
    leaves the last digits to the implementation; the nearest double is
    taken here, as V8 does. *)
Definition parseInt (s : string) : Double.t :=
  let s := skip_white_space s in
  let '(negative, s) :=
    match s with
    | String c r =>
        if Ascii.eqb c "-" then (true, r)
        else if Ascii.eqb c "+" then (false, r)
        else (false, s)
    | EmptyString => (false, s)
    end in
  match leading_integer s with
  | Some n => if negative then Double.opp (Double.of_Z n) else Double.of_Z n
  | None => Double.NaN
  end.

End Js.

(* ===================================================================== *)
(** * cache-key.util.ts *)
(* ===================================================================== *)

Module CacheKeyBuilder.

Definition NAMESPACE : string := "app".
Definition VERSION : string := "v1".

(** [identifier: string | number] *)
Inductive Identifier :=
| IdString (s : string)
| IdNumber (n : Z).

(** Template-literal coercion [`${identifier}`]. *)
Definition identifier_toString (i : Identifier) : string :=
  match i with
  | IdString s => s
  | IdNumber n => Js.number_toString n
  end.

Definition build (resource : string) (identifier : Identifier) : string :=
  NAMESPACE ++ ":" ++ VERSION ++ ":" ++ resource ++ ":"
    ++ identifier_toString identifier.

Definition pattern (resource : string) (wildcard : option string) : string :=
  NAMESPACE ++ ":" ++ VERSION ++ ":" ++ resource ++ ":"
    ++ default "*" wildcard.

(** [params: { page?: number; limit?: number }] *)
Record ListParams := { page : option Z; limit : option Z }.

(** [buildList(resource, params = {})]: [None] is the omitted argument. *)
Definition buildList (resource : string) (params : option ListParams) : string :=
  let params := default {| page := None; limit := None |} params in
  let page := default 1 (page params) in
  let limit := default 10 (limit params) in
  NAMESPACE ++ ":" ++ VERSION ++ ":" ++ resource ++ ":list:page-"
    ++ Js.number_toString page ++ ":limit-" ++ Js.number_toString limit.

End CacheKeyBuilder.

Module CacheTTL.
Definition USER : Z := 300.
Definition USER_LIST : Z := 60.
Definition ROLE : Z := 3600.
End CacheTTL.


(* ===================================================================== *)
(** * JSON.stringify and JSON.parse on [Js.Value] *)
(* ===================================================================== *)

Module JSON.
Import Js.

Definition dquote : ascii := "034"%char.
Definition backslash : ascii := "092"%char.

Definition hex_digit (n : N) : ascii :=
  ascii_of_N (if (n <? 10)%N then 48 + n else 87 + n)%N.

(** QuoteJSONString, one code unit. *)
Definition escape_char (c : ascii) : string :=
  let n := N_of_ascii c in
  if Ascii.eqb c dquote then String backslash (String dquote "")
  else if Ascii.eqb c backslash then String backslash (String backslash "")
  else if (n =? 8)%N then String backslash "b"
  else if (n =? 9)%N then String backslash "t"
  else if (n =? 10)%N then String backslash "n"
  else if (n =? 12)%N then String backslash "f"
  else if (n =? 13)%N then String backslash "r"
  else if (n <? 32)%N then
    String backslash
      (String "u" (String "0" (String "0"
        (String (hex_digit (n / 16)) (String (hex_digit (n mod 16)) "")))))
  else String c "".

Fixpoint escape (s : string) : string :=
  match s with
  | EmptyString => ""
  | String c s' => escape_char c ++ escape s'
  end.

Definition quote (s : string) : string :=
  String dquote (escape s ++ String dquote "").

Fixpoint join (sep : string) (l : list string) : string :=
  match l with
  | [] => ""
  | [x] => x
  | x :: l' => x ++ sep ++ join sep l'
  end.

Definition is_undefined (v : Value) : bool :=
  match v with Undefined => true | _ => false end.

(** SerializeJSONProperty without indentation.  An [undefined] array
    element is written [null]; a property whose value is [undefined] is
    left out. *)
Fixpoint serialize (v : Value) : string :=
  match v with
  | Undefined => "null"
  | Null => "null"
  | Bool true => "true"
  | Bool false => "false"
  | Number n => number_toString n
  | Str s => quote s
  | Array xs => "[" ++ join "," (map serialize xs) ++ "]"
  | Object props =>
      "{" ++ join ","
        (omap (fun kv : string * Value =>
                 let '(k, x) := kv in
                 if is_undefined x then None
                 else Some (quote k ++ ":" ++ serialize x)) props) ++ "}"
  end.

(** [JSON.stringify(v)].  On [undefined] itself JavaScript returns
    [undefined] rather than a string; the interceptor calls it on truthy
    data only, so that case is never reached from the modelled code. *)
Definition stringify (v : Value) : string := serialize v.

(** What survives serialization: the value read back from [stringify v]. *)
Fixpoint normalize (v : Value) : Value :=
  match v with
  | Undefined => Null
  | Array xs => Array (map normalize xs)
  | Object props =>
      Object (omap (fun kv : string * Value =>
                      let '(k, x) := kv in
                      if is_undefined x then None else Some (k, normalize x))
                   props)
  | _ => v
  end.

(** Values made of null, booleans, numbers, strings, arrays and objects
    only ([undefined] nowhere). *)
Fixpoint is_json (v : Value) : bool :=
  match v with
  | Undefined => false
  | Array xs => forallb is_json xs
  | Object props => forallb (fun kv => is_json (snd kv)) props
  | _ => true
  end.

(** ** The parser *)

Definition is_ws (c : ascii) : bool :=
  let n := N_of_ascii c in
  ((n =? 32) || (n =? 9) || (n =? 10) || (n =? 13))%N.

Fixpoint skip_ws (s : string) : string :=
  match s with
  | String c s' => if is_ws c then skip_ws s' else s
  | EmptyString => s
  end.

Definition hex_value (c : ascii) : option N :=
  let n := N_of_ascii c in
  if ((48 <=? n) && (n <=? 57))%N then Some (n - 48)%N
  else if ((97 <=? n) && (n <=? 102))%N then Some (n - 87)%N
  else if ((65 <=? n) && (n <=? 70))%N then Some (n - 55)%N
  else None.

Definition hex4 (a b c d : ascii) : option N :=
  match hex_value a, hex_value b, hex_value c, hex_value d with
  | Some x, Some y, Some z, Some w => Some (((x * 16 + y) * 16 + z) * 16 + w)%N
  | _, _, _, _ => None
  end.

Definition simple_escape (c : ascii) : option ascii :=
  if Ascii.eqb c dquote then Some dquote
  else if Ascii.eqb c backslash then Some backslash
  else if Ascii.eqb c "/" then Some "/"%char
  else if Ascii.eqb c "b" then Some (ascii_of_N 8)
  else if Ascii.eqb c "f" then Some (ascii_of_N 12)
  else if Ascii.eqb c "n" then Some (ascii_of_N 10)
  else if Ascii.eqb c "r" then Some (ascii_of_N 13)
  else if Ascii.eqb c "t" then Some (ascii_of_N 9)
  else None.

Definition prepend (c : ascii) (r : option (string * string)) :
    option (string * string) :=
  match r with
  | Some (s, rest) => Some (String c s, rest)
  | None => None
  end.

(** The characters of a string literal after its opening quote, up to and
    including the closing quote.  Strings are byte strings here, so a
    [\u] escape is decoded only when it denotes an ASCII character. *)
Fixpoint parse_string_body (s : string) : option (string * string) :=
  match s with
  | EmptyString => None
  | String c s' =>
      if Ascii.eqb c dquote then Some ("", s')
      else if Ascii.eqb c backslash then
        match s' with
        | EmptyString => None
        | String e s'' =>
            match simple_escape e with
            | Some ch => prepend ch (parse_string_body s'')
            | None =>
                if Ascii.eqb e "u" then
                  match s'' with
                  | String h1 (String h2 (String h3 (String h4 r))) =>
                      match hex4 h1 h2 h3 h4 with
                      | Some code =>
                          if (code <? 128)%N
                          then prepend (ascii_of_N code) (parse_string_body r)
                          else None
                      | None => None
                      end
                  | _ => None
                  end
                else None
            end
        end
      else if (N_of_ascii c <? 32)%N then None
      else prepend c (parse_string_body s')
  end.

Definition starts_with_any (cs : list ascii) (s : string) : bool :=
  match s with
  | String c _ => existsb (Ascii.eqb c) cs
  | EmptyString => false
  end.

(** The digits of a JSON number of the integer fragment:
    0 | [1-9][0-9]*, not followed by a fraction or an exponent. *)
Definition parse_unsigned (s : string) : option (Z * string) :=
  let '(ds, rest) := span_digits s in
  if String.eqb ds "" then None
  else if starts_with_any ["0"%char] ds && negb (String.eqb ds "0") then None
  else if starts_with_any ["."%char; "e"%char; "E"%char] rest then None
  else
    match NilEmpty.uint_of_string ds with
    | Some u => Some (Z.of_uint u, rest)
    | None => None
    end.

Definition parse_number (s : string) : option (Z * string) :=
  match s with
  | String c r =>
      if Ascii.eqb c "-" then
        match parse_unsigned r with
        | Some (n, rest) => Some (- n, rest)
        | None => None
        end
      else parse_unsigned s
  | EmptyString => None
  end.

Definition expect (c : ascii) (s : string) : option string :=
  match s with
  | String c' r => if Ascii.eqb c c' then Some r else None
  | EmptyString => None
  end.

Fixpoint parse_value (fuel : nat) (s : string) : option (Value * string) :=
  match fuel with
  | O => None
  | S fuel' =>
      let s := skip_ws s in
      match strip_prefix "null" s with
      | Some r => Some (Null, r)
      | None =>
      match strip_prefix "true" s with
      | Some r => Some (Bool true, r)
      | None =>
      match strip_prefix "false" s with
      | Some r => Some (Bool false, r)
      | None =>
      match s with
      | EmptyString => None
      | String c r =>
          if Ascii.eqb c dquote then
            match parse_string_body r with
            | Some (str, r') => Some (Str str, r')
            | None => None
            end
          else if Ascii.eqb c "[" then
            match expect "]" (skip_ws r) with
            | Some r' => Some (Array [], r')
            | None =>
                match parse_elements fuel' r with
                | Some (xs, r') => Some (Array xs, r')
                | None => None
                end
            end
          else if Ascii.eqb c "{" then
            match expect "}" (skip_ws r) with
            | Some r' => Some (Object [], r')
            | None =>
                match parse_members fuel' r with
                | Some (ps, r') => Some (Object ps, r')
                | None => None
                end
            end
          else
            match parse_number s with
            | Some (n, r') => Some (Number n, r')
            | None => None
            end
      end end end end
  end
with parse_elements (fuel : nat) (s : string) : option (list Value * string) :=
  match fuel with
  | O => None
  | S fuel' =>
      match parse_value fuel' s with
      | None => None
      | Some (v, r) =>
          let r := skip_ws r in
          match expect "," r with
          | Some r' =>
              match parse_elements fuel' r' with
              | Some (vs, r'') => Some (v :: vs, r'')
              | None => None
              end
          | None =>
              match expect "]" r with
              | Some r' => Some ([v], r')
              | None => None
              end
          end
      end
  end
with parse_members (fuel : nat) (s : string) :
    option (list (string * Value) * string) :=
  match fuel with
  | O => None
  | S fuel' =>
      match expect dquote (skip_ws s) with
      | None => None
      | Some r =>
          match parse_string_body r with
          | None => None
          | Some (k, r) =>
              match expect ":" (skip_ws r) with
              | None => None
              | Some r =>
                  match parse_value fuel' r with
                  | None => None
                  | Some (v, r) =>
                      let r := skip_ws r in
                      match expect "," r with
                      | Some r' =>
                          match parse_members fuel' r' with
                          | Some (ps, r'') => Some ((k, v) :: ps, r'')
                          | None => None
                          end
                      | None =>
                          match expect "}" r with
                          | Some r' => Some ([(k, v)], r')
                          | None => None
                          end
                      end
                  end
              end
          end
      end
  end.

(** Measure of a value that bounds the recursion depth of the parser on
    its serialization. *)
Fixpoint size (v : Value) : nat :=
  match v with
  | Array xs => S (list_sum (map (fun x => S (size x)) xs))
  | Object props =>
      S (list_sum (map (fun kv : string * Value => S (size (snd kv))) props))
  | _ => 1
  end.

Definition starts_with_digit (s : string) : bool :=
  match s with String c _ => is_digit c | EmptyString => false end.

(** What may follow a number in a text: not a digit, and none of the
    characters that continue a number. *)
Definition number_end (s : string) : bool :=
  negb (starts_with_digit s)
  && negb (starts_with_any ["."%char; "e"%char; "E"%char] s).

(** The first character of a serialized value. *)
Definition value_start (c : ascii) : bool :=
  is_digit c
  || existsb (Ascii.eqb c)
       ["-"%char; "n"%char; "t"%char; "f"%char; "["%char; "{"%char; dquote].

(** What follows a value inside a text: nothing, or a structural
    character. *)
Definition delimited (s : string) : bool :=
  match s with
  | EmptyString => true
  | String c _ => existsb (Ascii.eqb c) [","%char; "]"%char; "}"%char]
  end.

(** One member of a serialized object. *)
Definition member_text (kv : string * Value) : string :=
  quote (fst kv) ++ ":" ++ serialize (snd kv).

(** With enough fuel the parser reads [v] back from its serialization,
    whatever delimited text follows. *)
Definition reads_back (v : Value) : Prop :=
  forall fuel rest,
    (size v <= fuel)%nat -> delimited rest = true ->
    parse_value fuel (serialize v ++ rest) = Some (v, rest).

(** [JSON.parse(text)]: one value, surrounded by optional white space.
    Every step of the parser consumes a character, so the length of the
    text bounds the recursion.  Properties are kept in the order of the
    text (a name written twice is kept twice, where JavaScript keeps its
    last value); numbers with a fraction or an exponent and [\u] escapes
    beyond ASCII lie outside the modelled values and are rejected. *)
Definition parse (text : string) : Exn + Value :=
  match parse_value (S (String.length text)) text with
  | Some (v, r) =>
      match skip_ws r with
      | EmptyString => inr v
      | String _ _ => inl (SyntaxError "Unexpected non-whitespace character after JSON")
      end
  | None => inl (SyntaxError "Unexpected token in JSON")
  end.

End JSON.

(* ===================================================================== *)
(** * The runtime the services execute in *)
(* ===================================================================== *)

Module Runtime.
Export Js.

(** The JavaScript platform as the interceptor uses it: response values,
    their truthiness and the two JSON functions. *)
Class JsPlatform (V : Type) := {
  truthy : V -> bool;
  JSON_stringify : V -> string;
  JSON_parse : string -> Exn + V
}.

(** Commands sent over the connection. *)
Inductive Command :=
| GET (key : string)
| SET (key value : string)
| SETEX (key : string) (seconds : Z) (value : string)
| DEL (keys : list string)
| KEYS (pattern : string)
| INFO (section : string)
| DBSIZE
| CONFIG (subcommand : string).

(** The raw ioredis client over a backend state [B]: each method either
    resolves or rejects, and may change the backend. *)
Class RedisClient (B : Type) := {
  ioredis_get : string -> B -> Outcome (option string) * B;
  ioredis_set : string -> string -> B -> Outcome unit * B;
  ioredis_setex : string -> Z -> string -> B -> Outcome unit * B;
  ioredis_del : list string -> B -> Outcome Z * B;
  ioredis_keys : string -> B -> Outcome (list string) * B;
  ioredis_info : string -> B -> Outcome string * B;
  ioredis_dbsize : B -> Outcome Z * B;
  ioredis_config : string -> B -> Outcome unit * B
}.

(** What an observer of one run can see: the commands attempted on the
    raw client and the invocations of the wrapped route handler. *)
Inductive Event :=
| RedisCall (c : Command)
| HandlerCall.

(** Fields of the [RedisService] singleton. *)
Record RedisState (B : Type) := mkRedisState {
  client : B;
  isConnected : bool
}.
Arguments mkRedisState {B}.
Arguments client {B}.
Arguments isConnected {B}.

(** Private counters of the [CacheMetricsService] singleton. *)
Record MetricsState := mkMetricsState {
  hits : Z;
  misses : Z
}.

Record World (B D : Type) := mkWorld {
  redis : RedisState B;
  metrics : MetricsState;
  db : D;
  trace : list Event
}.
Arguments mkWorld {B D}.
Arguments redis {B D}.
Arguments metrics {B D}.
Arguments db {B D}.
Arguments trace {B D}.

Section Monad.
Context {B D : Type}.

(** An [async] computation: runs from a world to an outcome and the
    world it leaves. *)
Definition M (A : Type) : Type := World B D -> Outcome A * World B D.

Definition ret {A} (a : A) : M A := fun w => (Ret a, w).

Definition throw {A} (e : Exn) : M A := fun w => (Throw e, w).

Definition bind {A C} (m : M A) (k : A -> M C) : M C :=
  fun w =>
    match m w with
    | (Ret a, w') => k a w'
    | (Throw e, w') => (Throw e, w')
    end.

(** [try { m } catch (error) { h error }] *)
Definition try_catch {A} (m : M A) (h : Exn -> M A) : M A :=
  fun w =>
    match m w with
    | (Ret a, w') => (Ret a, w')
    | (Throw e, w') => h e w'
    end.

(** Start [m] and keep its settled outcome as a value. *)
Definition settle {A} (m : M A) : M (Outcome A) :=
  fun w => let '(r, w') := m w in (Ret r, w').

(** One method call on the raw client. *)
Definition call {A} (c : Command) (op : B -> Outcome A * B) : M A :=
  fun w =>
    let '(r, b') := op (client (redis w)) in
    (r, mkWorld (mkRedisState b' (isConnected (redis w))) (metrics w) (db w)
                (trace w ++ [RedisCall c])%list).
End Monad.

Declare Scope js_scope.
Delimit Scope js_scope with js.
Notation "'let*' x ':=' c1 'in' c2" := (bind c1 (fun x => c2))
  (at level 10, x name, c1 at level 100, c2 at level 200) : js_scope.

(** The events a run appended to the trace. *)
Definition events_since {B D} (w w' : World B D) : list Event :=
  drop (length (trace w)) (trace w').

Definition is_handler_call (ev : Event) : bool :=
  match ev with HandlerCall => true | RedisCall _ => false end.

Definition is_write (ev : Event) : bool :=
  match ev with
  | RedisCall (SET _ _) | RedisCall (SETEX _ _ _) => true
  | _ => false
  end.

End Runtime.

(* ===================================================================== *)
(** * redis.service.ts *)
(* ===================================================================== *)

Module RedisService.
Import Runtime.
Local Open Scope js_scope.

(** [retryStrategy] of the connection options. *)
Definition retryStrategy (times : Z) : Z := Z.min (times * 50) 2000.

Inductive ConnectionEvent := connect | error | close.

(** The three listeners registered in [onModuleInit]. *)
Definition on {B} (ev : ConnectionEvent) (s : RedisState B) : RedisState B :=
  match ev with
  | connect => mkRedisState (client s) true
  | error => mkRedisState (client s) false
  | close => mkRedisState (client s) false
  end.

Section Service.
Context {B D : Type} `{RedisClient B}.

Definition isHealthy : M (B:=B) (D:=D) bool :=
  fun w => (Ret (isConnected (redis w)), w).

Definition get (key : string) : M (B:=B) (D:=D) (option string) :=
  let* healthy := isHealthy in
  if negb healthy then ret None
  else try_catch (call (GET key) (ioredis_get key)) (fun _ => ret None).

Definition set (key value : string) (ttlSeconds : option Z) :
    M (B:=B) (D:=D) unit :=
  let* healthy := isHealthy in
  if negb healthy then ret tt
  else
    try_catch
      (match ttlSeconds with
       | Some seconds =>
           if negb (seconds =? 0)%Z
           then call (SETEX key seconds value) (ioredis_setex key seconds value)
           else call (SET key value) (ioredis_set key value)
       | None => call (SET key value) (ioredis_set key value)
       end)
      (fun _ => ret tt).

(** [key: string | string[]] *)
Definition del (key : string + list string) : M (B:=B) (D:=D) unit :=
  let* healthy := isHealthy in
  if negb healthy then ret tt
  else
    try_catch
      (match key with
       | inr keys => let* deleted := call (DEL keys) (ioredis_del keys) in ret tt
       | inl k => let* deleted := call (DEL [k]) (ioredis_del [k]) in ret tt
       end)
      (fun _ => ret tt).

Definition keys (pattern : string) : M (B:=B) (D:=D) (list string) :=
  let* healthy := isHealthy in
  if negb healthy then ret []
  else try_catch (call (KEYS pattern) (ioredis_keys pattern)) (fun _ => ret []).
End Service.

End RedisService.

(* ===================================================================== *)
(** * cache.decorator.ts and cache.interceptor.ts *)
(* ===================================================================== *)

Module CacheInterceptor.
Import Runtime.
Local Open Scope js_scope.

(** The request as the interceptor reads it: [request.params] and
    [request.query]. *)
Record Request := mkRequest {
  params : gmap string string;
  query : gmap string string
}.

(** [CacheConfig], the metadata [@Cached] attaches to a handler. *)
Record CacheConfig := mkCacheConfig {
  ttl : Z;
  keyBuilder : gmap string string -> gmap string string -> string
}.

Section Interceptor.
Context {V : Type} `{JsPlatform V} {B D : Type} `{RedisClient B}.

(** The wrapped route handler, already bound to its request: it reads or
    changes the data store [D] and resolves with a response or rejects. *)
Definition CallHandler : Type := D -> Outcome V * D.

(** [next.handle()], subscribed. *)
Definition handle (next : CallHandler) : M (B:=B) (D:=D) V :=
  fun w =>
    let '(r, d') := next (db w) in
    (r, mkWorld (redis w) (metrics w) d' (trace w ++ [HandlerCall])%list).

(** [source.pipe(tap(async (data) => f data))]: the callback runs on the
    emitted value, the promise it returns is dropped, and the value is
    passed on unchanged. *)
Definition tap (f : V -> M (B:=B) (D:=D) unit) (source : M V) : M V :=
  let* data := source in
  let* dropped := settle (f data) in
  ret data.

(** [of(JSON.parse(cachedData))] *)
Definition of_parsed (cachedData : string) : M (B:=B) (D:=D) V :=
  match JSON_parse cachedData with
  | inl e => throw e
  | inr v => ret v
  end.

(** [intercept(context, next)] followed by the subscription of the
    observable it returns.  [cacheConfig] is the result of
    [reflector.get(CACHE_KEY, context.getHandler())]. *)
Definition intercept (cacheConfig : option CacheConfig) (request : Request)
    (next : CallHandler) : M (B:=B) (D:=D) V :=
  match cacheConfig with
  | None => handle next
  | Some cacheConfig =>
      let cacheKey := keyBuilder cacheConfig (params request) (query request) in
      let* cachedData := RedisService.get cacheKey in
      if truthy_str cachedData then of_parsed (default "" cachedData)
      else
        tap (fun data =>
               if truthy data
               then RedisService.set cacheKey (JSON_stringify data)
                      (Some (ttl cacheConfig))
               else ret tt)
            (handle next)
  end.
End Interceptor.

End CacheInterceptor.

(* ===================================================================== *)
(** * cache-metrics.service.ts and the metrics controller *)
(* ===================================================================== *)

Module CacheMetrics.
(** [interface CacheMetrics] *)
Record t := mk {
  hits : Double.t;
  misses : Double.t;
  hitRate : Double.t;
  totalKeys : Z;
  memoryUsed : string
}.
End CacheMetrics.

Module CacheMetricsService.
Import Runtime.
Local Open Scope js_scope.

(** First match of [/prefix(\d+)/]: the captured digits. *)
Fixpoint match_digits_after (prefix s : string) : option string :=
  match
    match strip_prefix prefix s with
    | Some r => let ds := fst (span_digits r) in
                if String.eqb ds "" then None else Some ds
    | None => None
    end
  with
  | Some ds => Some ds
  | None =>
      match s with
      | String _ s' => match_digits_after prefix s'
      | EmptyString => None
      end
  end.

(** A line terminator, which [.] does not match.  Strings are byte
    strings: the two Unicode separators are not single characters here. *)
Definition is_line_terminator (c : ascii) : bool :=
  let n := N_of_ascii c in ((n =? 10) || (n =? 13))%N.

(** Longest prefix without a line terminator: what [.+] can match. *)
Fixpoint span_line (s : string) : string :=
  match s with
  | String c s' => if is_line_terminator c then "" else String c (span_line s')
  | EmptyString => ""
  end.

(** First match of [/prefix(.+)/]: the captured rest of the line. *)
Fixpoint match_line_after (prefix s : string) : option string :=
  match
    match strip_prefix prefix s with
    | Some r => let l := span_line r in
                if String.eqb l "" then None else Some l
    | None => None
    end
  with
  | Some l => Some l
  | None =>
      match s with
      | String _ s' => match_line_after prefix s'
      | EmptyString => None
      end
  end.

Definition is_space (c : ascii) : bool :=
  let n := N_of_ascii c in
  ((n =? 32) || (n =? 9) || (n =? 10) || (n =? 11) || (n =? 12) || (n =? 13))%N.

Fixpoint trim_start (s : string) : string :=
  match s with
  | String c s' => if is_space c then trim_start s' else s
  | EmptyString => s
  end.

Fixpoint trim_end (s : string) : string :=
  match s with
  | String c s' =>
      let t := trim_end s' in
      if String.eqb t "" && is_space c then "" else String c t
  | EmptyString => ""
  end.

(** [String.prototype.trim] on ASCII white space. *)
Definition trim (s : string) : string := trim_end (trim_start s).

(** [parseFloat(x.toFixed(2))].  [toFixed] takes the integer [n] for
    which [n / 100] is nearest to the exact value of the magnitude of
    [x], the larger one on a tie, and prints it with two decimals after
    the sign; [parseFloat] reads the double nearest to that decimal.
    From [1e21] on [toFixed] prints the number as [toString] does, and
    [NaN] and the infinities by their names: [parseFloat] reads them
    back as they were. *)
Definition toFixed2 (x : Double.t) : Double.t :=
  match x with
  | Double.Finite q =>
      if Qle_bool (inject_Z (10 ^ 21)) (Qabs q) then x
      else
        let n := Qfloor (Qabs q * 100 + (1 # 2)) in
        Double.of_Q ((if Double.is_negative q then - n else n)%Z # 100)
  | _ => x
  end.

Section Service.
Context {B D : Type} `{RedisClient B}.

Definition recordHit : M (B:=B) (D:=D) unit :=
  fun w => (Ret tt, mkWorld (redis w)
                      (mkMetricsState (hits (metrics w) + 1) (misses (metrics w)))
                      (db w) (trace w)).

Definition recordMiss : M (B:=B) (D:=D) unit :=
  fun w => (Ret tt, mkWorld (redis w)
                      (mkMetricsState (hits (metrics w)) (misses (metrics w) + 1))
                      (db w) (trace w)).

(** [Promise.all([p, q])]: both calls are started; the result rejects
    with the rejection of the first one that fails. *)
Definition Promise_all2 {A C} (p : M A) (q : M C) : M (B:=B) (D:=D) (A * C) :=
  let* a := settle p in
  let* c := settle q in
  match a, c with
  | Ret x, Ret y => ret (x, y)
  | Throw e, _ => throw e
  | Ret _, Throw e => throw e
  end.

Definition getMemoryUsage : M (B:=B) (D:=D) string :=
  let* info := call (INFO "memory") (ioredis_info "memory") in
  let matched := match_line_after "used_memory_human:" info in
  let trimmed := trim <$> matched in
  ret (if truthy_str trimmed then default "" trimmed else "Unknown").

Definition getMetrics : M (B:=B) (D:=D) CacheMetrics.t :=
  let* both := Promise_all2 (call (INFO "stats") (ioredis_info "stats"))
                            (call DBSIZE ioredis_dbsize) in
  let '(info, dbSize) := both in
  let statsMatch := match_digits_after "keyspace_hits:" info in
  let missesMatch := match_digits_after "keyspace_misses:" info in
  let redisHits :=
    parseInt (if truthy_str statsMatch then default "" statsMatch else "0") in
  let redisMisses :=
    parseInt (if truthy_str missesMatch then default "" missesMatch else "0") in
  let totalRequests := Double.add redisHits redisMisses in
  let hitRate :=
    if Double.gtb totalRequests (Double.Finite 0)
    then Double.mul (Double.div redisHits totalRequests) (Double.Finite 100)
    else Double.Finite 0 in
  let* memoryUsed := getMemoryUsage in
  ret (CacheMetrics.mk redisHits redisMisses (toFixed2 hitRate) dbSize memoryUsed).

Definition resetMetrics : M (B:=B) (D:=D) unit :=
  let* done := call (CONFIG "RESETSTAT") (ioredis_config "RESETSTAT") in
  fun w => (Ret tt, mkWorld (redis w) (mkMetricsState 0 0) (db w) (trace w)).
End Service.

End CacheMetricsService.

Module MetricsController.
Import Runtime.
Local Open Scope js_scope.

(** A property value of a response body. *)
Inductive Field :=
| FNumber (x : Double.t)
| FString (s : string).

(** The object literal built by [getMetrics], as the endpoint returns it:
    property names in order, with their values. *)
Definition body_of (m : CacheMetrics.t) : list (string * Field) :=
  [ ("hits", FNumber (CacheMetrics.hits m));
    ("misses", FNumber (CacheMetrics.misses m));
    ("hitRate", FNumber (CacheMetrics.hitRate m));
    ("totalKeys", FNumber (Double.of_Z (CacheMetrics.totalKeys m)));
    ("memoryUsed", FString (CacheMetrics.memoryUsed m)) ].

Section Controller.
Context {B D : Type} `{RedisClient B}.

Definition getCacheMetrics : M (B:=B) (D:=D) (list (string * Field)) :=
  let* m := CacheMetricsService.getMetrics in
  ret (body_of m).

Definition resetMetrics : M (B:=B) (D:=D) (list (string * Field)) :=
  let* done := CacheMetricsService.resetMetrics in
  ret [("message", FString "Metrics reset successfully")].
End Controller.

End MetricsController.

(* ===================================================================== *)
(** * users.controller.ts: the policy bound to [findOne] *)
(* ===================================================================== *)

Module UsersController.
Import CacheInterceptor.

(** [@Cached({ ttl: CacheTTL.USER,
               keyBuilder: (params) => CacheKeyBuilder.build('user', params.id) })]
    A missing [params.id] is [undefined], which the template prints as
    such. *)
Definition findOne_policy : CacheConfig :=
  {| ttl := CacheTTL.USER;
     keyBuilder := fun params _ =>
       CacheKeyBuilder.build "user"
         (CacheKeyBuilder.IdString (default "undefined" (params !! "id"))) |}.

End UsersController.

(* ===================================================================== *)
(** * Instances of the two interfaces *)
(* ===================================================================== *)

(** JavaScript values with the JSON functions of the previous section. *)
#[global] Instance js_values : Runtime.JsPlatform Js.Value :=
  {| Runtime.truthy := Js.truthy;
     Runtime.JSON_stringify := JSON.stringify;
     Runtime.JSON_parse := JSON.parse |}.

(** A reference model of the cache server behind the client: a key-value
    store with expiry, the two keyspace counters, and a switch that makes
    every command fail while the server is unreachable.  The server is
    not part of the repository; the model follows the protocol the spec
    lists as consumed from the cache backend (GET, SET with expiry, DEL,
    KEYS, DBSIZE, INFO, CONFIG RESETSTAT). *)
Module RedisModel.
Import Js.

Record Entry := mkEntry {
  value : string;
  expiresAt : option Z
}.

Record t := mk {
  up : bool;
  store : gmap string Entry;
  now : Z;
  keyspace_hits : N;
  keyspace_misses : N;
  used_memory_human : string
}.

Definition live (clock : Z) (e : Entry) : bool :=
  match expiresAt e with
  | Some deadline => (clock <? deadline)%Z
  | None => true
  end.

Definition lookup_live (k : string) (r : t) : option string :=
  match store r !! k with
  | Some e => if live (now r) e then Some (value e) else None
  | None => None
  end.

Definition live_keys (r : t) : list string :=
  omap (fun kv : string * Entry => if live (now r) (snd kv) then Some (fst kv) else None)
       (map_to_list (store r)).

(** Glob patterns with [*] and [?]. *)
Fixpoint glob_match (p s : string) : bool :=
  match p with
  | EmptyString => String.eqb s ""
  | String c p' =>
      if Ascii.eqb c "*" then
        (fix star (s : string) : bool :=
           glob_match p' s ||
           match s with
           | String _ s' => star s'
           | EmptyString => false
           end) s
      else
        match s with
        | String d s' =>
            (Ascii.eqb c "?" || Ascii.eqb c d) && glob_match p' s'
        | EmptyString => false
        end
  end.

Definition with_store (r : t) (m : gmap string Entry) : t :=
  mk (up r) m (now r) (keyspace_hits r) (keyspace_misses r) (used_memory_human r).

Definition unreachable {A} (r : t) : Outcome A * t :=
  (Throw (ConnectionError "Connection is closed."), r).

Definition count_hit (r : t) : t :=
  mk (up r) (store r) (now r) (keyspace_hits r + 1) (keyspace_misses r)
     (used_memory_human r).

Definition count_miss (r : t) : t :=
  mk (up r) (store r) (now r) (keyspace_hits r) (keyspace_misses r + 1)
     (used_memory_human r).

Definition get (k : string) (r : t) : Outcome (option string) * t :=
  if up r then
    match lookup_live k r with
    | Some v => (Ret (Some v), count_hit r)
    | None => (Ret None, count_miss r)
    end
  else unreachable r.

Definition set (k v : string) (r : t) : Outcome unit * t :=
  if up r then (Ret tt, with_store r (<[k := mkEntry v None]> (store r)))
  else unreachable r.

Definition setex (k : string) (seconds : Z) (v : string) (r : t) :
    Outcome unit * t :=
  if up r then
    if (seconds <=? 0)%Z
    then (Throw (ReplyError "ERR invalid expire time in 'setex' command"), r)
    else (Ret tt, with_store r (<[k := mkEntry v (Some (now r + seconds)%Z)]> (store r)))
  else unreachable r.

Definition del (ks : list string) (r : t) : Outcome Z * t :=
  if up r then
    match ks with
    | [] => (Throw (ReplyError "ERR wrong number of arguments for 'del' command"), r)
    | _ =>
        let step (acc : Z * t) (k : string) :=
          let '(n, r) := acc in
          match lookup_live k r with
          | Some _ => ((n + 1)%Z, with_store r (delete k (store r)))
          | None => (n, with_store r (delete k (store r)))
          end in
        let '(n, r') := fold_left step ks (0%Z, r) in
        (Ret n, r')
    end
  else unreachable r.

Definition keys (p : string) (r : t) : Outcome (list string) * t :=
  if up r then (Ret (List.filter (glob_match p) (live_keys r)), r)
  else unreachable r.

Definition crlf : string := String (ascii_of_nat 13) (String (ascii_of_nat 10) "").

Definition stats_text (h m : N) : string :=
  "# Stats" ++ crlf
  ++ "keyspace_hits:" ++ number_toString (Z.of_N h) ++ crlf
  ++ "keyspace_misses:" ++ number_toString (Z.of_N m) ++ crlf.

Definition memory_text (mem : string) : string :=
  "# Memory" ++ crlf ++ "used_memory_human:" ++ mem ++ crlf.

Definition info (section : string) (r : t) : Outcome string * t :=
  if up r then
    if String.eqb section "stats" then
      (Ret (stats_text (keyspace_hits r) (keyspace_misses r)), r)
    else if String.eqb section "memory" then
      (Ret (memory_text (used_memory_human r)), r)
    else (Ret "", r)
  else unreachable r.

Definition dbsize (r : t) : Outcome Z * t :=
  if up r then (Ret (Z.of_nat (length (live_keys r))), r)
  else unreachable r.

Definition config (subcommand : string) (r : t) : Outcome unit * t :=
  if up r then
    if String.eqb subcommand "RESETSTAT"
    then (Ret tt, mk (up r) (store r) (now r) 0 0 (used_memory_human r))
    else (Throw (ReplyError "ERR unknown subcommand"), r)
  else unreachable r.

(** Time passing on the server. *)
Definition advance (seconds : Z) (r : t) : t :=
  mk (up r) (store r) (now r + seconds)%Z (keyspace_hits r) (keyspace_misses r)
     (used_memory_human r).

#[global] Instance as_client : Runtime.RedisClient t :=
  {| Runtime.ioredis_get := get;
     Runtime.ioredis_set := set;
     Runtime.ioredis_setex := setex;
     Runtime.ioredis_del := del;
     Runtime.ioredis_keys := keys;
     Runtime.ioredis_info := info;
     Runtime.ioredis_dbsize := dbsize;
     Runtime.ioredis_config := config |}.

(** A fresh, reachable server. *)
Definition empty : t := mk true ∅ 0 0 0 "1.00M".

Definition down (r : t) : t :=
  mk false (store r) (now r) (keyspace_hits r) (keyspace_misses r)
     (used_memory_human r).

End RedisModel.

(* ===================================================================== *)
(** * Scenarios used to exercise the model *)
(* ===================================================================== *)

Module Scenario.
Import Runtime CacheInterceptor.

(** A handler that resolves with [v] and leaves the data store alone. *)
Definition resolves {D V : Type} (v : V) : D -> Outcome V * D :=
  fun d => (Ret v, d).

(** A handler that rejects. *)
Definition rejects {D V : Type} (e : Exn) : D -> Outcome V * D :=
  fun d => (Throw e, d).

(** A handler reading user records from a table by id; an unknown id
    resolves with [null]. *)
Definition findOne (id : string) :
    gmap string Js.Value -> Outcome Js.Value * gmap string Js.Value :=
  fun d => (Ret (default Js.Null (d !! id)), d).

Definition world {D} (r : RedisModel.t) (connected : bool) (d : D) :
    World RedisModel.t D :=
  mkWorld (mkRedisState r connected) (mkMetricsState 0 0) d [].

Definition request_user (id : string) : Request :=
  mkRequest {[ "id" := id ]} ∅.

Definition ann : Js.Value :=
  Js.Object [("id", Js.Str "42"); ("name", Js.Str "Ann"); ("roleId", Js.Number 7)].

(** A server that already holds the serialized record of user 42. *)
Definition warm_server : RedisModel.t :=
  RedisModel.mk true
    {[ "app:v1:user:42" := RedisModel.mkEntry (JSON.stringify ann) (Some 300%Z) ]}
    0 0 0 "1.00M".

(** A server that holds a payload that is not JSON under that key. *)
Definition corrupt_server : RedisModel.t :=
  RedisModel.mk true {[ "app:v1:user:42" := RedisModel.mkEntry "{" None ]}
    0 0 0 "1.00M".

End Scenario.


(* ===================================================================== *)
(** * Predicates used in the statements *)
(* ===================================================================== *)

Module Spec.
Import Runtime.

(** The separator [:] does not occur in [s]. *)
Fixpoint no_colon (s : string) : bool :=
  match s with
  | EmptyString => true
  | String c s' => negb (Ascii.eqb c ":") && no_colon s'
  end.

Definition same_kind (i j : CacheKeyBuilder.Identifier) : bool :=
  match i, j with
  | CacheKeyBuilder.IdString _, CacheKeyBuilder.IdString _ => true
  | CacheKeyBuilder.IdNumber _, CacheKeyBuilder.IdNumber _ => true
  | _, _ => false
  end.

(** [m] resolves in every world. *)
Definition never_throws {B D A} (m : M (B:=B) (D:=D) A) : Prop :=
  forall w, exists a w', m w = (Ret a, w').

(** The health flag of the service set to [b]. *)
Definition with_connected {B D} (b : bool) (w : World B D) : World B D :=
  mkWorld (mkRedisState (client (redis w)) b) (metrics w) (db w) (trace w).

(** The world after one method call on the raw client that left the
    backend in state [b']. *)
Definition after_call {B D} (c : Command) (b' : B) (w : World B D) : World B D :=
  mkWorld (mkRedisState b' (isConnected (redis w))) (metrics w) (db w)
          (trace w ++ [RedisCall c])%list.

(** The world after the wrapped handler ran in [w]. *)
Definition after_handler {V B D} (next : D -> Outcome V * D) (w : World B D) :
    World B D :=
  mkWorld (redis w) (metrics w) (snd (next (db w))) (trace w ++ [HandlerCall])%list.

(** The key the interceptor derives for a request. *)
Definition cache_key (cfg : CacheInterceptor.CacheConfig)
    (req : CacheInterceptor.Request) : string :=
  CacheInterceptor.keyBuilder cfg (CacheInterceptor.params req)
    (CacheInterceptor.query req).

(** What the reference server has under [key] right now. *)
Definition cached {D} (key : string) (w : World RedisModel.t D) : option string :=
  RedisModel.lookup_live key (client (redis w)).

(** The events of a request that went to the handler. *)
Definition miss_events {V} `{JsPlatform V} (connected : bool)
    (cfg : CacheInterceptor.CacheConfig) (key : string) (result : Outcome V) :
    list Event :=
  ((if connected then [RedisCall (GET key)] else [])
   ++ [HandlerCall]
   ++ match result with
      | Ret data =>
          if truthy data && connected
          then [RedisCall
                  (if (CacheInterceptor.ttl cfg =? 0)%Z
                   then SET key (JSON_stringify data)
                   else SETEX key (CacheInterceptor.ttl cfg) (JSON_stringify data))]
          else []
      | Throw _ => []
      end)%list.

(** No line terminator occurs in [s]. *)
Fixpoint no_line_break (s : string) : bool :=
  match s with
  | EmptyString => true
  | String c s' => negb (CacheMetricsService.is_line_terminator c) && no_line_break s'
  end.

(** A counter read from the text of [INFO stats], as [getMetrics] does. *)
Definition counter (label info : string) : Double.t :=
  let matched := CacheMetricsService.match_digits_after label info in
  parseInt (if truthy_str matched then default "" matched else "0").

(** The Number [getMetrics] rounds to two decimals:
    [total > 0 ? (hits / total) * 100 : 0] with [total = hits + misses],
    every operation in double precision. *)
Definition rate (hits misses : Double.t) : Double.t :=
  let total := Double.add hits misses in
  if Double.gtb total (Double.Finite 0)
  then Double.mul (Double.div hits total) (Double.Finite 100)
  else Double.Finite 0.

(** The exact percentage: [hits / (hits + misses) * 100], and 0 when
    there was no traffic. *)
Definition exact_rate (h m : Z) : Q :=
  if (h + m >? 0)%Z then ((inject_Z h / inject_Z (h + m)) * 100)%Q else 0%Q.

(** The memory figure read from the text of [INFO memory]. *)
Definition memory_of (info : string) : string :=
  let trimmed :=
    CacheMetricsService.trim <$>
      CacheMetricsService.match_line_after "used_memory_human:" info in
  if truthy_str trimmed then default "" trimmed else "Unknown".

Definition handler_called {B D} (w w' : World B D) : bool :=
  existsb is_handler_call (events_since w w').

Definition wrote {B D} (w w' : World B D) : bool :=
  existsb is_write (events_since w w').

End Spec.

(* ===================================================================== *)
(** * all-exceptions.filter.ts *)
(* ===================================================================== *)

Module AllExceptionsFilter.
Import Js.

(** What reaches [catch(exception: unknown, host)]: an [HttpException]
    with its status and response, or anything else. *)
Inductive Exception :=
| HttpException (status : Z) (response : Value)
| Uncaught (e : Exn).

(** [HttpStatus.INTERNAL_SERVER_ERROR] *)
Definition INTERNAL_SERVER_ERROR : Z := 500.

(** What [response.status(status).json(errorResponse)] sends. *)
Record Reply := mkReply {
  statusCode : Z;
  body : Value
}.

(** [catch(exception, host)].  [timestamp] is [new Date().toISOString()]
    and [url] is [request.url]. *)
Definition catch (exception : Exception) (timestamp url : string) : Reply :=
  let status :=
    match exception with
    | HttpException status _ => status
    | Uncaught _ => INTERNAL_SERVER_ERROR
    end in
  let message :=
    match exception with
    | HttpException _ response => response
    | Uncaught _ => Str "Internal server error"
    end in
  let errorResponse :=
    Object [("statusCode", Number status); ("timestamp", Str timestamp);
            ("path", Str url); ("message", message)] in
  mkReply status errorResponse.

End AllExceptionsFilter.

(* ===================================================================== *)
(** * prisma/seed.ts: the users the seed script creates *)
(* ===================================================================== *)

Module Seed.
Import Js.

(** One element of the [data] passed to [prisma.user.createMany]; [R] is
    the type of the ids of the created roles. *)
Record UserInput (R : Type) := mkUserInput {
  email : string;
  name : string;
  bio : string;
  roleId : R
}.
Arguments mkUserInput {R}.
Arguments email {R}.
Arguments name {R}.
Arguments bio {R}.
Arguments roleId {R}.

Section Main.
Context {R : Type}.

(** The object pushed in iteration [i] of the loop. *)
Definition user (adminRole userRole : R) (i : Z) : UserInput R :=
  mkUserInput
    ("user" ++ number_toString i ++ "@example.com")
    ("User " ++ number_toString i)
    ("Biography for user " ++ number_toString i)
    (if (i mod 10 =? 0)%Z then adminRole else userRole).

(** [for (let i = 0; i < count; i++) users.push(...)], from the state
    reached with [i] and [users]; [fuel] bounds the iterations left. *)
Fixpoint loop (fuel : nat) (count i : Z) (adminRole userRole : R)
    (users : list (UserInput R)) : list (UserInput R) :=
  match fuel with
  | O => users
  | S fuel' =>
      if (i <? count)%Z
      then loop fuel' count (i + 1)%Z adminRole userRole
             (users ++ [user adminRole userRole i])
      else users
  end.

(** The array built for [count] users. *)
Definition users_for (count : Z) (adminRole userRole : R) : list (UserInput R) :=
  loop (Z.to_nat count) count 0 adminRole userRole [].

(** The array [main] passes to [createMany]. *)
Definition users (adminRole userRole : R) : list (UserInput R) :=
  users_for 1000 adminRole userRole.
End Main.

End Seed.

(* ===================================================================== *)
(** * Further predicates used in the statements *)
(* ===================================================================== *)

Module Props.
Import Runtime.

(** The two numbers a list key is built from, after the defaults. *)
Definition effective (params : option CacheKeyBuilder.ListParams) : Z * Z :=
  let params :=
    default {| CacheKeyBuilder.page := None; CacheKeyBuilder.limit := None |} params in
  (default 1 (CacheKeyBuilder.page params), default 10 (CacheKeyBuilder.limit params)).

(** The part of a list key that follows the resource. *)
Definition list_suffix (params : option CacheKeyBuilder.ListParams) : string :=
  "list:page-" ++ number_toString (fst (effective params))
  ++ ":limit-" ++ number_toString (snd (effective params)).

(** No character of [s] is special in a glob pattern. *)
Fixpoint glob_plain (s : string) : bool :=
  match s with
  | EmptyString => true
  | String c s' =>
      negb (existsb (Ascii.eqb c)
              ["*"%char; "?"%char; "["%char; "]"%char; "092"%char])
      && glob_plain s'
  end.

(** The health flag after the connection emitted [evs], oldest first. *)
Definition after_events {B} (evs : list RedisService.ConnectionEvent)
    (s : RedisState B) : RedisState B :=
  fold_left (fun s ev => RedisService.on ev s) evs s.

(** [seconds] pass on the reference server. *)
Definition elapse {D} (seconds : Z) (w : World RedisModel.t D) :
    World RedisModel.t D :=
  mkWorld (mkRedisState (RedisModel.advance seconds (client (redis w)))
             (isConnected (redis w)))
          (metrics w) (db w) (trace w).

(** The data behind the handlers replaced by [d]. *)
Definition with_db {B D} (d : D) (w : World B D) : World B D :=
  mkWorld (redis w) (metrics w) d (trace w).

(** The process-local counters replaced by [m]. *)
Definition with_metrics {B D} (m : MetricsState) (w : World B D) : World B D :=
  mkWorld (redis w) m (db w) (trace w).

(** The command of an event sent to the raw client is one of the
    interceptor's: a lookup or a write of [key]. *)
Definition lookup_or_write_of (key : string) (ev : Event) : bool :=
  match ev with
  | HandlerCall => true
  | RedisCall (GET k) | RedisCall (SET k _) | RedisCall (SETEX k _ _) =>
      String.eqb k key
  | RedisCall _ => false
  end.

Definition count_handler_calls (evs : list Event) : nat :=
  length (List.filter is_handler_call evs).

Definition count_redis_calls (evs : list Event) : nat :=
  length (List.filter (fun ev => negb (is_handler_call ev)) evs).

(** Every payload in the store is a non-empty text that [JSON.parse]
    accepts. *)
Definition clean (r : RedisModel.t) : Prop :=
  forall k e, RedisModel.store r !! k = Some e ->
    RedisModel.value e <> "" /\ exists v, JSON.parse (RedisModel.value e) = inr v.

(** A request as it reaches the interceptor: the policy bound to its
    handler, the request, and the handler. *)
Definition Incoming (V D : Type) : Type :=
  (option CacheInterceptor.CacheConfig * CacheInterceptor.Request
   * (D -> Outcome V * D))%type.

(** Requests served one after the other. *)
Fixpoint serve {V} `{JsPlatform V} {B D} `{RedisClient B}
    (reqs : list (Incoming V D)) (w : World B D) : list (Outcome V) * World B D :=
  match reqs with
  | [] => ([], w)
  | (cfg, req, next) :: rest =>
      let '(o, w1) := CacheInterceptor.intercept cfg req next w in
      let '(os, w2) := serve rest w1 in
      (o :: os, w2)
  end.

(** [label] followed by a digit occurs in [info]. *)
Definition mentions (label info : string) : Prop :=
  exists pre d post, info = pre ++ label ++ String d post /\ is_digit d = true.

(** A backend without statistics: it holds nothing and answers every
    [INFO] with an empty text. *)
Definition terse : RedisClient unit :=
  {| ioredis_get := fun _ b => (Ret None, b);
     ioredis_set := fun _ _ b => (Ret tt, b);
     ioredis_setex := fun _ _ _ b => (Ret tt, b);
     ioredis_del := fun _ b => (Ret 0%Z, b);
     ioredis_keys := fun _ b => (Ret [], b);
     ioredis_info := fun _ b => (Ret "", b);
     ioredis_dbsize := fun b => (Ret 0%Z, b);
     ioredis_config := fun _ b => (Ret tt, b) |}.

End Props.

(* ===================================================================== *)
(** * JSON: what is written is read back *)
(* ===================================================================== *)

Section JSONFacts.
Import Js JSON.

Lemma Value_ind' (P : Value -> Prop) :
  P Undefined -> P Null -> (forall b, P (Bool b)) -> (forall n, P (Number n)) ->
  (forall s, P (Str s)) ->
  (forall xs, Forall P xs -> P (Array xs)) ->
  (forall props, Forall (fun kv => P (snd kv)) props -> P (Object props)) ->
  forall v, P v.
Proof.
  intros HU HN HB HZ HS HA HO.
  fix IH 1. intros [| |b|n|s|xs|props].
  - exact HU.
  - exact HN.
  - apply HB.
  - apply HZ.
  - apply HS.
  - apply HA. induction xs as [|x xs IHxs]; constructor; [apply IH | exact IHxs].
  - apply HO. induction props as [|[k x] ps IHps]; constructor;
      [apply IH | exact IHps].
Qed.

Lemma append_assoc (a b c : string) : (a ++ b) ++ c = a ++ b ++ c.
Proof. induction a as [|x a IH]; simpl; [reflexivity | now f_equal]. Qed.

Lemma append_nil_r (a : string) : a ++ "" = a.
Proof. induction a as [|x a IH]; simpl; [reflexivity | now f_equal]. Qed.

Lemma length_append (a b : string) :
  String.length (a ++ b) = (String.length a + String.length b)%nat.
Proof. induction a as [|x a IH]; simpl; [reflexivity | now f_equal]. Qed.

(** ** Strings *)

Lemma parse_escape_char (c : ascii) (t : string) :
  parse_string_body (escape_char c ++ t) = prepend c (parse_string_body t).
Proof.
  destruct c as [[] [] [] [] [] [] [] []]; reflexivity.
Qed.

Lemma parse_escape (s rest : string) :
  parse_string_body (escape s ++ String dquote rest) = Some (s, rest).
Proof.
  induction s as [|c s IH].
  - reflexivity.
  - cbn [escape]. rewrite append_assoc, parse_escape_char, IH. reflexivity.
Qed.

(** ** Numbers *)

Lemma span_digits_stop (rest : string) :
  starts_with_digit rest = false -> span_digits rest = ("", rest).
Proof. destruct rest as [|c r]; simpl; [reflexivity | now intros ->]. Qed.

Lemma span_digits_uint (u : Decimal.uint) (rest : string) :
  starts_with_digit rest = false ->
  span_digits (NilEmpty.string_of_uint u ++ rest)
  = (NilEmpty.string_of_uint u, rest).
Proof.
  intros Hr. induction u; simpl; rewrite ?IHu; auto using span_digits_stop.
Qed.

Lemma nzhead_head (u u' : Decimal.uint) : Decimal.nzhead u <> Decimal.D0 u'.
Proof. induction u; simpl; try discriminate; auto. Qed.

Lemma to_uint_head (p : positive) (u : Decimal.uint) :
  Pos.to_uint p <> Decimal.D0 u.
Proof.
  intros E.
  pose proof (DecimalPos.Unsigned.to_of (Pos.to_uint p)) as T.
  rewrite DecimalPos.Unsigned.of_to in T. simpl in T.
  rewrite E in T at 1. rewrite E in T.
  rewrite DecimalFacts.unorm_D0 in T. unfold Decimal.unorm in T.
  destruct (Decimal.nzhead u) eqn:Hn; try discriminate.
  - injection T as T. subst u. apply (DecimalPos.Unsigned.to_uint_nonzero p E).
  - exact (nzhead_head _ _ Hn).
Qed.

Lemma nilzero_string (u : Decimal.uint) :
  u <> Decimal.Nil -> NilZero.string_of_uint u = NilEmpty.string_of_uint u.
Proof. destruct u; try reflexivity. contradiction. Qed.

Lemma to_uint_string (p : positive) :
  number_toString (Z.pos p) = NilEmpty.string_of_uint (Pos.to_uint p).
Proof.
  unfold number_toString. simpl.
  apply nilzero_string, DecimalPos.Unsigned.to_uint_nonnil.
Qed.

Lemma uint_string_head (u : Decimal.uint) :
  u <> Decimal.Nil ->
  exists c t, NilEmpty.string_of_uint u = String c t /\ is_digit c = true.
Proof. destruct u; try contradiction; intros _; simpl; eauto. Qed.

Lemma parse_unsigned_zero (rest : string) :
  number_end rest = true -> parse_unsigned ("0" ++ rest) = Some (0, rest).
Proof.
  intros Hend. apply andb_prop in Hend as [Hd He].
  apply negb_true_iff in Hd. apply negb_true_iff in He.
  unfold parse_unsigned. simpl. rewrite span_digits_stop by assumption.
  simpl. now rewrite He.
Qed.

Lemma parse_unsigned_pos (p : positive) (rest : string) :
  number_end rest = true ->
  parse_unsigned (number_toString (Z.pos p) ++ rest) = Some (Z.pos p, rest).
Proof.
  intros Hend. apply andb_prop in Hend as [Hd He].
  apply negb_true_iff in Hd. apply negb_true_iff in He.
  rewrite to_uint_string. unfold parse_unsigned.
  rewrite span_digits_uint by assumption.
  assert (Hn := DecimalPos.Unsigned.to_uint_nonnil p).
  assert (Hz := to_uint_head p).
  rewrite NilEmpty.usu. unfold Z.of_uint.
  rewrite DecimalPos.Unsigned.of_to. simpl.
  destruct (Pos.to_uint p) as [|u|u|u|u|u|u|u|u|u|u]; try contradiction;
    try (simpl; now rewrite He).
  now destruct (Hz u).
Qed.

Lemma parse_number_toString (n : Z) (rest : string) :
  number_end rest = true ->
  parse_number (number_toString n ++ rest) = Some (n, rest).
Proof.
  intros Hend. destruct n as [|p|p].
  - change (number_toString 0) with "0". simpl.
    change (String "0" rest) with ("0" ++ rest).
    apply parse_unsigned_zero, Hend.
  - pose proof (parse_unsigned_pos p rest Hend) as T.
    rewrite to_uint_string in *.
    destruct (uint_string_head (Pos.to_uint p)) as (c & t & E & Hc);
      [apply DecimalPos.Unsigned.to_uint_nonnil|].
    rewrite E in *. simpl. 
    destruct (Ascii.eqb_spec c "-") as [->|_]; [discriminate|]. exact T.
  - pose proof (parse_unsigned_pos p rest Hend) as T.
    change (number_toString (Z.neg p)) with
      (String "-" (NilZero.string_of_uint (Pos.to_uint p))).
    rewrite nilzero_string by apply DecimalPos.Unsigned.to_uint_nonnil.
    rewrite to_uint_string in T. simpl. now rewrite T.
Qed.

(** ** Equations of the parser *)

Lemma parse_value_null f rest :
  parse_value (S f) ("null" ++ rest) = Some (Null, rest).
Proof. reflexivity. Qed.

Lemma parse_value_true f rest :
  parse_value (S f) ("true" ++ rest) = Some (Bool true, rest).
Proof. reflexivity. Qed.

Lemma parse_value_false f rest :
  parse_value (S f) ("false" ++ rest) = Some (Bool false, rest).
Proof. reflexivity. Qed.

Lemma parse_value_string f t :
  parse_value (S f) (String dquote t) =
    match parse_string_body t with
    | Some (str, r') => Some (Str str, r')
    | None => None
    end.
Proof. reflexivity. Qed.

Lemma parse_value_array f t :
  parse_value (S f) (String "[" t) =
    match expect "]" (skip_ws t) with
    | Some r' => Some (Array [], r')
    | None =>
        match parse_elements f t with
        | Some (xs, r') => Some (Array xs, r')
        | None => None
        end
    end.
Proof. reflexivity. Qed.

Lemma parse_value_object f t :
  parse_value (S f) (String "{" t) =
    match expect "}" (skip_ws t) with
    | Some r' => Some (Object [], r')
    | None =>
        match parse_members f t with
        | Some (ps, r') => Some (Object ps, r')
        | None => None
        end
    end.
Proof. reflexivity. Qed.

Lemma parse_value_number f c t :
  is_digit c || Ascii.eqb c "-" = true ->
  parse_value (S f) (String c t) =
    match parse_number (String c t) with
    | Some (n, r') => Some (Number n, r')
    | None => None
    end.
Proof.
  destruct c as [[] [] [] [] [] [] [] []]; try discriminate; intros _; reflexivity.
Qed.

Lemma parse_elements_S f s :
  parse_elements (S f) s =
    match parse_value f s with
    | None => None
    | Some (v, r) =>
        match expect "," (skip_ws r) with
        | Some r' =>
            match parse_elements f r' with
            | Some (vs, r'') => Some (v :: vs, r'')
            | None => None
            end
        | None =>
            match expect "]" (skip_ws r) with
            | Some r' => Some ([v], r')
            | None => None
            end
        end
    end.
Proof. reflexivity. Qed.

Lemma parse_members_S f s :
  parse_members (S f) s =
    match expect dquote (skip_ws s) with
    | None => None
    | Some r =>
        match parse_string_body r with
        | None => None
        | Some (k, r) =>
            match expect ":" (skip_ws r) with
            | None => None
            | Some r =>
                match parse_value f r with
                | None => None
                | Some (v, r) =>
                    match expect "," (skip_ws r) with
                    | Some r' =>
                        match parse_members f r' with
                        | Some (ps, r'') => Some ((k, v) :: ps, r'')
                        | None => None
                        end
                    | None =>
                        match expect "}" (skip_ws r) with
                        | Some r' => Some ([(k, v)], r')
                        | None => None
                        end
                    end
                end
            end
        end
    end.
Proof. reflexivity. Qed.

(** ** Round trip *)

Lemma value_start_not_ws c : value_start c = true -> is_ws c = false.
Proof. destruct c as [[] [] [] [] [] [] [] []]; try discriminate; reflexivity. Qed.

Lemma value_start_not_close c t :
  value_start c = true ->
  expect "]" (String c t) = None /\ expect "}" (String c t) = None.
Proof.
  destruct c as [[] [] [] [] [] [] [] []]; try discriminate; repeat split.
Qed.

Lemma number_toString_head (n : Z) :
  exists c t, number_toString n = String c t
              /\ is_digit c || Ascii.eqb c "-" = true.
Proof.
  destruct n as [|p|p].
  - exists "0"%char, "". split; reflexivity.
  - rewrite to_uint_string.
    destruct (uint_string_head (Pos.to_uint p)) as (c & t & E & Hc);
      [apply DecimalPos.Unsigned.to_uint_nonnil|].
    exists c, t. rewrite Hc. auto.
  - exists "-"%char, (NilZero.string_of_uint (Pos.to_uint p)). split; reflexivity.
Qed.

Lemma num_start_value_start c :
  is_digit c || Ascii.eqb c "-" = true -> value_start c = true.
Proof. destruct c as [[] [] [] [] [] [] [] []]; try discriminate; reflexivity. Qed.

Lemma serialize_head (v : Value) :
  exists c t, serialize v = String c t /\ value_start c = true.
Proof.
  destruct v as [| |[]|n|s|xs|props]; simpl; eauto.
  destruct (number_toString_head n) as (c & t & -> & Hc).
  eauto using num_start_value_start.
Qed.

Lemma delimited_number_end rest : delimited rest = true -> number_end rest = true.
Proof.
  destruct rest as [|c r]; [reflexivity|].
  destruct c as [[] [] [] [] [] [] [] []]; try discriminate; reflexivity.
Qed.

Lemma skip_ws_delimited rest : delimited rest = true -> skip_ws rest = rest.
Proof.
  destruct rest as [|c r]; [reflexivity|].
  destruct c as [[] [] [] [] [] [] [] []]; try discriminate; reflexivity.
Qed.

Lemma skip_ws_value (v : Value) (rest : string) :
  skip_ws (serialize v ++ rest) = serialize v ++ rest.
Proof.
  destruct (serialize_head v) as (c & t & -> & Hc). simpl.
  now rewrite (value_start_not_ws c Hc).
Qed.

Lemma expect_close_value (v : Value) (rest : string) :
  expect "]" (serialize v ++ rest) = None
  /\ expect "}" (serialize v ++ rest) = None.
Proof.
  destruct (serialize_head v) as (c & t & -> & Hc).
  change (String c t ++ rest) with (String c (t ++ rest)).
  now apply value_start_not_close.
Qed.

Lemma step_comma (tl : string) : expect "," (skip_ws ("," ++ tl)) = Some tl.
Proof. reflexivity. Qed.

Lemma step_colon (tl : string) : expect ":" (skip_ws (":" ++ tl)) = Some tl.
Proof. reflexivity. Qed.

Lemma step_quote (tl : string) :
  expect dquote (skip_ws (String dquote tl)) = Some tl.
Proof. reflexivity. Qed.

Lemma parse_elements_join (xs : list Value) :
  xs <> [] -> Forall reads_back xs ->
  forall fuel rest,
    (list_sum (map (fun x => S (size x)) xs) <= fuel)%nat ->
    parse_elements fuel (join "," (map serialize xs) ++ "]" ++ rest)
    = Some (xs, rest).
Proof.
  induction xs as [|x xs IH]; [contradiction|]. intros _ HF fuel rest Hfuel.
  inversion HF as [|? ? Hx Hxs]; subst.
  simpl in Hfuel. destruct fuel as [|f]; [lia|].
  rewrite parse_elements_S.
  destruct xs as [|y ys].
  - simpl join. rewrite (Hx f ("]" ++ rest)) by (simpl; first [lia | reflexivity]).
    reflexivity.
  - change (join "," (map serialize (x :: y :: ys)))
      with (serialize x ++ "," ++ join "," (map serialize (y :: ys))).
    rewrite !append_assoc.
    rewrite (Hx f) by (simpl in *; first [lia | reflexivity]).
    rewrite step_comma.
    rewrite IH; [reflexivity|discriminate|assumption|simpl in *; lia].
Qed.

Lemma parse_members_join (ps : list (string * Value)) :
  ps <> [] -> Forall (fun kv => reads_back (snd kv)) ps ->
  forall fuel rest,
    (list_sum (map (fun kv : string * Value => S (size (snd kv))) ps) <= fuel)%nat ->
    parse_members fuel (join "," (map member_text ps) ++ "}" ++ rest)
    = Some (ps, rest).
Proof.
  induction ps as [|[k x] ps IH]; [contradiction|]. intros _ HF fuel rest Hfuel.
  inversion HF as [|? ? Hx Hxs]; subst. simpl in Hx.
  simpl in Hfuel. destruct fuel as [|f]; [lia|].
  rewrite parse_members_S.
  destruct ps as [|y ys].
  - simpl join. unfold member_text, quote. simpl fst. simpl snd.
    change (String dquote (escape k ++ String dquote "") ++ ":" ++ serialize x)
      with (String dquote ((escape k ++ String dquote "") ++ ":" ++ serialize x)).
    change (String dquote ((escape k ++ String dquote "") ++ ":" ++ serialize x)
            ++ "}" ++ rest)
      with (String dquote (((escape k ++ String dquote "") ++ ":" ++ serialize x)
            ++ "}" ++ rest)).
    rewrite step_quote, !append_assoc.
    change (String dquote "" ++ ":" ++ serialize x ++ "}" ++ rest)
      with (String dquote (":" ++ serialize x ++ "}" ++ rest)).
    rewrite parse_escape, step_colon.
    rewrite (Hx f ("}" ++ rest)) by (simpl; first [lia | reflexivity]).
    reflexivity.
  - change (join "," (map member_text ((k, x) :: y :: ys)))
      with (member_text (k, x) ++ "," ++ join "," (map member_text (y :: ys))).
    unfold member_text at 1, quote. simpl fst. simpl snd.
    set (J := join "," (map member_text (y :: ys))).
    change (String dquote (escape k ++ String dquote "") ++ ":" ++ serialize x)
      with (String dquote ((escape k ++ String dquote "") ++ ":" ++ serialize x)).
    change ((String dquote ((escape k ++ String dquote "") ++ ":" ++ serialize x)
             ++ "," ++ J) ++ "}" ++ rest)
      with (String dquote ((((escape k ++ String dquote "") ++ ":" ++ serialize x)
             ++ "," ++ J) ++ "}" ++ rest)).
    rewrite step_quote, !append_assoc.
    change (String dquote "" ++ ":" ++ serialize x ++ "," ++ J ++ "}" ++ rest)
      with (String dquote (":" ++ serialize x ++ "," ++ J ++ "}" ++ rest)).
    rewrite parse_escape, step_colon.
    rewrite (Hx f) by (simpl in *; first [lia | reflexivity]).
    rewrite step_comma. subst J.
    rewrite IH; [reflexivity|discriminate|assumption|simpl in *; lia].
Qed.

Lemma members_of_json (ps : list (string * Value)) :
  forallb (fun kv => is_json (snd kv)) ps = true ->
  omap (fun kv : string * Value =>
          let '(k, x) := kv in
          if is_undefined x then None else Some (quote k ++ ":" ++ serialize x)) ps
  = map member_text ps.
Proof.
  induction ps as [|[k x] ps IH]; [reflexivity|].
  intros Hj. simpl in Hj. apply andb_prop in Hj as [Hx Hps].
  specialize (IH Hps).
  match goal with |- omap ?F _ = _ => set (G := F) in * end.
  change (omap G ((k, x) :: ps))
    with (match G (k, x) with Some y => y :: omap G ps | None => omap G ps end).
  rewrite IH. subst G. cbv beta iota.
  destruct x; try discriminate; reflexivity.
Qed.

Lemma parse_serialize (v : Value) : is_json v = true -> reads_back v.
Proof.
  induction v as [| |b|n|s|xs IH|ps IH] using Value_ind';
    intros Hj fuel rest Hfuel Hrest;
    (destruct fuel as [|f]; [simpl in Hfuel; lia|]).
  - discriminate.
  - apply parse_value_null.
  - destruct b; [apply parse_value_true | apply parse_value_false].
  - change (serialize (Number n)) with (number_toString n).
    destruct (number_toString_head n) as (c & t & E & Hc).
    pose proof (parse_number_toString n rest (delimited_number_end _ Hrest)) as T.
    rewrite E in T |- *.
    change (String c t ++ rest) with (String c (t ++ rest)) in T |- *.
    rewrite parse_value_number by assumption. now rewrite T.
  - change (serialize (Str s) ++ rest)
      with (String dquote ((escape s ++ String dquote "") ++ rest)).
    rewrite parse_value_string, append_assoc.
    change (String dquote "" ++ rest) with (String dquote rest).
    now rewrite parse_escape.
  - change (serialize (Array xs) ++ rest)
      with (String "[" ((join "," (map serialize xs) ++ "]") ++ rest)).
    rewrite parse_value_array.
    assert (Hall : Forall reads_back xs).
    { change (forallb is_json xs = true) in Hj.
      rewrite forallb_forall in Hj.
      rewrite Forall_forall in IH |- *. intros y Hy.
      apply IH; [assumption|]. apply Hj. now apply list_elem_of_In. }
    destruct xs as [|x xs].
    + reflexivity.
    + assert (Hskip : skip_ws (join "," (map serialize (x :: xs)) ++ "]" ++ rest)
                      = join "," (map serialize (x :: xs)) ++ "]" ++ rest).
      { destruct xs; simpl join; rewrite ?append_assoc; apply skip_ws_value. }
      assert (Hclose : expect "]" (join "," (map serialize (x :: xs)) ++ "]" ++ rest)
                       = None).
      { destruct xs; simpl join; rewrite ?append_assoc; apply expect_close_value. }
      rewrite append_assoc. change ("]" ++ rest) with (String "]" rest) in *.
      rewrite Hskip, Hclose.
      change (String "]" rest) with ("]" ++ rest).
      rewrite parse_elements_join;
        [reflexivity|discriminate|assumption|simpl in *; lia].
  - simpl in Hj.
    change (serialize (Object ps) ++ rest)
      with (String "{" ((join ","
              (omap (fun kv : string * Value =>
                       let '(k, x) := kv in
                       if is_undefined x then None
                       else Some (quote k ++ ":" ++ serialize x)) ps) ++ "}")
              ++ rest)).
    rewrite members_of_json by assumption.
    rewrite parse_value_object.
    assert (Hall : Forall (fun kv => reads_back (snd kv)) ps).
    { rewrite forallb_forall in Hj.
      rewrite Forall_forall in IH |- *. intros y Hy.
      apply IH; [assumption|]. apply Hj. now apply list_elem_of_In. }
    destruct ps as [|[k x] ps].
    + reflexivity.
    + rewrite append_assoc.
      assert (Hopen : exists t, join "," (map member_text ((k, x) :: ps))
                                ++ "}" ++ rest = String dquote t).
      { destruct ps; simpl join; unfold member_text at 1, quote; simpl; eauto. }
      destruct Hopen as [t Ht].
      assert (Hskip : skip_ws (String dquote t) = String dquote t) by reflexivity.
      assert (Hclose : expect "}" (String dquote t) = None) by reflexivity.
      rewrite Ht, Hskip, Hclose, <- Ht.
      rewrite parse_members_join;
        [reflexivity|discriminate|assumption|simpl in *; lia].
Qed.

(** ** The text is long enough to pay for the recursion *)

Lemma sum_le_join {A : Type} (f : A -> nat) (g : A -> string) (l : list A) :
  Forall (fun a => (f a <= String.length (g a))%nat) l ->
  (list_sum (map (fun a => S (f a)) l)
   <= S (String.length (join "," (map g l))))%nat.
Proof.
  induction l as [|a l IH]; intros HF; [simpl; lia|].
  inversion HF as [|? ? Ha Hl]; subst. specialize (IH Hl).
  destruct l as [|b l].
  - simpl. lia.
  - change (join "," (map g (a :: b :: l)))
      with (g a ++ "," ++ join "," (map g (b :: l))).
    rewrite !length_append.
    change (list_sum (map (fun a => S (f a)) (a :: b :: l)))
      with (S (f a) + list_sum (map (fun a => S (f a)) (b :: l)))%nat.
    change (String.length ",") with 1%nat. lia.
Qed.

Lemma size_le_length (v : Value) :
  is_json v = true -> (size v <= String.length (serialize v))%nat.
Proof.
  assert (Hscalar : forall u, size u = 1%nat ->
                              (size u <= String.length (serialize u))%nat).
  { intros u ->. destruct (serialize_head u) as (c & t & -> & _). simpl. lia. }
  induction v as [| |b|n|s|xs IH|ps IH] using Value_ind'; intros Hj;
    try (apply Hscalar; reflexivity).
  - change (forallb is_json xs = true) in Hj.
    change (serialize (Array xs))
      with (String "[" (join "," (map serialize xs) ++ "]")).
    change (size (Array xs)) with (S (list_sum (map (fun x => S (size x)) xs))).
    simpl String.length. rewrite length_append.
    pose proof (sum_le_join size serialize xs) as T.
    assert (HF : Forall (fun a => (size a <= String.length (serialize a))%nat) xs).
    { rewrite forallb_forall in Hj. rewrite Forall_forall in IH |- *.
      intros y Hy. apply IH; [assumption|]. apply Hj. now apply list_elem_of_In. }
    specialize (T HF). change (String.length "]") with 1%nat. lia.
  - simpl in Hj.
    change (serialize (Object ps))
      with (String "{" (join ","
              (omap (fun kv : string * Value =>
                       let '(k, x) := kv in
                       if is_undefined x then None
                       else Some (quote k ++ ":" ++ serialize x)) ps) ++ "}")).
    rewrite members_of_json by assumption.
    change (size (Object ps))
      with (S (list_sum (map (fun kv : string * Value => S (size (snd kv))) ps))).
    simpl String.length. rewrite length_append.
    pose proof (sum_le_join (fun kv : string * Value => size (snd kv))
                  member_text ps) as T.
    assert (HF : Forall (fun kv : string * Value =>
                           (size (snd kv) <= String.length (member_text kv))%nat) ps).
    { rewrite forallb_forall in Hj. rewrite Forall_forall in IH |- *.
      intros y Hy. unfold member_text. rewrite !length_append.
      assert (size (snd y) <= String.length (serialize (snd y)))%nat; [|lia].
      apply IH; [assumption|]. apply Hj. now apply list_elem_of_In. }
    specialize (T HF). change (String.length "}") with 1%nat. lia.
Qed.

(** [JSON.parse] reads a serialized JSON value back. *)
Lemma parse_stringify_json (v : Value) :
  is_json v = true -> parse (stringify v) = inr v.
Proof.
  intros Hj. unfold parse, stringify.
  pose proof (parse_serialize v Hj (S (String.length (serialize v))) "") as T.
  rewrite append_nil_r in T. rewrite T; [reflexivity| |reflexivity].
  pose proof (size_le_length v Hj). lia.
Qed.

(** ** Values with [undefined] inside *)

Lemma normalize_not_undefined (v : Value) : is_undefined (normalize v) = false.
Proof. now destruct v. Qed.

Lemma omap_cons {A C : Type} (f : A -> option C) (a : A) (l : list A) :
  omap f (a :: l) = match f a with Some y => y :: omap f l | None => omap f l end.
Proof. reflexivity. Qed.

Lemma is_json_defined (v : Value) : is_json v = true -> is_undefined v = false.
Proof. now destruct v. Qed.

Lemma serialize_normalize (v : Value) : serialize (normalize v) = serialize v.
Proof.
  induction v as [| |b|n|s|xs IH|ps IH] using Value_ind'; try reflexivity.
  - change (serialize (normalize (Array xs)))
      with ("[" ++ join "," (map serialize (map normalize xs)) ++ "]").
    change (serialize (Array xs)) with ("[" ++ join "," (map serialize xs) ++ "]").
    do 3 f_equal. induction IH as [|x xs Hx _ IHxs]; [reflexivity|].
    simpl. now rewrite Hx, IHxs.
  - cbn [normalize serialize]. do 3 f_equal.
    induction IH as [|[k x] ps Hx _ IHps]; [reflexivity|].
    rewrite (omap_cons _ (k, x) ps). cbv beta iota. simpl in Hx.
    destruct (is_undefined x) eqn:Hu.
    + rewrite IHps. rewrite (omap_cons _ (k, x) ps). cbv beta iota.
      now rewrite Hu.
    + rewrite !omap_cons. cbv beta iota.
      now rewrite normalize_not_undefined, Hu, Hx, IHps.
Qed.

Lemma normalize_is_json (v : Value) : is_json (normalize v) = true.
Proof.
  induction v as [| |b|n|s|xs IH|ps IH] using Value_ind'; try reflexivity.
  - cbn [normalize is_json]. induction IH as [|x xs Hx _ IHxs]; [reflexivity|].
    simpl. now rewrite Hx, IHxs.
  - cbn [normalize is_json]. induction IH as [|[k x] ps Hx _ IHps]; [reflexivity|].
    rewrite omap_cons. cbv beta iota. simpl in Hx.
    destruct (is_undefined x); [exact IHps|].
    simpl. now rewrite Hx, IHps.
Qed.

Lemma normalize_json (v : Value) : is_json v = true -> normalize v = v.
Proof.
  induction v as [| |b|n|s|xs IH|ps IH] using Value_ind'; try reflexivity.
  - discriminate.
  - cbn [normalize is_json]. intros Hj. f_equal. revert Hj.
    induction IH as [|x xs Hx _ IHxs]; [reflexivity|].
    simpl. intros Hj. apply andb_prop in Hj as [H1 H2].
    now rewrite Hx, IHxs.
  - cbn [normalize is_json]. intros Hj. f_equal. revert Hj.
    induction IH as [|[k x] ps Hx _ IHps]; [reflexivity|].
    simpl forallb. intros Hj. apply andb_prop in Hj as [H1 H2].
    rewrite omap_cons. cbv beta iota. simpl in H1, Hx.
    now rewrite (is_json_defined x H1), Hx, IHps.
Qed.

(** [JSON.parse(JSON.stringify(v))] is [v] with every [undefined] array
    element turned into [null] and every [undefined] property dropped. *)
Lemma parse_stringify (v : Value) : parse (stringify v) = inr (normalize v).
Proof.
  unfold stringify. rewrite <- serialize_normalize.
  apply parse_stringify_json, normalize_is_json.
Qed.

Lemma stringify_truthy (v : Value) : stringify v <> "".
Proof.
  unfold stringify. destruct (serialize_head v) as (c & t & -> & _). discriminate.
Qed.
End JSONFacts.

(* ===================================================================== *)
(** * Key builder *)
(* ===================================================================== *)

Section KeyBuilderFacts.
Import CacheKeyBuilder Spec.

Lemma number_toString_inj (n m : Z) :
  Js.number_toString n = Js.number_toString m -> n = m.
Proof.
  unfold Js.number_toString. intros E.
  apply DecimalZ.to_int_inj.
  assert (Hn : forall z, NilZero.int_of_string (NilZero.string_of_int (Z.to_int z))
                         = Some (Z.to_int z)).
  { intros z. apply NilZero.isi; destruct z; simpl; try discriminate;
      intros [= Hp]; revert Hp; apply DecimalPos.Unsigned.to_uint_nonnil. }
  pose proof (Hn n) as H1. pose proof (Hn m) as H2.
  rewrite E in H1. rewrite H1 in H2. now injection H2.
Qed.

Lemma split_at_colon (r1 r2 s1 s2 : string) :
  no_colon r1 = true -> no_colon r2 = true ->
  r1 ++ ":" ++ s1 = r2 ++ ":" ++ s2 -> r1 = r2 /\ s1 = s2.
Proof.
  change (":" ++ s1) with (String ":" s1).
  change (":" ++ s2) with (String ":" s2).
  revert r2. induction r1 as [|c r1 IH]; intros [|d r2] H1 H2 E; simpl in *.
  - injection E as ->. auto.
  - injection E as <- _. discriminate.
  - injection E as -> _. discriminate.
  - injection E as -> E.
    apply andb_prop in H1 as [_ H1]. apply andb_prop in H2 as [_ H2].
    destruct (IH r2 H1 H2 E) as [-> ->]. auto.
Qed.

Lemma identifier_toString_same_kind (i j : Identifier) :
  same_kind i j = true ->
  identifier_toString i = identifier_toString j -> i = j.
Proof.
  destruct i, j; simpl; try discriminate; intros _ E.
  - now subst.
  - f_equal. now apply number_toString_inj.
Qed.
End KeyBuilderFacts.

(** C8.  Omitted [page] and [limit] default to 1 and 10 before the key is
    built: for every resource, [buildList(resource)],
    [buildList(resource, {})] and [buildList(resource, {page: 1, limit: 10})]
    are the same key, and each of the two defaults applies on its own. *)
Theorem buildList_defaults (resource : string) :
  let explicit := Some {| CacheKeyBuilder.page := Some 1;
                          CacheKeyBuilder.limit := Some 10 |} in
  CacheKeyBuilder.buildList resource
    (Some {| CacheKeyBuilder.page := None; CacheKeyBuilder.limit := None |})
  = CacheKeyBuilder.buildList resource explicit
  /\ CacheKeyBuilder.buildList resource None
     = CacheKeyBuilder.buildList resource explicit
  /\ (forall l, CacheKeyBuilder.buildList resource
         (Some {| CacheKeyBuilder.page := None; CacheKeyBuilder.limit := Some l |})
       = CacheKeyBuilder.buildList resource
         (Some {| CacheKeyBuilder.page := Some 1; CacheKeyBuilder.limit := Some l |}))
  /\ (forall p, CacheKeyBuilder.buildList resource
         (Some {| CacheKeyBuilder.page := Some p; CacheKeyBuilder.limit := None |})
       = CacheKeyBuilder.buildList resource
         (Some {| CacheKeyBuilder.page := Some p; CacheKeyBuilder.limit := Some 10 |})).
Proof. cbv zeta. repeat split; reflexivity. Qed.

(** C7, as stated, fails: [build] is not injective.  A resource that
    contains the separator collides with a shorter resource, and a numeric
    identifier collides with the string of its digits. *)
Lemma build_collisions :
  ~ (forall r1 i1 r2 i2,
        (r1, i1) <> (r2, i2) ->
        CacheKeyBuilder.build r1 i1 <> CacheKeyBuilder.build r2 i2).
Proof.
  intros H.
  apply (H "a:b" (CacheKeyBuilder.IdString "c") "a" (CacheKeyBuilder.IdString "b:c")).
  - discriminate.
  - reflexivity.
Qed.

(** C7, amended.  [build] is a function of its two arguments, and for
    resources that do not contain [:] it is injective up to the string form
    of the identifier: equal keys force equal resources and identifiers
    that print alike, hence equal identifiers when both are strings or
    both are numbers. *)
Theorem build_injective_without_separator
    (r1 r2 : string) (i1 i2 : CacheKeyBuilder.Identifier) :
  Spec.no_colon r1 = true -> Spec.no_colon r2 = true ->
  ((r1, i1) = (r2, i2) -> CacheKeyBuilder.build r1 i1 = CacheKeyBuilder.build r2 i2)
  /\ (CacheKeyBuilder.build r1 i1 = CacheKeyBuilder.build r2 i2 ->
      r1 = r2
      /\ CacheKeyBuilder.identifier_toString i1 = CacheKeyBuilder.identifier_toString i2
      /\ (Spec.same_kind i1 i2 = true -> i1 = i2)).
Proof.
  intros H1 H2. split.
  - now intros [= -> ->].
  - unfold CacheKeyBuilder.build, CacheKeyBuilder.NAMESPACE, CacheKeyBuilder.VERSION.
    simpl. intros [= E].
    destruct (split_at_colon _ _ _ _ H1 H2 E) as [-> Hs].
    repeat split; auto.
    intros Hk. now apply identifier_toString_same_kind.
Qed.

Lemma build_injective_without_separator_witness :
  "user" = "user"
  /\ CacheKeyBuilder.identifier_toString (CacheKeyBuilder.IdNumber 7)
     = CacheKeyBuilder.identifier_toString (CacheKeyBuilder.IdString "7")
  /\ (Spec.same_kind (CacheKeyBuilder.IdNumber 7) (CacheKeyBuilder.IdString "7") = true ->
      CacheKeyBuilder.IdNumber 7 = CacheKeyBuilder.IdString "7").
Proof.
  apply (build_injective_without_separator "user" "user"
           (CacheKeyBuilder.IdNumber 7) (CacheKeyBuilder.IdString "7"));
    reflexivity.
Defined.

(* ===================================================================== *)
(** * The resilient client *)
(* ===================================================================== *)

Ltac unfold_monad :=
  unfold Runtime.bind, Runtime.ret, Runtime.throw, Runtime.try_catch,
    Runtime.settle, Runtime.call in *.

Ltac unfold_redis :=
  unfold RedisService.get, RedisService.set, RedisService.del,
    RedisService.keys, RedisService.isHealthy in *;
  unfold_monad.

Section RedisServiceFacts.
Import Runtime Spec.
Context {B D : Type} `{RedisClient B}.
Implicit Type w : World B D.

Lemma events_since_app w (evs : list Event) r m d :
  events_since w (mkWorld r m d (trace w ++ evs)) = evs.
Proof. unfold events_since. simpl. apply drop_app_length. Qed.

Lemma events_since_refl w : events_since w w = [].
Proof. unfold events_since. apply drop_all. Qed.

Lemma get_unhealthy w key :
  isConnected (redis w) = false -> RedisService.get key w = (Ret None, w).
Proof. intros Hc. unfold_redis. now rewrite Hc. Qed.

Lemma get_healthy w key :
  isConnected (redis w) = true ->
  RedisService.get key w =
    (match fst (ioredis_get key (client (redis w))) with
     | Ret v => Ret v
     | Throw _ => Ret None
     end,
     after_call (GET key) (snd (ioredis_get key (client (redis w)))) w).
Proof.
  intros Hc. unfold_redis. rewrite Hc. simpl.
  destruct (ioredis_get key (client (redis w))) as [[v|e] b']; reflexivity.
Qed.

Lemma set_unhealthy w key value ttl :
  isConnected (redis w) = false -> RedisService.set key value ttl w = (Ret tt, w).
Proof. intros Hc. unfold_redis. now rewrite Hc. Qed.

Lemma set_healthy_setex w key value seconds :
  isConnected (redis w) = true -> seconds <> 0 ->
  RedisService.set key value (Some seconds) w =
    (Ret tt, after_call (SETEX key seconds value)
               (snd (ioredis_setex key seconds value (client (redis w)))) w).
Proof.
  intros Hc Hs. unfold_redis. rewrite Hc. simpl.
  destruct (Z.eqb_spec seconds 0) as [|_]; [contradiction|]. simpl.
  destruct (ioredis_setex key seconds value (client (redis w))) as [[[]|e] b'];
    reflexivity.
Qed.

Lemma set_healthy_plain w key value ttl :
  isConnected (redis w) = true -> ttl = None \/ ttl = Some 0 ->
  RedisService.set key value ttl w =
    (Ret tt, after_call (SET key value)
               (snd (ioredis_set key value (client (redis w)))) w).
Proof.
  intros Hc Ht. unfold_redis. rewrite Hc. simpl.
  destruct Ht as [-> | ->]; simpl;
    destruct (ioredis_set key value (client (redis w))) as [[[]|e] b'];
    reflexivity.
Qed.

Lemma del_unhealthy w k :
  isConnected (redis w) = false -> RedisService.del k w = (Ret tt, w).
Proof. intros Hc. unfold_redis. now rewrite Hc. Qed.

Lemma del_healthy w k :
  isConnected (redis w) = true ->
  let ks := match k with inl key => [key] | inr keys => keys end in
  RedisService.del k w =
    (Ret tt, after_call (DEL ks) (snd (ioredis_del ks (client (redis w)))) w).
Proof.
  intros Hc. unfold_redis. rewrite Hc. simpl.
  destruct k as [key|keys]; simpl;
    match goal with
    | |- context [ioredis_del ?l ?b] =>
        destruct (ioredis_del l b) as [[n|e] b']; reflexivity
    end.
Qed.

Lemma keys_unhealthy w p :
  isConnected (redis w) = false -> RedisService.keys p w = (Ret [], w).
Proof. intros Hc. unfold_redis. now rewrite Hc. Qed.

Lemma keys_healthy w p :
  isConnected (redis w) = true ->
  RedisService.keys p w =
    (match fst (ioredis_keys p (client (redis w))) with
     | Ret ks => Ret ks
     | Throw _ => Ret []
     end,
     after_call (KEYS p) (snd (ioredis_keys p (client (redis w)))) w).
Proof.
  intros Hc. unfold_redis. rewrite Hc. simpl.
  destruct (ioredis_keys p (client (redis w))) as [[v|e] b']; reflexivity.
Qed.

Lemma set_resolves w key value ttl :
  exists w', RedisService.set key value ttl w = (Ret tt, w').
Proof.
  destruct (isConnected (redis w)) eqn:Hc.
  - destruct ttl as [seconds|].
    + destruct (Z.eq_dec seconds 0) as [->|Hs].
      * rewrite set_healthy_plain by auto. eauto.
      * rewrite set_healthy_setex by auto. eauto.
    + rewrite set_healthy_plain by auto. eauto.
  - rewrite set_unhealthy by auto. eauto.
Qed.
End RedisServiceFacts.

(** C3.  [get], [set], [del] and [keys] resolve in every world, whatever
    the raw client does.  While the health flag is false each of them
    returns its fallback and leaves the world as it was (no call reaches
    the raw client, the trace is unchanged).  While it is true and the
    underlying call rejects, [get] resolves with [null], [set] and [del]
    resolve with nothing, and [keys] resolves with the empty list. *)
Theorem redis_service_never_propagates {B D : Type} `{Runtime.RedisClient B} :
  (forall key, Spec.never_throws (B:=B) (D:=D) (RedisService.get key))
  /\ (forall key value ttl,
        Spec.never_throws (B:=B) (D:=D) (RedisService.set key value ttl))
  /\ (forall k, Spec.never_throws (B:=B) (D:=D) (RedisService.del k))
  /\ (forall p, Spec.never_throws (B:=B) (D:=D) (RedisService.keys p))
  /\ (forall w : Runtime.World B D,
        Runtime.isConnected (Runtime.redis w) = false ->
        (forall key, RedisService.get key w = (Js.Ret None, w))
        /\ (forall key value ttl, RedisService.set key value ttl w = (Js.Ret tt, w))
        /\ (forall k, RedisService.del k w = (Js.Ret tt, w))
        /\ (forall p, RedisService.keys p w = (Js.Ret [], w)))
  /\ (forall (w : Runtime.World B D) (e : Js.Exn),
        Runtime.isConnected (Runtime.redis w) = true ->
        let b := Runtime.client (Runtime.redis w) in
        (forall key, fst (Runtime.ioredis_get key b) = Js.Throw e ->
                     fst (RedisService.get key w) = Js.Ret None)
        /\ (forall key value seconds,
              seconds <> 0 ->
              fst (Runtime.ioredis_setex key seconds value b) = Js.Throw e ->
              fst (RedisService.set key value (Some seconds) w) = Js.Ret tt)
        /\ (forall key value,
              fst (Runtime.ioredis_set key value b) = Js.Throw e ->
              fst (RedisService.set key value None w) = Js.Ret tt)
        /\ (forall key, fst (Runtime.ioredis_del [key] b) = Js.Throw e ->
                        fst (RedisService.del (inl key) w) = Js.Ret tt)
        /\ (forall keys, fst (Runtime.ioredis_del keys b) = Js.Throw e ->
                         fst (RedisService.del (inr keys) w) = Js.Ret tt)
        /\ (forall p, fst (Runtime.ioredis_keys p b) = Js.Throw e ->
                      fst (RedisService.keys p w) = Js.Ret [])).
Proof.
  repeat apply conj.
  - intros key w. destruct (Runtime.isConnected (Runtime.redis w)) eqn:Hc.
    + rewrite get_healthy by auto.
      destruct (fst (Runtime.ioredis_get key _)); eauto.
    + rewrite get_unhealthy by auto. eauto.
  - intros key value ttl w. destruct (set_resolves w key value ttl) as [w' ->]. eauto.
  - intros k w. destruct (Runtime.isConnected (Runtime.redis w)) eqn:Hc.
    + rewrite del_healthy by auto. eauto.
    + rewrite del_unhealthy by auto. eauto.
  - intros p w. destruct (Runtime.isConnected (Runtime.redis w)) eqn:Hc.
    + rewrite keys_healthy by auto.
      destruct (fst (Runtime.ioredis_keys p _)); eauto.
    + rewrite keys_unhealthy by auto. eauto.
  - intros w Hc. repeat apply conj; intros.
    + now apply get_unhealthy.
    + now apply set_unhealthy.
    + now apply del_unhealthy.
    + now apply keys_unhealthy.
  - intros w e Hc b. subst b. repeat apply conj; intros.
    + rewrite get_healthy by auto. simpl. now rewrite H0.
    + now rewrite set_healthy_setex by auto.
    + now rewrite set_healthy_plain by auto.
    + now rewrite (del_healthy w (inl key)) by auto.
    + now rewrite (del_healthy w (inr keys)) by auto.
    + rewrite keys_healthy by auto. simpl. now rewrite H0.
Qed.

Lemma redis_service_never_propagates_witness :
  fst (RedisService.get "app:v1:user:42"
         (Scenario.world (RedisModel.down RedisModel.empty) true tt)) = Js.Ret None.
Proof.
  pose proof (@redis_service_never_propagates RedisModel.t unit _) as T.
  destruct T as (_ & _ & _ & _ & _ & T).
  destruct (T (Scenario.world (RedisModel.down RedisModel.empty) true tt)
              (Js.ConnectionError "Connection is closed.") eq_refl) as (G & _).
  apply G. reflexivity.
Defined.

(* ===================================================================== *)
(** * The metrics service *)
(* ===================================================================== *)

Ltac unfold_metrics :=
  unfold MetricsController.getCacheMetrics, MetricsController.resetMetrics,
    CacheMetricsService.getMetrics, CacheMetricsService.resetMetrics,
    CacheMetricsService.getMemoryUsage, CacheMetricsService.Promise_all2 in *;
  unfold_monad.

(** C10.  [getMetrics] and [resetMetrics] call the raw client whatever the
    health flag says, and nothing catches what the raw client throws: a
    rejection of [INFO stats], [DBSIZE], [INFO memory] or
    [CONFIG RESETSTAT] is the rejection of the operation (and a failed
    reset leaves the process-local counters as they were). *)
Theorem metrics_operations_propagate {B D : Type} `{Runtime.RedisClient B}
    (w : Runtime.World B D) (e : Js.Exn) :
  let b := Runtime.client (Runtime.redis w) in
  (fst (Runtime.ioredis_info "stats" b) = Js.Throw e ->
   fst (CacheMetricsService.getMetrics w) = Js.Throw e)
  /\ (forall info b1,
        Runtime.ioredis_info "stats" b = (Js.Ret info, b1) ->
        fst (Runtime.ioredis_dbsize b1) = Js.Throw e ->
        fst (CacheMetricsService.getMetrics w) = Js.Throw e)
  /\ (forall info b1 n b2,
        Runtime.ioredis_info "stats" b = (Js.Ret info, b1) ->
        Runtime.ioredis_dbsize b1 = (Js.Ret n, b2) ->
        fst (Runtime.ioredis_info "memory" b2) = Js.Throw e ->
        fst (CacheMetricsService.getMetrics w) = Js.Throw e)
  /\ (fst (Runtime.ioredis_config "RESETSTAT" b) = Js.Throw e ->
      fst (CacheMetricsService.resetMetrics w) = Js.Throw e
      /\ Runtime.metrics (snd (CacheMetricsService.resetMetrics w)) = Runtime.metrics w)
  /\ (forall flag,
        fst (CacheMetricsService.getMetrics (Spec.with_connected flag w))
        = fst (CacheMetricsService.getMetrics w)
        /\ fst (CacheMetricsService.resetMetrics (Spec.with_connected flag w))
           = fst (CacheMetricsService.resetMetrics w))
  /\ take 2 (Runtime.events_since w (snd (CacheMetricsService.getMetrics w)))
     = [Runtime.RedisCall (Runtime.INFO "stats"); Runtime.RedisCall Runtime.DBSIZE]
  /\ Runtime.events_since w (snd (CacheMetricsService.resetMetrics w))
     = [Runtime.RedisCall (Runtime.CONFIG "RESETSTAT")].
Proof.
  intros b. subst b. unfold Spec.with_connected, Runtime.events_since.
  destruct w as [[b c] m d tr]. simpl.
  repeat apply conj.
  - intros E. unfold_metrics. simpl.
    destruct (Runtime.ioredis_info "stats" b) as [[info|e1] b1]; simpl in *;
      [discriminate|].
    destruct (Runtime.ioredis_dbsize b1) as [[n|e2] b2]; simpl; congruence.
  - intros info b1 E1 E2. unfold_metrics. simpl. rewrite E1. simpl.
    destruct (Runtime.ioredis_dbsize b1) as [[n|e2] b2]; simpl in *; congruence.
  - intros info b1 n b2 E1 E2 E3. unfold_metrics. simpl. rewrite E1. simpl.
    rewrite E2. simpl.
    destruct (Runtime.ioredis_info "memory" b2) as [[mem|e3] b3]; simpl in *;
      congruence.
  - intros E. unfold_metrics. simpl.
    destruct (Runtime.ioredis_config "RESETSTAT" b) as [[[]|e1] b1]; simpl in *;
      [discriminate|]. split; congruence.
  - intros flag. unfold_metrics. simpl. split.
    + destruct (Runtime.ioredis_info "stats" b) as [[info|e1] b1]; simpl;
        destruct (Runtime.ioredis_dbsize b1) as [[n|e2] b2]; simpl; try reflexivity.
      destruct (Runtime.ioredis_info "memory" b2) as [[mem|e3] b3]; reflexivity.
    + destruct (Runtime.ioredis_config "RESETSTAT" b) as [[[]|e1] b1]; reflexivity.
  - unfold_metrics. simpl.
    destruct (Runtime.ioredis_info "stats" b) as [[info|e1] b1]; simpl;
      destruct (Runtime.ioredis_dbsize b1) as [[n|e2] b2]; simpl;
      try destruct (Runtime.ioredis_info "memory" b2) as [[mem|e3] b3]; simpl;
      rewrite <- ?app_assoc; rewrite drop_app_length; reflexivity.
  - unfold_metrics. simpl.
    destruct (Runtime.ioredis_config "RESETSTAT" b) as [[[]|e1] b1]; simpl;
      rewrite drop_app_length; reflexivity.
Qed.

Lemma metrics_operations_propagate_witness :
  fst (CacheMetricsService.getMetrics
         (Scenario.world (RedisModel.down RedisModel.empty) false tt))
  = Js.Throw (Js.ConnectionError "Connection is closed.")
  /\ fst (CacheMetricsService.resetMetrics
            (Scenario.world (RedisModel.down RedisModel.empty) false tt))
     = Js.Throw (Js.ConnectionError "Connection is closed.").
Proof.
  pose proof (metrics_operations_propagate
                (Scenario.world (RedisModel.down RedisModel.empty) false tt)
                (Js.ConnectionError "Connection is closed.")) as T.
  cbv zeta in T. destruct T as (T1 & _ & _ & T4 & _).
  split; [apply T1; reflexivity | apply T4; reflexivity].
Defined.

(* ===================================================================== *)
(** * The interceptor, over any platform and any backend *)
(* ===================================================================== *)

Section InterceptorFacts.
Import Runtime Spec CacheInterceptor.
Context {V : Type} `{JsPlatform V} {B D : Type} `{RedisClient B}.
Implicit Type w : World B D.

Lemma get_world key w :
  snd (RedisService.get key w) =
    if isConnected (redis w)
    then after_call (GET key) (snd (ioredis_get key (client (redis w)))) w
    else w.
Proof.
  destruct (isConnected (redis w)) eqn:Hc.
  - now rewrite get_healthy.
  - now rewrite get_unhealthy.
Qed.

Lemma get_result key w :
  fst (RedisService.get key w) =
    if isConnected (redis w)
    then match fst (ioredis_get key (client (redis w))) with
         | Ret v => Ret v
         | Throw _ => Ret None
         end
    else Ret None.
Proof.
  destruct (isConnected (redis w)) eqn:Hc.
  - now rewrite get_healthy.
  - now rewrite get_unhealthy.
Qed.

Lemma set_world key value seconds w :
  snd (RedisService.set key value (Some seconds) w) =
    if isConnected (redis w)
    then if (seconds =? 0)%Z
         then after_call (SET key value)
                (snd (ioredis_set key value (client (redis w)))) w
         else after_call (SETEX key seconds value)
                (snd (ioredis_setex key seconds value (client (redis w)))) w
    else w.
Proof.
  destruct (isConnected (redis w)) eqn:Hc.
  - destruct (Z.eqb_spec seconds 0) as [->|Hs].
    + now rewrite set_healthy_plain by auto.
    + now rewrite set_healthy_setex by auto.
  - now rewrite set_unhealthy.
Qed.

Lemma intercept_unbound req next w :
  intercept None req next w = (fst (next (db w)), after_handler next w).
Proof.
  unfold intercept, handle, after_handler. now destruct (next (db w)).
Qed.

(** A truthy string came back: the payload is parsed and the handler is
    left alone. *)
Lemma intercept_hit cfg req next w s :
  fst (RedisService.get (cache_key cfg req) w) = Ret (Some s) -> s <> "" ->
  intercept (Some cfg) req next w =
    (match JSON_parse s with inl e => Throw e | inr v => Ret v end,
     snd (RedisService.get (cache_key cfg req) w)).
Proof.
  unfold cache_key. intros Hg Hs. unfold intercept, bind.
  destruct (RedisService.get _ w) as [[o|e] w1]; simpl in *; [|discriminate].
  injection Hg as ->. simpl.
  destruct (String.eqb_spec s "") as [|_]; [contradiction|]. simpl.
  unfold of_parsed, throw, ret. now destruct (JSON_parse s).
Qed.

(** Nothing usable came back: the handler runs, and a truthy result is
    written behind it. *)
Lemma intercept_miss cfg req next w o :
  fst (RedisService.get (cache_key cfg req) w) = Ret o -> truthy_str o = false ->
  intercept (Some cfg) req next w =
    let w1 := snd (RedisService.get (cache_key cfg req) w) in
    let w2 := after_handler next w1 in
    match fst (next (db w1)) with
    | Throw e => (Throw e, w2)
    | Ret data =>
        (Ret data,
         if truthy data
         then snd (RedisService.set (cache_key cfg req) (JSON_stringify data)
                     (Some (ttl cfg)) w2)
         else w2)
    end.
Proof.
  unfold cache_key. intros Hg Ho. unfold intercept, bind.
  destruct (RedisService.get _ w) as [[o'|e] w1]; simpl in *; [|discriminate].
  injection Hg as ->. rewrite Ho.
  unfold tap, handle, after_handler, bind, settle, ret.
  destruct (next (db w1)) as [[data|e] d']; simpl; [|reflexivity].
  destruct (truthy data); [|reflexivity].
  now destruct (RedisService.set _ _ _ _).
Qed.

Lemma get_resolves key w : exists o, fst (RedisService.get key w) = Ret o.
Proof.
  rewrite get_result. destruct (isConnected (redis w)); eauto.
  destruct (fst (ioredis_get key _)); eauto.
Qed.

(** No path of the interceptor reaches [recordHit] or [recordMiss]. *)
Lemma intercept_keeps_local_counters cacheConfig req next w :
  metrics (snd (intercept cacheConfig req next w)) = metrics w.
Proof.
  destruct cacheConfig as [cfg|]; [|now rewrite intercept_unbound].
  destruct (get_resolves (cache_key cfg req) w) as [o Ho].
  destruct (truthy_str o) eqn:Ht.
  - destruct o as [s|]; [|discriminate]. simpl in Ht.
    rewrite (intercept_hit _ _ _ _ s Ho).
    + simpl. rewrite get_world. now destruct (isConnected (redis w)).
    + intros ->. discriminate.
  - rewrite (intercept_miss _ _ _ _ o Ho Ht). cbv zeta.
    assert (Hm : metrics (snd (RedisService.get (cache_key cfg req) w)) = metrics w).
    { rewrite get_world. now destruct (isConnected (redis w)). }
    destruct (fst (next _)) as [data|e]; simpl; [|exact Hm].
    destruct (truthy data); [|exact Hm].
    rewrite set_world. simpl.
    destruct (isConnected (redis _)); [|exact Hm].
    now destruct (ttl cfg =? 0)%Z.
Qed.

(** A payload that does not parse is thrown at the caller, and the
    handler is not consulted. *)
Lemma intercept_unparsable_hit cfg req next w s e :
  fst (RedisService.get (cache_key cfg req) w) = Ret (Some s) -> s <> "" ->
  JSON_parse s = inl e ->
  fst (intercept (Some cfg) req next w) = Throw e
  /\ handler_called w (snd (intercept (Some cfg) req next w)) = false.
Proof.
  intros Hg Hs Hp. rewrite (intercept_hit _ _ _ _ s Hg Hs), Hp. simpl.
  split; [reflexivity|].
  unfold handler_called. rewrite get_world.
  destruct (isConnected (redis w)).
  - unfold after_call. now rewrite events_since_app.
  - now rewrite events_since_refl.
Qed.
End InterceptorFacts.

Section InterceptorTraces.
Import Runtime Spec CacheInterceptor.
Context {V : Type} `{JsPlatform V} {B D : Type} `{RedisClient B}.
Implicit Type w : World B D.

Lemma get_frame key w :
  let w1 := snd (RedisService.get key w) in
  metrics w1 = metrics w /\ db w1 = db w
  /\ isConnected (redis w1) = isConnected (redis w)
  /\ trace w1 = (trace w ++ if isConnected (redis w) then [RedisCall (GET key)] else [])%list.
Proof.
  cbv zeta. rewrite get_world. destruct (isConnected (redis w)) eqn:Hc; simpl.
  - auto.
  - rewrite Hc, app_nil_r. auto.
Qed.

Lemma events_since_trace w w' (evs : list Event) :
  trace w' = (trace w ++ evs)%list -> events_since w w' = evs.
Proof. intros E. unfold events_since. rewrite E. apply drop_app_length. Qed.

Lemma intercept_hit_frame cfg req next w s :
  fst (RedisService.get (cache_key cfg req) w) = Ret (Some s) -> s <> "" ->
  let w' := snd (intercept (Some cfg) req next w) in
  events_since w w' = [RedisCall (GET (cache_key cfg req))]
  /\ handler_called w w' = false /\ db w' = db w.
Proof.
  intros Hg Hs. cbv zeta. rewrite (intercept_hit _ _ _ _ s Hg Hs). simpl.
  destruct (get_frame (cache_key cfg req) w) as (_ & Hd & _ & Ht).
  rewrite get_result in Hg.
  destruct (isConnected (redis w)); [|discriminate].
  unfold handler_called. rewrite (events_since_trace _ _ _ Ht). auto.
Qed.

Lemma intercept_miss_events cfg req next w o :
  fst (RedisService.get (cache_key cfg req) w) = Ret o -> truthy_str o = false ->
  let w' := snd (intercept (Some cfg) req next w) in
  events_since w w'
  = miss_events (isConnected (redis w)) cfg (cache_key cfg req) (fst (next (db w)))
  /\ handler_called w w' = true.
Proof.
  intros Hg Ho. cbv zeta. rewrite (intercept_miss _ _ _ _ o Hg Ho). cbv zeta.
  destruct (get_frame (cache_key cfg req) w) as (_ & Hd & Hc & Ht).
  set (w1 := snd (RedisService.get (cache_key cfg req) w)) in *.
  assert (E : trace (snd (match fst (next (db w1)) with
               | Throw e => (Throw e, after_handler next w1)
               | Ret data =>
                   (Ret data,
                    if truthy data
                    then snd (RedisService.set (cache_key cfg req)
                                (JSON_stringify data) (Some (ttl cfg))
                                (after_handler next w1))
                    else after_handler next w1)
               end))
            = (trace w ++ miss_events (isConnected (redis w)) cfg
                            (cache_key cfg req) (fst (next (db w))))%list).
  { unfold miss_events. rewrite Hd.
    destruct (fst (next (db w))) as [data|e]; simpl.
    - destruct (truthy data); simpl.
      + rewrite set_world. simpl. rewrite Hc.
        destruct (isConnected (redis w)); simpl.
        * destruct (ttl cfg =? 0)%Z; simpl; rewrite Ht, <- !app_assoc; reflexivity.
        * rewrite Ht, <- !app_assoc. reflexivity.
      + rewrite Ht, <- !app_assoc. rewrite ?app_nil_r. reflexivity.
    - rewrite Ht, <- !app_assoc. rewrite ?app_nil_r. reflexivity. }
  unfold handler_called. rewrite (events_since_trace _ _ _ E).
  split; [reflexivity|].
  unfold miss_events. rewrite !existsb_app. simpl. now rewrite orb_true_r.
Qed.
End InterceptorTraces.

(* ===================================================================== *)
(** * The interceptor in front of the reference server *)
(* ===================================================================== *)

Section ModelFacts.
Import Runtime Spec CacheInterceptor.
Context {V : Type} `{JsPlatform V} {D : Type}.
Implicit Type w : World RedisModel.t D.

Lemma model_get_result key w :
  fst (RedisService.get key w) =
    Ret (if isConnected (redis w) && RedisModel.up (client (redis w))
         then cached key w else None).
Proof.
  rewrite get_result. unfold cached.
  destruct (isConnected (redis w)); [|reflexivity]. simpl.
  unfold RedisModel.get, RedisModel.unreachable.
  destruct (RedisModel.up (client (redis w))); [|reflexivity].
  now destruct (RedisModel.lookup_live key (client (redis w))).
Qed.

Lemma model_get_client key w :
  client (redis (snd (RedisService.get key w))) =
    if isConnected (redis w) && RedisModel.up (client (redis w))
    then match cached key w with
         | Some _ => RedisModel.count_hit (client (redis w))
         | None => RedisModel.count_miss (client (redis w))
         end
    else client (redis w).
Proof.
  rewrite get_world. unfold cached.
  destruct (isConnected (redis w)); [|reflexivity]. simpl.
  unfold RedisModel.get, RedisModel.unreachable.
  destruct (RedisModel.up (client (redis w))); [|reflexivity].
  now destruct (RedisModel.lookup_live key (client (redis w))).
Qed.

(** A [GET] changes the counters of the server and nothing else. *)
Lemma model_get_stable key w :
  let r := client (redis w) in
  let r' := client (redis (snd (RedisService.get key w))) in
  RedisModel.up r' = RedisModel.up r
  /\ RedisModel.store r' = RedisModel.store r
  /\ RedisModel.now r' = RedisModel.now r.
Proof.
  cbv zeta. rewrite model_get_client.
  destruct (isConnected (redis w) && RedisModel.up (client (redis w))); auto.
  destruct (cached key w); auto.
Qed.

Lemma model_set_client key value seconds w :
  (0 < seconds)%Z ->
  client (redis (snd (RedisService.set key value (Some seconds) w))) =
    if isConnected (redis w) && RedisModel.up (client (redis w))
    then RedisModel.with_store (client (redis w))
           (<[key := RedisModel.mkEntry value
                       (Some (RedisModel.now (client (redis w)) + seconds))]>
              (RedisModel.store (client (redis w))))
    else client (redis w).
Proof.
  intros Hs. rewrite set_world.
  destruct (isConnected (redis w)); [|reflexivity]. simpl.
  destruct (Z.eqb_spec seconds 0) as [|_]; [lia|]. simpl.
  unfold RedisModel.setex, RedisModel.unreachable.
  destruct (RedisModel.up (client (redis w))); [|reflexivity].
  destruct (Z.leb_spec seconds 0); [lia|reflexivity].
Qed.

(** Writes leave the counters, the clock and the switch alone. *)
Lemma model_set_counters key value seconds w :
  let r := client (redis w) in
  let r' := client (redis (snd (RedisService.set key value (Some seconds) w))) in
  RedisModel.keyspace_hits r' = RedisModel.keyspace_hits r
  /\ RedisModel.keyspace_misses r' = RedisModel.keyspace_misses r
  /\ RedisModel.up r' = RedisModel.up r
  /\ (isConnected (redis w) = false -> r' = r).
Proof.
  cbv zeta. rewrite set_world.
  destruct (isConnected (redis w)); [|auto]. simpl.
  unfold RedisModel.set, RedisModel.setex, RedisModel.unreachable.
  destruct (seconds =? 0)%Z; simpl;
    destruct (RedisModel.up (client (redis w))) eqn:Hup; simpl;
    try destruct (seconds <=? 0)%Z; simpl; repeat split; auto; discriminate.
Qed.

Lemma live_after_setex key value seconds w :
  (0 < seconds)%Z ->
  isConnected (redis w) = true -> RedisModel.up (client (redis w)) = true ->
  cached key (snd (RedisService.set key value (Some seconds) w)) = Some value.
Proof.
  intros Hs Hc Hup. unfold cached. rewrite model_set_client by assumption.
  rewrite Hc, Hup. simpl. unfold RedisModel.lookup_live. simpl.
  rewrite lookup_insert_eq. unfold RedisModel.live. simpl.
  destruct (Z.ltb_spec (RedisModel.now (client (redis w)))
              (RedisModel.now (client (redis w)) + seconds)); [reflexivity|lia].
Qed.

End ModelFacts.

Section SetFrame.
Import Runtime Spec.
Context {B D : Type} `{RedisClient B}.

Lemma set_frame key value seconds (w : World B D) :
  let w1 := snd (RedisService.set key value (Some seconds) w) in
  metrics w1 = metrics w /\ db w1 = db w
  /\ isConnected (redis w1) = isConnected (redis w).
Proof.
  cbv zeta. rewrite set_world. destruct (isConnected (redis w)) eqn:Hc; simpl.
  - destruct (seconds =? 0)%Z; simpl; auto.
  - auto.
Qed.
End SetFrame.

(** C4.  A result that the interceptor caches on a miss (a truthy result,
    on a healthy and reachable server, under a positive TTL) is stored as
    [JSON.stringify(data)], and [JSON.parse] reads that payload back as
    [data] up to what serialization keeps: the value read back serializes
    to the same text, and it is [data] itself when [data] is made of JSON
    values only.  An immediately following request for the same key is
    therefore answered with that value, whatever handler is behind it: the
    handler is not invoked and the data store is not touched. *)
Theorem cached_result_is_served_back {D : Type}
    (cfg : CacheInterceptor.CacheConfig) (req : CacheInterceptor.Request)
    (next : D -> Js.Outcome Js.Value * D)
    (w : Runtime.World RedisModel.t D) (data : Js.Value) :
  Runtime.isConnected (Runtime.redis w) = true ->
  RedisModel.up (Runtime.client (Runtime.redis w)) = true ->
  (0 < CacheInterceptor.ttl cfg)%Z ->
  Spec.cached (Spec.cache_key cfg req) w = None ->
  fst (next (Runtime.db w)) = Js.Ret data ->
  Js.truthy data = true ->
  let key := Spec.cache_key cfg req in
  let w1 := snd (CacheInterceptor.intercept (Some cfg) req next w) in
  fst (CacheInterceptor.intercept (Some cfg) req next w) = Js.Ret data
  /\ Spec.cached key w1 = Some (JSON.stringify data)
  /\ JSON.parse (JSON.stringify data) = inr (JSON.normalize data)
  /\ JSON.stringify (JSON.normalize data) = JSON.stringify data
  /\ (JSON.is_json data = true -> JSON.normalize data = data)
  /\ (forall next2 : D -> Js.Outcome Js.Value * D,
        let w2 := snd (CacheInterceptor.intercept (Some cfg) req next2 w1) in
        fst (CacheInterceptor.intercept (Some cfg) req next2 w1)
        = Js.Ret (JSON.normalize data)
        /\ Spec.handler_called w1 w2 = false
        /\ Runtime.db w2 = Runtime.db w1).
Proof.
  intros Hc Hup Httl Hmiss Hn Ht. cbv zeta.
  set (key := Spec.cache_key cfg req) in *.
  pose proof (model_get_result key w) as Hg.
  rewrite Hc, Hup, Hmiss in Hg. simpl in Hg.
  destruct (get_frame (B:=RedisModel.t) key w) as (_ & Hd & Hc1 & _).
  destruct (model_get_stable key w) as (Hup1 & Hst1 & Hnow1).
  pose proof (intercept_miss cfg req next w None Hg eq_refl) as Hrun.
  cbv zeta in Hrun. fold key in Hrun. rewrite Hd, Hn in Hrun.
  set (wh := Spec.after_handler next (snd (RedisService.get key w))) in *.
  set (payload := JSON.stringify data).
  assert (Hw1 : snd (CacheInterceptor.intercept (Some cfg) req next w)
                = snd (RedisService.set key payload
                         (Some (CacheInterceptor.ttl cfg)) wh)).
  { rewrite Hrun. simpl. now rewrite Ht. }
  assert (Hch : Runtime.isConnected (Runtime.redis wh) = true)
    by (unfold wh; simpl; congruence).
  assert (Huh : RedisModel.up (Runtime.client (Runtime.redis wh)) = true)
    by (unfold wh; simpl; congruence).
  assert (Hcached : Spec.cached key
            (snd (CacheInterceptor.intercept (Some cfg) req next w)) = Some payload).
  { rewrite Hw1. now apply live_after_setex. }
  split; [now rewrite Hrun|].
  split; [exact Hcached|].
  split; [apply parse_stringify|].
  split; [apply serialize_normalize|].
  split; [apply normalize_json|].
  intros next2.
  set (w1 := snd (CacheInterceptor.intercept (Some cfg) req next w)) in *.
  assert (Hc2 : Runtime.isConnected (Runtime.redis w1) = true).
  { rewrite Hw1.
    destruct (set_frame key payload (CacheInterceptor.ttl cfg) wh) as (_ & _ & ->).
    exact Hch. }
  assert (Hu2 : RedisModel.up (Runtime.client (Runtime.redis w1)) = true).
  { rewrite Hw1.
    destruct (model_set_counters key payload (CacheInterceptor.ttl cfg) wh)
      as (_ & _ & -> & _).
    exact Huh. }
  pose proof (model_get_result key w1) as Hg2.
  rewrite Hc2, Hu2, Hcached in Hg2. simpl in Hg2.
  assert (Hp : payload <> "") by apply stringify_truthy.
  rewrite (intercept_hit cfg req next2 w1 payload Hg2 Hp).
  destruct (intercept_hit_frame cfg req next2 w1 payload Hg2 Hp) as (_ & Hh & Hdb).
  rewrite (intercept_hit cfg req next2 w1 payload Hg2 Hp) in Hh, Hdb.
  simpl. unfold payload. rewrite parse_stringify. auto.
Qed.

Lemma cached_result_is_served_back_witness :
  fst (CacheInterceptor.intercept (Some UsersController.findOne_policy)
         (Scenario.request_user "42")
         (Scenario.rejects (Js.HandlerError "the data store is gone"))
         (snd (CacheInterceptor.intercept (Some UsersController.findOne_policy)
                 (Scenario.request_user "42") (Scenario.resolves Scenario.ann)
                 (Scenario.world RedisModel.empty true tt))))
  = Js.Ret Scenario.ann.
Proof.
  pose proof (cached_result_is_served_back
                UsersController.findOne_policy (Scenario.request_user "42")
                (Scenario.resolves Scenario.ann)
                (Scenario.world RedisModel.empty true tt) Scenario.ann
                eq_refl eq_refl eq_refl eq_refl eq_refl eq_refl) as T.
  cbv zeta in T. destruct T as (_ & _ & _ & _ & _ & T).
  destruct (T (Scenario.rejects (Js.HandlerError "the data store is gone")))
    as (E & _).
  exact E.
Defined.

(** C5.  On a miss against a healthy, reachable server and under a policy
    with a positive TTL: when the handler resolves with an empty array or
    an empty object, the interceptor answers with it and sends
    [SETEX key ttl payload] with the serialized result, after which the
    server holds that payload under the derived key, expiring [ttl]
    seconds from now; when the handler resolves with [null] or
    [undefined], the interceptor answers with it, sends no write at all
    and the store is as before. *)
Theorem populate_empty_collection_but_not_null {D : Type}
    (cfg : CacheInterceptor.CacheConfig) (req : CacheInterceptor.Request)
    (next : D -> Js.Outcome Js.Value * D)
    (w : Runtime.World RedisModel.t D) (data : Js.Value) :
  Runtime.isConnected (Runtime.redis w) = true ->
  RedisModel.up (Runtime.client (Runtime.redis w)) = true ->
  (0 < CacheInterceptor.ttl cfg)%Z ->
  Spec.cached (Spec.cache_key cfg req) w = None ->
  fst (next (Runtime.db w)) = Js.Ret data ->
  let key := Spec.cache_key cfg req in
  let r := Runtime.client (Runtime.redis w) in
  let w' := snd (CacheInterceptor.intercept (Some cfg) req next w) in
  fst (CacheInterceptor.intercept (Some cfg) req next w) = Js.Ret data
  /\ (data = Js.Array [] \/ data = Js.Object [] ->
      Runtime.events_since w w'
      = [Runtime.RedisCall (Runtime.GET key); Runtime.HandlerCall;
         Runtime.RedisCall
           (Runtime.SETEX key (CacheInterceptor.ttl cfg) (JSON.stringify data))]
      /\ RedisModel.store (Runtime.client (Runtime.redis w')) !! key
         = Some (RedisModel.mkEntry (JSON.stringify data)
                   (Some (RedisModel.now r + CacheInterceptor.ttl cfg)%Z))
      /\ Spec.cached key w' = Some (JSON.stringify data))
  /\ (data = Js.Null \/ data = Js.Undefined ->
      Runtime.events_since w w'
      = [Runtime.RedisCall (Runtime.GET key); Runtime.HandlerCall]
      /\ Spec.wrote w w' = false
      /\ RedisModel.store (Runtime.client (Runtime.redis w')) = RedisModel.store r).
Proof.
  intros Hc Hup Httl Hmiss Hn. cbv zeta.
  set (key := Spec.cache_key cfg req) in *.
  set (w' := snd (CacheInterceptor.intercept (Some cfg) req next w)).
  pose proof (model_get_result key w) as Hg.
  rewrite Hc, Hup, Hmiss in Hg. simpl in Hg.
  destruct (get_frame (B:=RedisModel.t) key w) as (_ & Hd & Hc1 & _).
  destruct (model_get_stable key w) as (Hup1 & Hst1 & Hnow1).
  destruct (intercept_miss_events cfg req next w None Hg eq_refl) as (Hev & _).
  fold key w' in Hev. rewrite Hc, Hn in Hev.
  pose proof (intercept_miss cfg req next w None Hg eq_refl) as Hrun.
  cbv zeta in Hrun. fold key in Hrun. rewrite Hd, Hn in Hrun.
  assert (Hne : (CacheInterceptor.ttl cfg =? 0)%Z = false) by (apply Z.eqb_neq; lia).
  split; [unfold w' in *; now rewrite Hrun|].
  split.
  - intros Hdata.
    assert (Ht : Js.truthy data = true) by (destruct Hdata as [-> | ->]; reflexivity).
    unfold Spec.miss_events in Hev. simpl in Hev. rewrite Ht, Hne in Hev. simpl in Hev.
    split; [exact Hev|].
    assert (Hw' : w' = snd (RedisService.set key (JSON.stringify data)
                              (Some (CacheInterceptor.ttl cfg))
                              (Spec.after_handler next (snd (RedisService.get key w))))).
    { unfold w'. rewrite Hrun. simpl. now rewrite Ht. }
    split.
    + rewrite Hw'. rewrite model_set_client by assumption.
      simpl. rewrite Hc1, Hc, Hup1, Hup. simpl.
      rewrite lookup_insert_eq, Hnow1. reflexivity.
    + rewrite Hw'. apply live_after_setex; simpl; congruence.
  - intros Hdata.
    assert (Ht : Js.truthy data = false) by (destruct Hdata as [-> | ->]; reflexivity).
    unfold Spec.miss_events in Hev. simpl in Hev. rewrite Ht in Hev. simpl in Hev.
    split; [exact Hev|]. split.
    + unfold Spec.wrote. now rewrite Hev.
    + unfold w'. rewrite Hrun. simpl. rewrite Ht. simpl. exact Hst1.
Qed.

Lemma populate_empty_collection_but_not_null_witness :
  Runtime.events_since (Scenario.world RedisModel.empty true tt)
    (snd (CacheInterceptor.intercept (Some UsersController.findOne_policy)
            (Scenario.request_user "42") (Scenario.resolves (Js.Array []))
            (Scenario.world RedisModel.empty true tt)))
  = [Runtime.RedisCall (Runtime.GET "app:v1:user:42"); Runtime.HandlerCall;
     Runtime.RedisCall (Runtime.SETEX "app:v1:user:42" 300 "[]")].
Proof.
  pose proof (populate_empty_collection_but_not_null
                UsersController.findOne_policy (Scenario.request_user "42")
                (Scenario.resolves (Js.Array []))
                (Scenario.world RedisModel.empty true tt) (Js.Array [])
                eq_refl eq_refl eq_refl eq_refl eq_refl) as T.
  cbv zeta in T. destruct T as (_ & T & _).
  destruct (T (or_introl eq_refl)) as (E & _). exact E.
Defined.

(** C6, as stated, fails for the empty result: an empty array is truthy,
    so it is written to the cache, and the request that follows is served
    from the cache without the handler. *)
Lemma empty_result_is_cached :
  ~ (forall (w : Runtime.World RedisModel.t unit)
            (cfg : CacheInterceptor.CacheConfig) (req : CacheInterceptor.Request)
            (next : unit -> Js.Outcome Js.Value * unit) (data : Js.Value),
        let w1 := snd (CacheInterceptor.intercept (Some cfg) req next w) in
        fst (CacheInterceptor.intercept (Some cfg) req next w) = Js.Ret data ->
        Spec.handler_called w w1 = true ->
        data = Js.Array [] \/ data = Js.Null ->
        Spec.wrote w w1 = false
        /\ Spec.handler_called w1
             (snd (CacheInterceptor.intercept (Some cfg) req next w1)) = true).
Proof.
  intros C.
  specialize (C (Scenario.world RedisModel.empty true tt)
                UsersController.findOne_policy (Scenario.request_user "42")
                (Scenario.resolves (Js.Array [])) (Js.Array [])
                eq_refl eq_refl (or_introl eq_refl)).
  destruct C as [C _]. vm_compute in C. discriminate.
Qed.

(** C6, amended.  When the handler ran and resolved with a falsy result
    ([null], [undefined], [false], [0] or the empty string), the
    interceptor sends no write and the store of the server is as before,
    and the next request for the same key reaches the handler again.  An
    empty array or object is truthy and is cached like any other result. *)
Theorem falsy_result_is_not_cached {D : Type}
    (cfg : CacheInterceptor.CacheConfig) (req : CacheInterceptor.Request)
    (next : D -> Js.Outcome Js.Value * D)
    (w : Runtime.World RedisModel.t D) (data : Js.Value) :
  let w1 := snd (CacheInterceptor.intercept (Some cfg) req next w) in
  fst (CacheInterceptor.intercept (Some cfg) req next w) = Js.Ret data ->
  Spec.handler_called w w1 = true ->
  Js.truthy data = false ->
  Spec.wrote w w1 = false
  /\ RedisModel.store (Runtime.client (Runtime.redis w1))
     = RedisModel.store (Runtime.client (Runtime.redis w))
  /\ (forall next2 : D -> Js.Outcome Js.Value * D,
        Spec.handler_called w1
          (snd (CacheInterceptor.intercept (Some cfg) req next2 w1)) = true)
  /\ Js.truthy (Js.Array []) = true /\ Js.truthy (Js.Object []) = true.
Proof.
  cbv zeta. intros Hr Hh Ht.
  set (key := Spec.cache_key cfg req).
  pose proof (model_get_result key w) as Hg.
  set (o := if Runtime.isConnected (Runtime.redis w)
                 && RedisModel.up (Runtime.client (Runtime.redis w))
            then Spec.cached key w else None) in *.
  destruct (Js.truthy_str o) eqn:Ho.
  { destruct o as [s|]; [|discriminate].
    assert (Hs : s <> "") by (intros ->; discriminate).
    destruct (intercept_hit_frame cfg req next w s Hg Hs) as (_ & Hno & _).
    congruence. }
  destruct (get_frame (B:=RedisModel.t) key w) as (_ & Hd & Hc1 & _).
  destruct (model_get_stable key w) as (Hup1 & Hst1 & Hnow1).
  destruct (intercept_miss_events cfg req next w o Hg Ho) as (Hev & _).
  pose proof (intercept_miss cfg req next w o Hg Ho) as Hrun.
  cbv zeta in Hrun. fold key in Hrun, Hev. rewrite Hd in Hrun.
  rewrite Hrun in Hr.
  destruct (fst (next (Runtime.db w))) as [data'|e] eqn:Hn; [|discriminate].
  simpl in Hr. injection Hr as ->.
  change (Runtime.truthy data) with (Js.truthy data) in Hrun.
  rewrite Ht in Hrun.
  set (w1 := Spec.after_handler next (snd (RedisService.get key w))) in *.
  rewrite Hrun in *. simpl snd in *.
  split.
  { unfold Spec.wrote. rewrite Hev. unfold Spec.miss_events.
    change (Runtime.truthy data) with (Js.truthy data). rewrite Ht. simpl.
    now destruct (Runtime.isConnected (Runtime.redis w)). }
  split; [exact Hst1|].
  split; [|split; reflexivity].
  intros next2.
  pose proof (model_get_result key w1) as Hg2.
  assert (Ho2 : (if Runtime.isConnected (Runtime.redis w1)
                      && RedisModel.up (Runtime.client (Runtime.redis w1))
                 then Spec.cached key w1 else None) = o).
  { unfold o, w1, Spec.cached, RedisModel.lookup_live. simpl.
    now rewrite Hc1, Hup1, Hst1, Hnow1. }
  rewrite Ho2 in Hg2.
  now destruct (intercept_miss_events cfg req next2 w1 o Hg2 Ho).
Qed.

Lemma falsy_result_is_not_cached_witness :
  Spec.handler_called
    (snd (CacheInterceptor.intercept (Some UsersController.findOne_policy)
            (Scenario.request_user "42") (Scenario.resolves Js.Null)
            (Scenario.world RedisModel.empty true tt)))
    (snd (CacheInterceptor.intercept (Some UsersController.findOne_policy)
            (Scenario.request_user "42") (Scenario.resolves Js.Null)
            (snd (CacheInterceptor.intercept (Some UsersController.findOne_policy)
                    (Scenario.request_user "42") (Scenario.resolves Js.Null)
                    (Scenario.world RedisModel.empty true tt)))))
  = true.
Proof.
  pose proof (falsy_result_is_not_cached
                UsersController.findOne_policy (Scenario.request_user "42")
                (Scenario.resolves Js.Null)
                (Scenario.world RedisModel.empty true tt) Js.Null
                eq_refl eq_refl eq_refl) as T.
  destruct T as (_ & _ & T & _). apply T.
Defined.

(** C1 at a failing input.  The server holds the corrupt payload [{] under
    the key of user 42.  The request is answered with the [SyntaxError] of
    [JSON.parse] and the handler is never invoked, whereas with the key
    absent the same request is answered by the handler. *)
Theorem corrupt_payload_reaches_the_caller :
  let w := Scenario.world Scenario.corrupt_server true tt in
  let run := CacheInterceptor.intercept (Some UsersController.findOne_policy)
               (Scenario.request_user "42") (Scenario.resolves Scenario.ann) in
  Spec.cached "app:v1:user:42" w = Some "{"
  /\ JSON.parse "{" = inl (Js.SyntaxError "Unexpected token in JSON")
  /\ fst (run w) = Js.Throw (Js.SyntaxError "Unexpected token in JSON")
  /\ Spec.handler_called w (snd (run w)) = false
  /\ fst (run (Scenario.world RedisModel.empty true tt)) = Js.Ret Scenario.ann.
Proof. vm_compute. repeat split. Qed.

(** C2, as stated, fails: the interceptor never feeds the Metrics
    Collector.  After a hit the process-local hit counter is what it was,
    and on a miss taken while the client is unhealthy neither the
    process-local miss counter nor the counters of the server move. *)
Lemma interceptor_records_nothing :
  ~ (forall (w : Runtime.World RedisModel.t unit)
            (cfg : CacheInterceptor.CacheConfig) (req : CacheInterceptor.Request)
            (next : unit -> Js.Outcome Js.Value * unit),
        let key := Spec.cache_key cfg req in
        let w' := snd (CacheInterceptor.intercept (Some cfg) req next w) in
        (forall s, fst (RedisService.get key w) = Js.Ret (Some s) ->
           (exists v, JSON.parse s = inr v
                      /\ fst (CacheInterceptor.intercept (Some cfg) req next w) = Js.Ret v)
           /\ Spec.handler_called w w' = false
           /\ Runtime.hits (Runtime.metrics w') = Runtime.hits (Runtime.metrics w) + 1)
        /\ (fst (RedisService.get key w) = Js.Ret None ->
            Runtime.misses (Runtime.metrics w') = Runtime.misses (Runtime.metrics w) + 1)).
Proof.
  intros C.
  specialize (C (Scenario.world Scenario.warm_server true tt)
                UsersController.findOne_policy (Scenario.request_user "42")
                (Scenario.resolves Scenario.ann)).
  cbv zeta in C. destruct C as [C _].
  destruct (C (JSON.stringify Scenario.ann) eq_refl) as (_ & _ & C').
  vm_compute in C'. discriminate.
Qed.

(** C2, amended.  For every request whose handler has a policy bound:
    the process-local counters of the Metrics Collector are the same
    after the request as before; when the lookup returns a non-empty
    string that deserializes, the response is the deserialized value, the
    handler is not invoked, the data store is untouched, and the server
    counted one more keyspace hit; when the lookup returns absent, the
    handler is invoked, and the server counted one more keyspace miss if
    the client was healthy and the server reachable, while nothing is
    counted anywhere if the client was unhealthy. *)
Theorem hits_and_misses_are_counted_by_the_server
    {V : Type} `{Runtime.JsPlatform V} {D : Type}
    (cfg : CacheInterceptor.CacheConfig) (req : CacheInterceptor.Request)
    (next : D -> Js.Outcome V * D) (w : Runtime.World RedisModel.t D) :
  let key := Spec.cache_key cfg req in
  let r := Runtime.client (Runtime.redis w) in
  let w' := snd (CacheInterceptor.intercept (Some cfg) req next w) in
  let r' := Runtime.client (Runtime.redis w') in
  Runtime.metrics w' = Runtime.metrics w
  /\ (forall s v,
        fst (RedisService.get key w) = Js.Ret (Some s) -> s <> "" ->
        Runtime.JSON_parse s = inr v ->
        fst (CacheInterceptor.intercept (Some cfg) req next w) = Js.Ret v
        /\ Spec.handler_called w w' = false
        /\ Runtime.db w' = Runtime.db w
        /\ RedisModel.keyspace_hits r' = (RedisModel.keyspace_hits r + 1)%N
        /\ RedisModel.keyspace_misses r' = RedisModel.keyspace_misses r)
  /\ (fst (RedisService.get key w) = Js.Ret None ->
      Spec.handler_called w w' = true
      /\ (Runtime.isConnected (Runtime.redis w) = true ->
          RedisModel.up r = true ->
          RedisModel.keyspace_misses r' = (RedisModel.keyspace_misses r + 1)%N
          /\ RedisModel.keyspace_hits r' = RedisModel.keyspace_hits r)
      /\ (Runtime.isConnected (Runtime.redis w) = false -> r' = r)).
Proof.
  cbv zeta. set (key := Spec.cache_key cfg req).
  split; [apply intercept_keeps_local_counters|]. split.
  - intros s v Hg Hs Hp.
    destruct (intercept_hit_frame cfg req next w s Hg Hs) as (_ & Hh & Hd).
    rewrite (intercept_hit cfg req next w s Hg Hs) in *. rewrite Hp.
    simpl in *. repeat split; auto;
      fold key in Hg |- *; rewrite model_get_client;
      rewrite model_get_result in Hg;
      destruct (Runtime.isConnected (Runtime.redis w)
                && RedisModel.up (Runtime.client (Runtime.redis w)));
      try discriminate; injection Hg as Hg; unfold Spec.cached in *;
      rewrite Hg; reflexivity.
  - intros Hg.
    destruct (intercept_miss_events cfg req next w None Hg eq_refl) as (_ & Hh).
    split; [exact Hh|].
    pose proof (intercept_miss cfg req next w None Hg eq_refl) as Hrun.
    cbv zeta in Hrun. fold key in Hrun, Hg.
    set (wh := Spec.after_handler next (snd (RedisService.get key w))) in *.
    assert (Hwh : Runtime.client (Runtime.redis wh)
                  = Runtime.client (Runtime.redis (snd (RedisService.get key w))))
      by reflexivity.
    destruct (get_frame (B:=RedisModel.t) key w) as (_ & _ & Hc1 & _).
    assert (Hch : Runtime.isConnected (Runtime.redis wh)
                  = Runtime.isConnected (Runtime.redis w)) by exact Hc1.
    assert (Hclient : Runtime.client (Runtime.redis
                        (snd (CacheInterceptor.intercept (Some cfg) req next w)))
                      = Runtime.client (Runtime.redis wh)
                      \/ exists data,
                           Runtime.client (Runtime.redis
                             (snd (CacheInterceptor.intercept (Some cfg) req next w)))
                           = Runtime.client (Runtime.redis
                               (snd (RedisService.set key (Runtime.JSON_stringify data)
                                       (Some (CacheInterceptor.ttl cfg)) wh)))).
    { rewrite Hrun. destruct (fst (next _)) as [data|e]; simpl; [|auto].
      destruct (Runtime.truthy data); eauto. }
    split.
    + intros Hc Hup.
      assert (Hm : Runtime.client (Runtime.redis wh)
                   = RedisModel.count_miss (Runtime.client (Runtime.redis w))).
      { rewrite Hwh, model_get_client. rewrite model_get_result in Hg.
        rewrite Hc, Hup in *. simpl in *. injection Hg as ->. reflexivity. }
      destruct Hclient as [-> | [data ->]].
      * rewrite Hm. auto.
      * destruct (model_set_counters key (Runtime.JSON_stringify data)
                    (CacheInterceptor.ttl cfg) wh) as (-> & -> & _).
        rewrite Hm. auto.
    + intros Hc.
      assert (Hm : Runtime.client (Runtime.redis wh) = Runtime.client (Runtime.redis w)).
      { rewrite Hwh, model_get_client. now rewrite Hc. }
      destruct Hclient as [-> | [data ->]]; [exact Hm|].
      destruct (model_set_counters key (Runtime.JSON_stringify data)
                  (CacheInterceptor.ttl cfg) wh) as (_ & _ & _ & ->); congruence.
Qed.

Lemma hits_and_misses_are_counted_by_the_server_witness :
  let w := Scenario.world Scenario.warm_server true tt in
  let w' := snd (CacheInterceptor.intercept (Some UsersController.findOne_policy)
                   (Scenario.request_user "42") (Scenario.resolves Scenario.ann) w) in
  Runtime.metrics w' = Runtime.metrics w
  /\ RedisModel.keyspace_hits (Runtime.client (Runtime.redis w')) = 1%N.
Proof.
  pose proof (hits_and_misses_are_counted_by_the_server
                UsersController.findOne_policy (Scenario.request_user "42")
                (Scenario.resolves Scenario.ann)
                (Scenario.world Scenario.warm_server true tt)) as T.
  cbv zeta in T |- *. destruct T as (T1 & T2 & _).
  split; [exact T1|].
  destruct (T2 (JSON.stringify Scenario.ann) Scenario.ann eq_refl) as (_ & _ & _ & E & _).
  - discriminate.
  - reflexivity.
  - exact E.
Defined.

(* ===================================================================== *)
(** * JavaScript numbers: rounding to the nearest double *)
(* ===================================================================== *)

Section DoubleFacts.
Import Double.
Local Open Scope Q_scope.

Lemma pow2_pos (e : Z) : 0 < 2 ^ e.
Proof. apply Qpower_0_lt. reflexivity. Qed.

Lemma pow2_succ (e : Z) : 2 ^ (e + 1) == 2 * 2 ^ e.
Proof. rewrite Qpower_plus by discriminate. rewrite Qpower_1_r. ring. Qed.

Lemma pow2_le (n m : Z) : (n <= m)%Z -> 2 ^ n <= 2 ^ m.
Proof. intros. apply Qpower_le_compat_l; [assumption|]. discriminate. Qed.

Lemma pow2_lt (n m : Z) : (n < m)%Z -> 2 ^ n < 2 ^ m.
Proof. intros. apply Qpower_lt_compat_l; [assumption|]. reflexivity. Qed.

Lemma pow2_Z (n : Z) : (0 <= n)%Z -> inject_Z (2 ^ n) == 2 ^ n.
Proof. intros. now rewrite Zpower_Qpower. Qed.

Lemma pow2_div (n m : Z) : 2 ^ (n - m) == 2 ^ n / 2 ^ m.
Proof. apply Qpower_minus. discriminate. Qed.

(** [ilog2 a] is the exponent of the binade of [a]. *)
Lemma ilog2_spec (a : Q) : 0 < a -> 2 ^ ilog2 a <= a /\ a < 2 ^ (ilog2 a + 1).
Proof.
  intros Ha. unfold ilog2. cbv zeta.
  destruct a as [n d]. simpl Qnum. simpl Qden.
  assert (Hn : (0 < n)%Z).
  { unfold Qlt in Ha. simpl in Ha. lia. }
  destruct (Z.log2_spec n Hn) as [Hn1 Hn2].
  destruct (Z.log2_spec (Zpos d) (Pos2Z.is_pos d)) as [Hd1 Hd2].
  pose proof (Z.log2_nonneg n) as Ln. pose proof (Z.log2_nonneg (Zpos d)) as Ld.
  set (ln := Z.log2 n) in *. set (ld := Z.log2 (Zpos d)) in *.
  assert (E : n # d == inject_Z n / inject_Z (Zpos d)) by apply Qmake_Qdiv.
  assert (Dpos : 0 < inject_Z (Zpos d)).
  { change 0 with (inject_Z 0). rewrite <- Zlt_Qlt. lia. }
  assert (Qn1 : 2 ^ ln <= inject_Z n).
  { rewrite <- pow2_Z by lia. now rewrite <- Zle_Qle. }
  assert (Qn2 : inject_Z n < 2 ^ (ln + 1)).
  { rewrite <- pow2_Z by lia. rewrite <- Zlt_Qlt. now rewrite <- Z.add_1_r in Hn2. }
  assert (Qd1 : 2 ^ ld <= inject_Z (Zpos d)).
  { rewrite <- pow2_Z by lia. now rewrite <- Zle_Qle. }
  assert (Qd2 : inject_Z (Zpos d) < 2 ^ (ld + 1)).
  { rewrite <- pow2_Z by lia. rewrite <- Zlt_Qlt. now rewrite <- Z.add_1_r in Hd2. }
  assert (P1 : 0 < 2 ^ ln) by apply pow2_pos.
  assert (P2 : 0 < 2 ^ ld) by apply pow2_pos.
  assert (Up : n # d < 2 ^ (ln - ld + 1)).
  { rewrite E. replace (ln - ld + 1)%Z with (ln + 1 - ld)%Z by lia.
    rewrite pow2_div, pow2_succ in *.
    apply Qlt_shift_div_l; [exact P2|].
    unfold Qdiv. rewrite (Qmult_comm (inject_Z n)), <- Qmult_assoc, Qmult_comm.
    apply Qlt_shift_div_r; [exact Dpos|]. nra. }
  assert (Lo : 2 ^ (ln - ld - 1) <= n # d).
  { rewrite E. replace (ln - ld - 1)%Z with (ln - (ld + 1))%Z by lia.
    rewrite pow2_div, pow2_succ in *.
    apply Qle_shift_div_l; [exact Dpos|].
    unfold Qdiv. rewrite (Qmult_comm (2 ^ ln)), <- Qmult_assoc, Qmult_comm.
    apply Qle_shift_div_r; [lra|]. nra. }
  destruct (Qle_bool (2 ^ (ln - ld)) (n # d)) eqn:B.
  - apply Qle_bool_iff in B. split; assumption.
  - assert (B' : n # d < 2 ^ (ln - ld)).
    { apply Qnot_le_lt. intros C. apply Qle_bool_iff in C. congruence. }
    split; [exact Lo|]. now replace (ln - ld - 1 + 1)%Z with (ln - ld)%Z by lia.
Qed.

Lemma rne_close (x : Q) : Qabs (inject_Z (rne x) - x) <= 1 # 2.
Proof.
  unfold rne. cbv zeta.
  pose proof (Qfloor_le x) as Hlo. pose proof (Qlt_floor x) as Hhi.
  rewrite inject_Z_plus in Hhi. change (inject_Z 1) with 1 in Hhi.
  apply Qabs_Qle_condition.
  destruct (Qcompare_spec (x - inject_Z (Qfloor x)) (1 # 2)) as [E|E|E].
  - destruct (Z.even (Qfloor x)).
    + split; lra.
    + rewrite inject_Z_plus. change (inject_Z 1) with 1. split; lra.
  - split; lra.
  - rewrite inject_Z_plus. change (inject_Z 1) with 1. split; lra.
Qed.

Lemma rne_Z (x : Q) (k : Z) : x == inject_Z k -> rne x = k.
Proof.
  intros E. unfold rne. cbv zeta.
  rewrite (Qfloor_comp _ _ E), Qfloor_Z.
  destruct (Qcompare_spec (x - inject_Z k) (1 # 2)) as [C|C|C];
    try reflexivity; exfalso; lra.
Qed.

Lemma rne_comp (x y : Q) : x == y -> rne x = rne y.
Proof.
  intros E. unfold rne. cbv zeta. rewrite (Qfloor_comp _ _ E).
  assert (C : (x - inject_Z (Qfloor y) ?= 1 # 2) = (y - inject_Z (Qfloor y) ?= 1 # 2)).
  { apply Qcompare_comp; [|reflexivity]. now rewrite E. }
  now rewrite C.
Qed.

Lemma rne_le (x : Q) (k : Z) : x <= inject_Z k -> (rne x <= k)%Z.
Proof.
  intros Hx. pose proof (rne_close x) as C. apply Qabs_Qle_condition in C.
  destruct (Qlt_le_dec x (inject_Z k)) as [Hlt|Hge].
  - assert (Hf : (Qfloor x < k)%Z).
    { pose proof (Qfloor_le x). rewrite Zlt_Qlt. lra. }
    unfold rne. cbv zeta.
    destruct (Qcompare_spec (x - inject_Z (Qfloor x)) (1 # 2)) as [E|E|E];
      try destruct (Z.even (Qfloor x)); lia.
  - rewrite (rne_Z x k); [lia|]. lra.
Qed.

Lemma rne_ge (x : Q) (k : Z) : inject_Z k <= x -> (k <= rne x)%Z.
Proof.
  intros Hx.
  assert (Hf : (k <= Qfloor x)%Z).
  { rewrite <- (Qfloor_Z k). now apply Qfloor_resp_le. }
  unfold rne. cbv zeta.
  destruct (Qcompare_spec (x - inject_Z (Qfloor x)) (1 # 2)) as [E|E|E];
    try destruct (Z.even (Qfloor x)); lia.
Qed.

Lemma Qred_inject_Z (z : Z) : Qred (inject_Z z) = inject_Z z.
Proof.
  pose proof (Qred_correct (inject_Z z)) as E.
  pose proof (gcd_Qred (inject_Z z)) as G.
  destruct (Qred (inject_Z z)) as [n d]. unfold Qeq in E. simpl in *.
  assert (Hd : Z.pos d = 1%Z).
  { rewrite Z.mul_1_r in E. subst n.
    rewrite Z.gcd_comm, (Z.mul_comm z), Z.gcd_mul_diag_l in G; lia. }
  injection Hd as ->. unfold inject_Z. f_equal. lia.
Qed.

(** The value [of_Q] gives a positive rational. *)
Lemma of_Q_pos (q : Q) :
  0 < q ->
  exists e : Z,
    (-1022 <= e)%Z
    /\ (2 ^ e <= q \/ e = (-1022)%Z) /\ q < 2 ^ (e + 1)
    /\ of_Q q =
       let r := inject_Z (rne (q / 2 ^ (e - 52))) * 2 ^ (e - 52) in
       if Qle_bool (2 ^ 1024) r then Infinity false else Finite (Qred r).
Proof.
  intros Hq. unfold of_Q. cbv zeta.
  pose proof (Qred_correct q) as Hred.
  assert (Hz : Qeq_bool (Qred q) 0 = false).
  { destruct (Qeq_bool (Qred q) 0) eqn:E; [|reflexivity].
    apply Qeq_bool_iff in E. lra. }
  rewrite Hz.
  assert (Hn : is_negative (Qred q) = false).
  { unfold is_negative. replace (Qle_bool 0 (Qred q)) with true; [reflexivity|].
    symmetry. apply Qle_bool_iff. lra. }
  rewrite Hn.
  assert (Ha : Qabs (Qred q) == q) by (rewrite Qabs_pos; lra).
  assert (Hapos : 0 < Qabs (Qred q)) by lra.
  destruct (ilog2_spec _ Hapos) as [L U].
  set (e0 := ilog2 (Qabs (Qred q))) in *.
  exists (Z.max e0 (-1022)).
  split; [lia|]. split; [|split].
  - destruct (Z.max_spec e0 (-1022)) as [[_ ->]|[_ ->]]; [now right|left; lra].
  - eapply Qlt_le_trans; [rewrite <- Ha; exact U|]. apply pow2_le. lia.
  - set (u := 2 ^ (Z.max e0 (-1022) - 52)).
    assert (Ex : Qabs (Qred q) / u == q / u) by now rewrite Ha.
    assert (Er : rne (Qabs (Qred q) / u) = rne (q / u)) by now apply rne_comp.
    rewrite Er. reflexivity.
Qed.

Lemma of_Q_comp (p q : Q) : p == q -> of_Q p = of_Q q.
Proof. intros E. unfold of_Q. now rewrite (Qred_complete _ _ E). Qed.

Lemma of_Q_zero (q : Q) : q == 0 -> of_Q q = Finite 0.
Proof. intros E. now rewrite (of_Q_comp _ _ E). Qed.

Lemma Qle_bool_false (x y : Q) : y < x -> Qle_bool x y = false.
Proof.
  intros H. destruct (Qle_bool x y) eqn:E; [|reflexivity].
  apply Qle_bool_iff in E. lra.
Qed.

(** In the normal range the result is within half a unit in the last
    place: a relative error of at most [2^-53]. *)
Lemma of_Q_close (q : Q) :
  2 ^ (-1022) <= q -> q < 2 ^ 1023 ->
  exists r, of_Q q = Finite r /\ Qabs (r - q) <= q * 2 ^ (-53) /\ 0 < r.
Proof.
  intros Hlo Hhi.
  assert (Hq : 0 < q) by (pose proof (pow2_pos (-1022)); lra).
  destruct (of_Q_pos q Hq) as (e & He & Hbin & Hup & ->). cbv zeta.
  assert (Hbin' : 2 ^ e <= q) by (destruct Hbin as [? | ->]; assumption).
  assert (He' : (e < 1023)%Z).
  { apply (Qpower_lt_compat_l_inv 2); [|reflexivity]. lra. }
  set (u := 2 ^ (e - 52)).
  assert (Hu : 0 < u) by apply pow2_pos.
  pose proof (rne_close (q / u)) as C. apply Qabs_Qle_condition in C.
  set (m := inject_Z (rne (q / u))) in *.
  assert (Eq : q == q / u * u) by (field; lra).
  assert (Eu : u == 2 ^ e * 2 ^ (-52)).
  { unfold u. replace (e - 52)%Z with (e + -52)%Z by lia.
    apply Qpower_plus. discriminate. }
  assert (E53 : 2 ^ (-53) == (1 # 2) * 2 ^ (-52)) by reflexivity.
  assert (P52 : 0 < 2 ^ (-52)) by apply pow2_pos.
  assert (Pe : 0 < 2 ^ e) by apply pow2_pos.
  assert (Hclose : Qabs (m * u - q) <= q * 2 ^ (-53)).
  { apply Qabs_Qle_condition. rewrite E53.
    assert (B : (1 # 2) * u <= q * ((1 # 2) * 2 ^ (-52))) by (rewrite Eu; nra).
    split; nra. }
  assert (Hmpos : 0 < m * u).
  { apply Qabs_Qle_condition in Hclose. rewrite E53 in Hclose.
    assert (2 ^ (-52) <= 1) by (apply (pow2_le (-52) 0); lia).
    nra. }
  assert (Hover : m * u < 2 ^ 1024).
  { apply Qabs_Qle_condition in Hclose. rewrite E53 in Hclose.
    assert (2 ^ (-52) <= 1) by (apply (pow2_le (-52) 0); lia).
    assert (E1024 : 2 ^ 1024 == 2 * 2 ^ 1023) by (apply (pow2_succ 1023)).
    rewrite E1024. nra. }
  rewrite (Qle_bool_false _ _ Hover).
  exists (Qred (m * u)). split; [reflexivity|]. rewrite Qred_correct. auto.
Qed.

(** A number with a significand below [2^53] is kept as it is. *)
Lemma of_Q_representable (q : Q) (k j : Z) :
  (0 < k < 2 ^ 53)%Z -> (-1074 <= j)%Z ->
  q == inject_Z k * 2 ^ j -> q < 2 ^ 1024 ->
  of_Q q = Finite (Qred q).
Proof.
  intros Hk Hj Eq Hhi.
  assert (Pj : 0 < 2 ^ j) by apply pow2_pos.
  assert (Qk : 0 < inject_Z k).
  { change 0 with (inject_Z 0). rewrite <- Zlt_Qlt. lia. }
  assert (Qk' : inject_Z k < 2 ^ 53).
  { rewrite <- pow2_Z by lia. rewrite <- Zlt_Qlt. lia. }
  assert (Hq : 0 < q) by (rewrite Eq; nra).
  destruct (of_Q_pos q Hq) as (e & He & Hbin & Hup & ->). cbv zeta.
  assert (Hp : (0 <= j - e + 52)%Z).
  { destruct Hbin as [Hbin | ->]; [|lia].
    assert (L : 2 ^ e < 2 ^ (53 + j)).
    { rewrite Qpower_plus by discriminate. rewrite Eq in Hbin. nra. }
    apply Qpower_lt_compat_l_inv in L; [lia|reflexivity]. }
  set (u := 2 ^ (e - 52)).
  assert (Hu : 0 < u) by apply pow2_pos.
  assert (Ex : q / u == inject_Z (k * 2 ^ (j - e + 52))).
  { rewrite inject_Z_mult, pow2_Z by lia. rewrite Eq. unfold u.
    replace (j - e + 52)%Z with (j - (e - 52))%Z by lia.
    rewrite (pow2_div j (e - 52)). fold u. clearbody u.
    generalize (2 ^ j). intros a. field. lra. }
  rewrite (rne_Z _ _ Ex).
  assert (Er : inject_Z (k * 2 ^ (j - e + 52)) * u == q).
  { rewrite <- Ex. field. lra. }
  rewrite Qle_bool_false by (rewrite Er; exact Hhi).
  f_equal. apply Qred_complete. exact Er.
Qed.

Lemma of_Z_exact (z : Z) : (0 <= z <= 2 ^ 53)%Z -> of_Z z = Finite (inject_Z z).
Proof.
  intros Hz. unfold of_Z.
  destruct (Z.eq_dec z 0%Z) as [->|Hz0]; [reflexivity|].
  destruct (Z.eq_dec z (2 ^ 53)%Z) as [->|Hz1]; [vm_compute; reflexivity|].
  rewrite (of_Q_representable (inject_Z z) z 0%Z); try lia.
  - now rewrite Qred_inject_Z.
  - change (2 ^ 0) with 1. ring.
  - eapply Qle_lt_trans; [|apply (pow2_lt 53 1024); lia].
    rewrite <- pow2_Z by lia. rewrite <- Zle_Qle. lia.
Qed.


(** What a number that is not negative becomes: an infinity or a double
    that is not negative; a double stays what it is. *)
Lemma of_Q_nonneg (q : Q) :
  0 <= q ->
  of_Q q = Infinity false
  \/ exists r, of_Q q = Finite r /\ 0 <= r /\ of_Q r = Finite r
               /\ (0 < q -> 2 ^ (-1022) <= q -> 0 < r).
Proof.
  intros Hq0.
  destruct (Qeq_dec q 0) as [Ez|Hnz].
  { right. exists 0. rewrite (of_Q_zero _ Ez). repeat split; try reflexivity.
    - discriminate.
    - intros C. lra. }
  assert (Hq : 0 < q) by lra.
  destruct (of_Q_pos q Hq) as (e & He & Hbin & Hup & ->). cbv zeta.
  set (u := 2 ^ (e - 52)).
  assert (Hu : 0 < u) by apply pow2_pos.
  assert (Hx : 0 <= q / u) by (apply Qle_shift_div_l; lra).
  pose proof (rne_ge (q / u) 0%Z Hx) as Hm0.
  assert (Hx' : q / u <= inject_Z (2 ^ 53)%Z).
  { rewrite pow2_Z by lia. apply Qle_shift_div_r; [exact Hu|].
    unfold u. rewrite <- Qpower_plus by discriminate.
    replace (53 + (e - 52))%Z with (e + 1)%Z by lia. lra. }
  pose proof (rne_le (q / u) _ Hx') as Hm1.
  set (m := rne (q / u)) in *.
  destruct (Qle_bool (2 ^ 1024) (inject_Z m * u)) eqn:Hover; [now left|].
  right. exists (Qred (inject_Z m * u)). split; [reflexivity|].
  assert (Hfin : inject_Z m * u < 2 ^ 1024).
  { apply Qnot_le_lt. intros C. apply Qle_bool_iff in C. congruence. }
  assert (Qm0 : 0 <= inject_Z m).
  { change 0 with (inject_Z 0). now rewrite <- Zle_Qle. }
  split; [rewrite Qred_correct; nra|]. split.
  - destruct (Z.eq_dec m 0%Z) as [E0|Hm].
    { rewrite E0. rewrite (Qred_complete (inject_Z 0 * u) 0) by ring. reflexivity. }
    destruct (Z.eq_dec m (2 ^ 53)%Z) as [E1|Hm'].
    + rewrite (of_Q_representable _ 1%Z (e + 1)%Z); try lia.
      * f_equal. apply Qred_complete, Qred_correct.
      * rewrite Qred_correct, E1, pow2_Z by lia. unfold u.
        rewrite <- Qpower_plus by discriminate.
        replace (53 + (e - 52))%Z with (e + 1)%Z by lia. ring.
      * now rewrite Qred_correct.
    + rewrite (of_Q_representable _ m (e - 52)%Z); try lia.
      * f_equal. apply Qred_complete, Qred_correct.
      * now rewrite Qred_correct.
      * now rewrite Qred_correct.
  - intros _ Hnorm. rewrite Qred_correct.
    assert (Hbin' : 2 ^ e <= q) by (destruct Hbin as [? | ->]; assumption).
    assert (H52 : inject_Z (2 ^ 52)%Z <= q / u).
    { rewrite pow2_Z by lia. apply Qle_shift_div_l; [exact Hu|].
      unfold u. rewrite <- Qpower_plus by discriminate.
      replace (52 + (e - 52))%Z with e by lia. exact Hbin'. }
    pose proof (rne_ge _ _ H52) as Hm52. fold m in Hm52.
    assert (0 < inject_Z m).
    { change 0 with (inject_Z 0). rewrite <- Zlt_Qlt. lia. }
    nra.
Qed.

Lemma of_Z_nonneg (n : Z) :
  (0 <= n)%Z ->
  of_Z n = Infinity false
  \/ exists r, of_Z n = Finite r /\ 0 <= r /\ of_Q r = Finite r
               /\ ((0 < n)%Z -> 0 < r).
Proof.
  intros Hn. unfold of_Z.
  assert (Hq : 0 <= inject_Z n).
  { change 0 with (inject_Z 0). now rewrite <- Zle_Qle. }
  destruct (of_Q_nonneg _ Hq) as [E|(r & E & H0 & Hid & Hpos)]; [now left|].
  right. exists r. repeat split; try assumption.
  intros Hp. apply Hpos.
  - change 0 with (inject_Z 0). now rewrite <- Zlt_Qlt.
  - apply Qle_trans with 1.
    + apply (pow2_le (-1022) 0). lia.
    + change 1 with (inject_Z 1). rewrite <- Zle_Qle. lia.
Qed.

(** Rounding does not step over a small integer from below. *)
Lemma of_Q_le_small (q : Q) (b : Z) :
  0 <= q -> q <= inject_Z b -> (b <= 2 ^ 52)%Z ->
  exists r, of_Q q = Finite r /\ 0 <= r /\ r <= inject_Z b.
Proof.
  intros Hq0 Hqb Hb.
  destruct (Qeq_dec q 0) as [Ez|Hnz].
  { exists 0. rewrite (of_Q_zero _ Ez). split; [reflexivity|]. lra. }
  assert (Hq : 0 < q) by lra.
  destruct (of_Q_pos q Hq) as (e & He & Hbin & Hup & ->). cbv zeta.
  assert (Qb : inject_Z b <= 2 ^ 52).
  { rewrite <- pow2_Z by lia. now rewrite <- Zle_Qle. }
  assert (He52 : (e <= 52)%Z).
  { destruct Hbin as [Hbin | ->]; [|lia].
    apply (Qpower_le_compat_l_inv 2); [lra|reflexivity]. }
  set (u := 2 ^ (e - 52)).
  assert (Hu : 0 < u) by apply pow2_pos.
  assert (Eb : inject_Z (b * 2 ^ (52 - e)) * u == inject_Z b).
  { rewrite inject_Z_mult, pow2_Z by lia. unfold u.
    rewrite <- Qmult_assoc, <- Qpower_plus by discriminate.
    replace (52 - e + (e - 52))%Z with 0%Z by lia. change (2 ^ 0) with 1. ring. }
  assert (Hx : q / u <= inject_Z (b * 2 ^ (52 - e))).
  { apply Qle_shift_div_r; [exact Hu|]. rewrite Eb. exact Hqb. }
  pose proof (rne_le _ _ Hx) as Hm1.
  assert (Hx0 : inject_Z 0 <= q / u).
  { change (inject_Z 0) with 0. apply Qle_shift_div_l; lra. }
  pose proof (rne_ge _ _ Hx0) as Hm0.
  set (m := rne (q / u)) in *.
  assert (Qm0 : 0 <= inject_Z m).
  { change 0 with (inject_Z 0). now rewrite <- Zle_Qle. }
  assert (Qm1 : inject_Z m <= inject_Z (b * 2 ^ (52 - e))) by now rewrite <- Zle_Qle.
  assert (Hr : inject_Z m * u <= inject_Z b) by (rewrite <- Eb; nra).
  rewrite Qle_bool_false.
  2:{ eapply Qle_lt_trans; [exact Hr|]. eapply Qle_lt_trans; [exact Qb|].
      apply (pow2_lt 52 1024). lia. }
  exists (Qred (inject_Z m * u)). split; [reflexivity|].
  rewrite Qred_correct. split; [nra|exact Hr].
Qed.

(** Rounding does not step over a double from above. *)
Lemma of_Q_ge_double (d q r : Q) :
  0 < d -> of_Q d = Finite d -> d <= q -> of_Q q = Finite r -> d <= r.
Proof.
  intros Hd Hfix Hdq Hr.
  assert (Hq : 0 < q) by lra.
  destruct (of_Q_pos d Hd) as (ed & Hed & Hbd & Hud & Ed).
  destruct (of_Q_pos q Hq) as (eq & Heq & Hbq & Huq & Eq).
  cbv zeta in Ed, Eq. rewrite Hfix in Ed. rewrite Hr in Eq.
  set (ud := 2 ^ (ed - 52)) in *. set (uq := 2 ^ (eq - 52)) in *.
  assert (Pud : 0 < ud) by apply pow2_pos.
  assert (Puq : 0 < uq) by apply pow2_pos.
  destruct (Qle_bool (2 ^ 1024) (inject_Z (rne (d / ud)) * ud)); [discriminate|].
  destruct (Qle_bool (2 ^ 1024) (inject_Z (rne (q / uq)) * uq)); [discriminate|].
  injection Ed as Ed. injection Eq as Eq.
  assert (Ed' : d == inject_Z (rne (d / ud)) * ud).
  { pose proof (Qred_correct (inject_Z (rne (d / ud)) * ud)) as X.
    now rewrite <- Ed in X. }
  assert (Eq' : r == inject_Z (rne (q / uq)) * uq).
  { pose proof (Qred_correct (inject_Z (rne (q / uq)) * uq)) as X.
    now rewrite <- Eq in X. }
  destruct (Z.le_gt_cases eq ed) as [Hle|Hgt].
  - assert (Ex : inject_Z (rne (d / ud) * 2 ^ (ed - eq)) * uq == d).
    { rewrite inject_Z_mult, pow2_Z by lia. unfold uq.
      rewrite <- Qmult_assoc, <- Qpower_plus by discriminate.
      replace (ed - eq + (eq - 52))%Z with (ed - 52)%Z by lia. fold ud.
      now rewrite <- Ed'. }
    assert (Hx : inject_Z (rne (d / ud) * 2 ^ (ed - eq)) <= q / uq).
    { apply Qle_shift_div_l; [exact Puq|]. rewrite Ex. exact Hdq. }
    pose proof (rne_ge _ _ Hx) as Hm. rewrite Zle_Qle in Hm.
    rewrite Eq', <- Ex. nra.
  - assert (Hbq' : 2 ^ eq <= q) by (destruct Hbq as [? | ->]; [assumption|lia]).
    assert (Hlt : d < 2 ^ eq).
    { eapply Qlt_le_trans; [exact Hud|]. apply pow2_le. lia. }
    assert (H52 : inject_Z (2 ^ 52) <= q / uq).
    { rewrite pow2_Z by lia. apply Qle_shift_div_l; [exact Puq|].
      unfold uq. rewrite <- Qpower_plus by discriminate.
      replace (52 + (eq - 52))%Z with eq by lia. exact Hbq'. }
    pose proof (rne_ge _ _ H52) as Hm. rewrite Zle_Qle in Hm.
    rewrite pow2_Z in Hm by lia.
    assert (E : 2 ^ 52 * uq == 2 ^ eq).
    { unfold uq. rewrite <- Qpower_plus by discriminate.
      now replace (52 + (eq - 52))%Z with eq by lia. }
    rewrite Eq'. nra.
Qed.
End DoubleFacts.

(* ===================================================================== *)
(** * parseInt on digit strings *)
(* ===================================================================== *)

Section ParseIntFacts.
Import Js.

Lemma strip_prefix_app (p s r : string) :
  strip_prefix p s = Some r -> s = p ++ r.
Proof.
  revert s. induction p as [|a p IH]; intros s; simpl.
  - now intros [= ->].
  - destruct s as [|b s]; [discriminate|].
    destruct (Ascii.eqb_spec a b) as [->|]; [|discriminate].
    intros E. now rewrite (IH s E).
Qed.

Lemma strip_prefix_here (p r : string) : strip_prefix p (p ++ r) = Some r.
Proof.
  induction p as [|a p IH]; simpl; [reflexivity|]. now rewrite Ascii.eqb_refl.
Qed.

Lemma span_digits_nonempty (r : string) :
  fst (span_digits r) <> "" ->
  exists d post, r = String d post /\ is_digit d = true.
Proof.
  destruct r as [|d post]; simpl; [congruence|].
  destruct (is_digit d) eqn:E; [eauto|simpl; congruence].
Qed.

Lemma digit_is_plain (c : ascii) :
  is_digit c = true ->
  is_white_space c = false /\ Ascii.eqb c "-" = false /\ Ascii.eqb c "+" = false
  /\ Ascii.eqb c "x" = false /\ Ascii.eqb c "X" = false
  /\ forall d, exists u, DecimalString.uint_of_char c (Some d) = Some u.
Proof.
  destruct c as [[] [] [] [] [] [] [] []]; try discriminate; intros _;
    repeat split; eauto.
Qed.

Lemma span_digits_idem (s : string) :
  fst (span_digits (fst (span_digits s))) = fst (span_digits s).
Proof.
  induction s as [|c s IH]; [reflexivity|]. simpl.
  destruct (is_digit c) eqn:Hc; [|reflexivity].
  destruct (span_digits s) as [ds r] eqn:E. simpl in *. rewrite Hc.
  destruct (span_digits ds) as [ds' r']. simpl in *. now rewrite IH.
Qed.

Lemma uint_of_digits (s : string) :
  fst (span_digits s) = s -> exists u, NilEmpty.uint_of_string s = Some u.
Proof.
  induction s as [|c s IH]; [now exists Decimal.Nil|]. simpl.
  destruct (is_digit c) eqn:Hc; [|discriminate].
  destruct (span_digits s) as [ds r] eqn:E. simpl. intros [= Hs].
  destruct (IH Hs) as [u ->].
  destruct (digit_is_plain c Hc) as (_ & _ & _ & _ & _ & Hu). apply Hu.
Qed.

Lemma of_uint_nonneg (u : Decimal.uint) : (0 <= Z.of_uint u)%Z.
Proof. unfold Z.of_uint. lia. Qed.

(** [parseInt] on a non-empty string of decimal digits: no white space,
    sign or prefix to remove, and the digits are read as they are. *)
Lemma parseInt_digit_string (ds : string) :
  ds <> "" -> fst (span_digits ds) = ds ->
  exists u, NilEmpty.uint_of_string ds = Some u
            /\ parseInt ds = Double.of_Z (Z.of_uint u).
Proof.
  intros Hne Hds. destruct (uint_of_digits ds Hds) as [u Hu]. exists u.
  split; [exact Hu|].
  destruct ds as [|c t]; [contradiction|].
  assert (Hc : is_digit c = true).
  { simpl in Hds. destruct (is_digit c); [reflexivity|discriminate]. }
  destruct (digit_is_plain c Hc) as (Hw & Hm & Hp & Hx & HX & _).
  unfold parseInt. cbn [skip_white_space]. rewrite Hw, Hm, Hp.
  assert (Hpre : forall x, Ascii.eqb x "x" = true \/ Ascii.eqb x "X" = true ->
            strip_prefix (String "0" (String x "")) (String c t) = None).
  { intros x Hxx. cbn [strip_prefix].
    destruct (Ascii.eqb "0" c); [|reflexivity].
    destruct t as [|d t']; [reflexivity|].
    destruct (Ascii.eqb_spec x d) as [<-|]; [|reflexivity].
    exfalso. simpl in Hds. rewrite Hc in Hds.
    assert (Hd : is_digit x = false).
    { destruct Hxx as [E|E]; apply Ascii.eqb_eq in E; subst x; reflexivity. }
    rewrite Hd in Hds. discriminate. }
  unfold leading_integer.
  rewrite (Hpre "x"%char) by (left; reflexivity).
  rewrite (Hpre "X"%char) by (right; reflexivity).
  cbv zeta. rewrite Hds. cbn [String.eqb]. rewrite Hu. reflexivity.
Qed.
End ParseIntFacts.

(* ===================================================================== *)
(** * The hit rate in double precision *)
(* ===================================================================== *)

Section RateFacts.
Import Double.
Local Open Scope Q_scope.

Lemma eps53 : 2 ^ (-53) == 1 # 9007199254740992.
Proof. reflexivity. Qed.

Lemma rate_no_hits (m : Double.t) :
  m = Infinity false \/ (exists r, m = Finite r /\ 0 <= r) ->
  Spec.rate (Finite 0) m = Finite 0.
Proof.
  intros [->|(r & -> & Hr)]; [reflexivity|].
  unfold Spec.rate. cbv zeta. cbn [add].
  destruct (of_Q_nonneg (0 + r)) as [E|(t & E & Ht & _)]; [lra| |];
    rewrite E; cbn [gtb]; [reflexivity|].
  destruct (negb (Qle_bool t 0)) eqn:G; [|reflexivity].
  cbn [div]. destruct (Qeq_bool t 0) eqn:Z0.
  - apply Qeq_bool_iff in Z0. apply negb_true_iff in G.
    rewrite (proj2 (Qle_bool_iff t 0)) in G by lra. discriminate.
  - rewrite (of_Q_zero (0 / t)) by (unfold Qdiv; ring). reflexivity.
Qed.

Lemma rate_infinite_hits (m : Double.t) :
  m = Infinity false \/ (exists r, m = Finite r) ->
  Spec.rate (Infinity false) m = NaN.
Proof. intros [->|(r & ->)]; reflexivity. Qed.

(** Counters whose sum is a safe integer: the sum is exact, and the two
    roundings of the division and of the multiplication move the result
    by less than [300 * 2^-53]. *)
Lemma rate_safe (h m : Z) :
  (0 <= h)%Z -> (0 <= m)%Z -> (0 < h + m <= 2 ^ 53)%Z ->
  exists r, Spec.rate (of_Z h) (of_Z m) = Finite r
            /\ 0 <= r
            /\ Qabs (r - Spec.exact_rate h m) <= 300 * 2 ^ (-53).
Proof.
  intros Hh Hm Ht.
  rewrite (of_Z_exact h), (of_Z_exact m) by lia.
  unfold Spec.rate, Spec.exact_rate. cbv zeta. cbn [add].
  rewrite (of_Q_comp _ (inject_Z (h + m))) by (now rewrite inject_Z_plus).
  fold (of_Z (h + m)). rewrite (of_Z_exact (h + m)) by lia.
  assert (Qt : 0 < inject_Z (h + m)).
  { change 0 with (inject_Z 0). rewrite <- Zlt_Qlt. lia. }
  assert (Qt' : inject_Z (h + m) <= 9007199254740992).
  { change 9007199254740992 with (inject_Z (2 ^ 53)). rewrite <- Zle_Qle. lia. }
  cbn [gtb]. rewrite (Qle_bool_false _ _ Qt). cbn [negb div].
  assert (Z0 : Qeq_bool (inject_Z (h + m)) 0 = false).
  { destruct (Qeq_bool (inject_Z (h + m)) 0) eqn:E; [|reflexivity].
    apply Qeq_bool_iff in E. lra. }
  rewrite Z0. destruct (Z.gtb_spec (h + m) 0) as [_|]; [|lia].
  set (t := inject_Z (h + m)) in *.
  destruct (Z.eq_dec h 0%Z) as [->|Hh0].
  { rewrite (of_Q_zero (inject_Z 0 / t)) by (unfold Qdiv; change (inject_Z 0) with 0; ring).
    cbn [mul]. rewrite (of_Q_zero (0 * 100)) by ring.
    exists 0. split; [reflexivity|]. split; [lra|].
    change (inject_Z 0) with 0.
    assert (E : 0 - 0 / t * 100 == 0) by (unfold Qdiv; ring).
    rewrite E, eps53. vm_compute. discriminate. }
  assert (Qh : 1 <= inject_Z h).
  { change 1 with (inject_Z 1). rewrite <- Zle_Qle. lia. }
  assert (Qht : inject_Z h <= t).
  { unfold t. rewrite <- Zle_Qle. lia. }
  set (q1 := inject_Z h / t).
  assert (Hq1 : q1 * t == inject_Z h) by (unfold q1; field; lra).
  assert (Q1lo : 1 # 9007199254740992 <= q1).
  { unfold q1. apply Qle_shift_div_l; [exact Qt|]. lra. }
  assert (Q1hi : q1 <= 1).
  { unfold q1. apply Qle_shift_div_r; [exact Qt|]. lra. }
  destruct (of_Q_close q1) as (r1 & -> & C1 & P1).
  { eapply Qle_trans; [apply (pow2_le (-1022) (-53)); lia|]. now rewrite eps53. }
  { eapply Qle_lt_trans; [exact Q1hi|]. apply (pow2_lt 0 1023). lia. }
  cbn [mul]. rewrite eps53 in C1. apply Qabs_Qle_condition in C1.
  destruct (of_Q_close (r1 * 100)) as (r2 & -> & C2 & P2).
  { eapply Qle_trans; [apply (pow2_le (-1022) (-53)); lia|]. rewrite eps53. nra. }
  { eapply Qlt_le_trans; [|apply (pow2_le 8 1023); lia].
    change (2 ^ 8) with 256. nra. }
  rewrite eps53 in C2. apply Qabs_Qle_condition in C2.
  exists r2. split; [reflexivity|]. split; [lra|].
  rewrite eps53. apply Qabs_Qle_condition. fold q1. split; nra.
Qed.

(** Hits that are a positive double: the rate is a double between 0
    and 100, whatever the misses are. *)
Lemma rate_of_doubles (h : Q) (m : Double.t) :
  0 < h -> of_Q h = Finite h ->
  m = Infinity false \/ (exists r, m = Finite r /\ 0 <= r) ->
  exists r, Spec.rate (Finite h) m = Finite r /\ 0 <= r /\ r <= 100.
Proof.
  intros Hh Hfix Hm.
  assert (Hinf : Double.mul (Double.div (Finite h) (Infinity false)) (Finite 100)
                 = Finite 0) by reflexivity.
  unfold Spec.rate. cbv zeta.
  destruct Hm as [->|(M & -> & HM)].
  { cbn [add gtb negb]. rewrite Hinf. exists 0. split; [reflexivity|lra]. }
  cbn [add].
  destruct (of_Q_nonneg (h + M)) as [E|(t & E & Ht & _)]; [lra| |]; rewrite E.
  { cbn [gtb negb]. rewrite Hinf. exists 0. split; [reflexivity|lra]. }
  assert (Hht : h <= t).
  { apply (of_Q_ge_double h (h + M) t); try assumption. lra. }
  cbn [gtb]. rewrite (Qle_bool_false t 0) by lra. cbn [negb div].
  assert (Z0 : Qeq_bool t 0 = false).
  { destruct (Qeq_bool t 0) eqn:Z0; [|reflexivity].
    apply Qeq_bool_iff in Z0. lra. }
  rewrite Z0.
  destruct (of_Q_le_small (h / t) 1) as (r1 & -> & L1 & U1).
  - apply Qle_shift_div_l; lra.
  - change (inject_Z 1) with 1. apply Qle_shift_div_r; lra.
  - lia.
  - cbn [mul]. change (inject_Z 1) with 1 in U1.
    destruct (of_Q_le_small (r1 * 100) 100) as (r2 & -> & L2 & U2).
    + lra.
    + change (inject_Z 100) with 100. lra.
    + lia.
    + exists r2. change (inject_Z 100) with 100 in U2. auto.
Qed.

Lemma rate_no_misses (h : Q) :
  0 < h -> of_Q h = Finite h -> Spec.rate (Finite h) (Finite 0) = Finite 100.
Proof.
  intros Hh Hfix. unfold Spec.rate. cbv zeta. cbn [add].
  rewrite (of_Q_comp (h + 0) h) by ring. rewrite Hfix.
  cbn [gtb]. rewrite (Qle_bool_false h 0) by lra. cbn [negb div].
  assert (Z0 : Qeq_bool h 0 = false).
  { destruct (Qeq_bool h 0) eqn:Z0; [|reflexivity].
    apply Qeq_bool_iff in Z0. lra. }
  rewrite Z0, (of_Q_comp (h / h) 1) by (field; lra).
  reflexivity.
Qed.

(** [toFixed(2)] of a double between 0 and a little over 100. *)
Lemma toFixed2_percent (r : Q) :
  0 <= r -> r <= 100 + (1 # 1000) ->
  exists k : Z,
    CacheMetricsService.toFixed2 (Finite r) = of_Q (k # 100)
    /\ (0 <= k <= 10000)%Z /\ Qabs ((k # 100) - r) <= 1 # 200.
Proof.
  intros H0 H1. unfold CacheMetricsService.toFixed2.
  rewrite Qle_bool_false.
  2:{ rewrite Qabs_pos by exact H0.
      eapply Qle_lt_trans; [exact H1|]. reflexivity. }
  cbv zeta.
  assert (Hn : is_negative r = false).
  { unfold is_negative. rewrite (proj2 (Qle_bool_iff 0 r)); [reflexivity|exact H0]. }
  rewrite Hn.
  assert (Ea : Qabs r * 100 + (1 # 2) == r * 100 + (1 # 2)).
  { now rewrite Qabs_pos by exact H0. }
  rewrite (Qfloor_comp _ _ Ea).
  pose proof (Qfloor_le (r * 100 + (1 # 2))) as Hlo.
  pose proof (Qlt_floor (r * 100 + (1 # 2))) as Hhi.
  set (k := Qfloor (r * 100 + (1 # 2))) in *.
  rewrite inject_Z_plus in Hhi. change (inject_Z 1) with 1 in Hhi.
  exists k. split; [reflexivity|].
  assert (E : k # 100 == inject_Z k * (1 # 100)).
  { unfold Qeq. cbn. lia. }
  split.
  - split.
    + change 0%Z with (Qfloor 0). apply Qfloor_resp_le. lra.
    + assert (Hk : inject_Z k < inject_Z 10001).
      { change (inject_Z 10001) with 10001. lra. }
      rewrite <- Zlt_Qlt in Hk. lia.
  - rewrite E. apply Qabs_Qle_condition. split; lra.
Qed.
End RateFacts.

(* ===================================================================== *)
(** * The metrics snapshot *)
(* ===================================================================== *)

Section MetricsFacts.
Import Js CacheMetricsService.

Lemma match_digits_skip (p : string) (c : ascii) (s : string) :
  strip_prefix p (String c s) = None ->
  match_digits_after p (String c s) = match_digits_after p s.
Proof. intros E. simpl. now rewrite E. Qed.

Lemma match_digits_here (p s r : string) :
  strip_prefix p s = Some r -> fst (span_digits r) <> "" ->
  match_digits_after p s = Some (fst (span_digits r)).
Proof.
  intros E Hd. destruct s; simpl; simpl in E; rewrite E;
    (destruct (String.eqb_spec (fst (span_digits r)) ""); [contradiction|reflexivity]).
Qed.

Lemma match_line_skip (p : string) (c : ascii) (s : string) :
  strip_prefix p (String c s) = None ->
  match_line_after p (String c s) = match_line_after p s.
Proof. intros E. simpl. now rewrite E. Qed.

Lemma match_line_here (p s r : string) :
  strip_prefix p s = Some r -> span_line r <> "" ->
  match_line_after p s = Some (span_line r).
Proof.
  intros E Hd. destruct s; simpl; simpl in E; rewrite E;
    (destruct (String.eqb_spec (span_line r) ""); [contradiction|reflexivity]).
Qed.

Lemma span_digits_N (n : N) (rest : string) :
  JSON.starts_with_digit rest = false ->
  span_digits (number_toString (Z.of_N n) ++ rest)
  = (number_toString (Z.of_N n), rest).
Proof.
  intros Hr. destruct n as [|p].
  - simpl. now rewrite span_digits_stop.
  - simpl Z.of_N. rewrite to_uint_string. now apply span_digits_uint.
Qed.

Lemma number_toString_N_nonempty (n : N) : number_toString (Z.of_N n) <> "".
Proof.
  destruct (number_toString_head (Z.of_N n)) as (c & t & -> & _). discriminate.
Qed.

(** Scanning for a pattern that starts with a letter walks over digits. *)
Lemma match_digits_over_uint (p : string) (u : Decimal.uint) (rest : string) :
  (exists c p', p = String c p' /\ is_digit c = false) ->
  match_digits_after p (NilEmpty.string_of_uint u ++ rest)
  = match_digits_after p rest.
Proof.
  intros (c & p' & -> & Hc).
  induction u; [reflexivity|..]; simpl NilEmpty.string_of_uint;
    change (String ?d ?t ++ rest) with (String d (t ++ rest));
    (rewrite match_digits_skip;
     [exact IHu
     | simpl;
       match goal with
       | |- context [Ascii.eqb c ?d] =>
           destruct (Ascii.eqb_spec c d) as [->|]; [discriminate|reflexivity]
       end]).
Qed.

Lemma match_digits_over_N (p : string) (n : N) (rest : string) :
  (exists c p', p = String c p' /\ is_digit c = false) ->
  match_digits_after p (number_toString (Z.of_N n) ++ rest)
  = match_digits_after p rest.
Proof.
  intros Hp. destruct n as [|q].
  - change (number_toString (Z.of_N 0)) with (NilEmpty.string_of_uint (Decimal.D0 Decimal.Nil)).
    now apply match_digits_over_uint.
  - simpl Z.of_N. rewrite to_uint_string. now apply match_digits_over_uint.
Qed.

Lemma stats_hits (h m : N) :
  match_digits_after "keyspace_hits:" (RedisModel.stats_text h m)
  = Some (number_toString (Z.of_N h)).
Proof.
  unfold RedisModel.stats_text, RedisModel.crlf. cbn [String.append].
  do 9 (rewrite match_digits_skip by reflexivity).
  erewrite match_digits_here; [|reflexivity|];
    rewrite span_digits_N by reflexivity; simpl;
    [reflexivity|apply number_toString_N_nonempty].
Qed.

Lemma stats_misses (h m : N) :
  match_digits_after "keyspace_misses:" (RedisModel.stats_text h m)
  = Some (number_toString (Z.of_N m)).
Proof.
  unfold RedisModel.stats_text, RedisModel.crlf. cbn [String.append].
  do 23 (rewrite match_digits_skip by reflexivity).
  rewrite match_digits_over_N by (eexists _, _; split; reflexivity).
  do 2 (rewrite match_digits_skip by reflexivity).
  erewrite match_digits_here; [|reflexivity|];
    rewrite span_digits_N by reflexivity; simpl;
    [reflexivity|apply number_toString_N_nonempty].
Qed.

Lemma parseInt_N (n : N) :
  parseInt (number_toString (Z.of_N n)) = Double.of_Z (Z.of_N n).
Proof.
  destruct n as [|p]; [reflexivity|].
  pose proof (span_digits_N (N.pos p) "" eq_refl) as Hs.
  rewrite append_nil_r in Hs.
  destruct (parseInt_digit_string (number_toString (Z.of_N (N.pos p))))
    as (u & Hu & ->).
  - apply number_toString_N_nonempty.
  - now rewrite Hs.
  - simpl Z.of_N in *. rewrite to_uint_string, NilEmpty.usu in Hu.
    injection Hu as <-. unfold Z.of_uint.
    now rewrite DecimalPos.Unsigned.of_to.
Qed.

(** What the pattern captures is a non-empty string of digits. *)
Lemma match_digits_captured (label info ds : string) :
  match_digits_after label info = Some ds ->
  ds <> "" /\ fst (span_digits ds) = ds.
Proof.
  induction info as [|c info IH]; simpl.
  - destruct (strip_prefix label "") as [r|]; [|discriminate].
    destruct (String.eqb_spec (fst (span_digits r)) "") as [|Hne]; [discriminate|].
    intros [= <-]. split; [exact Hne|apply span_digits_idem].
  - destruct (strip_prefix label (String c info)) as [r|].
    + destruct (String.eqb_spec (fst (span_digits r)) "") as [|Hne]; [exact IH|].
      intros [= <-]. split; [exact Hne|apply span_digits_idem].
    + exact IH.
Qed.

Lemma span_line_text (mem rest : string) :
  Spec.no_line_break mem = true ->
  span_line (mem ++ String (ascii_of_nat 13) rest) = mem.
Proof.
  induction mem as [|c mem IH]; [reflexivity|].
  intros Hm. simpl in Hm. apply andb_prop in Hm as [Hc Hm].
  apply negb_true_iff in Hc.
  change (String c mem ++ String (ascii_of_nat 13) rest)
    with (String c (mem ++ String (ascii_of_nat 13) rest)).
  cbn [span_line]. now rewrite Hc, IH.
Qed.

Lemma memory_line (mem : string) :
  Spec.no_line_break mem = true -> mem <> "" ->
  match_line_after "used_memory_human:" (RedisModel.memory_text mem) = Some mem.
Proof.
  intros Hm Hne. unfold RedisModel.memory_text, RedisModel.crlf. cbn [String.append].
  do 10 (rewrite match_line_skip by reflexivity).
  erewrite match_line_here; [|reflexivity|]; rewrite span_line_text by assumption;
    [reflexivity|assumption].
Qed.

End MetricsFacts.

Section SnapshotFacts.
Import Runtime Spec.
Context {B D : Type} `{RedisClient B}.

(** [getMetrics] when its three calls resolve. *)
Lemma getMetrics_resolves (w : World B D) info b1 n b2 mem b3 :
  ioredis_info "stats" (client (redis w)) = (Ret info, b1) ->
  ioredis_dbsize b1 = (Ret n, b2) ->
  ioredis_info "memory" b2 = (Ret mem, b3) ->
  fst (CacheMetricsService.getMetrics w) =
    Ret (CacheMetrics.mk
           (counter "keyspace_hits:" info)
           (counter "keyspace_misses:" info)
           (CacheMetricsService.toFixed2
              (rate (counter "keyspace_hits:" info)
                    (counter "keyspace_misses:" info)))
           n (memory_of mem)).
Proof.
  intros E1 E2 E3. unfold_metrics. simpl.
  rewrite E1. simpl. rewrite E2. simpl. rewrite E3. reflexivity.
Qed.

Lemma getCacheMetrics_body (w : World B D) :
  fst (MetricsController.getCacheMetrics w) =
    match fst (CacheMetricsService.getMetrics w) with
    | Ret m => Ret (MetricsController.body_of m)
    | Throw e => Throw e
    end.
Proof.
  unfold MetricsController.getCacheMetrics, bind, ret.
  now destruct (CacheMetricsService.getMetrics w) as [[m|e] w'].
Qed.
End SnapshotFacts.

Lemma truthy_str_some (s : string) : s <> "" -> Js.truthy_str (Some s) = true.
Proof. intros Hs. simpl. now destruct (String.eqb_spec s ""). Qed.

(** C9, as stated, fails on a server that counted one hit and two
    misses: the snapshot has no field named [hitRatePercent] or
    [memoryUsedHuman], and its rate is 33.33, which is neither 100/3 nor
    the double the expression [hits / (hits + misses) * 100] gives. *)
Lemma snapshot_is_rounded_and_named_otherwise :
  let w := Scenario.world (RedisModel.mk true ∅ 0 1 2 "1.00M") true tt in
  exists snap,
    fst (CacheMetricsService.getMetrics w) = Js.Ret snap
    /\ fst (MetricsController.getCacheMetrics w)
       = Js.Ret (MetricsController.body_of snap)
    /\ map fst (MetricsController.body_of snap)
       <> ["hits"; "misses"; "hitRatePercent"; "totalKeys"; "memoryUsedHuman"]
    /\ CacheMetrics.hits snap = Double.Finite 1
    /\ CacheMetrics.misses snap = Double.Finite 2
    /\ CacheMetrics.hitRate snap = Double.of_Q (3333 # 100)
    /\ CacheMetrics.hitRate snap
       <> Spec.rate (CacheMetrics.hits snap) (CacheMetrics.misses snap)
    /\ (forall q, CacheMetrics.hitRate snap = Double.Finite q ->
                  ~ (q == (1 / (1 + 2)) * 100)%Q).
Proof.
  cbv zeta. eexists. split; [vm_compute; reflexivity|].
  split; [vm_compute; reflexivity|].
  split; [discriminate|]. split; [reflexivity|]. split; [reflexivity|].
  split; [vm_compute; reflexivity|]. split; [vm_compute; discriminate|].
  intros q E. vm_compute in E. injection E as <-. vm_compute. discriminate.
Qed.

(** C9, amended.  On a reachable server whose memory figure is a
    non-blank single line, [getMetrics] resolves, whatever the health flag
    and the process-local counters are, with a snapshot whose fields are
    [hits], [misses], [hitRate], [totalKeys] and [memoryUsed].  [hits] and
    [misses] are the keyspace counters of the server as Numbers: the
    counter itself up to [2^53], the nearest double beyond.  [totalKeys]
    is its number of live keys and [memoryUsed] its memory figure
    trimmed.  [hitRate] is [(hits / (hits + misses)) * 100], evaluated in
    double precision and then rounded to two decimals by [toFixed]; it
    is 0 when both counters are 0, and while [hits + misses] is at most
    [2^53] it is a number of hundredths between 0 and 100 that lies
    within [0.005 + 2^-44] of the exact percentage. *)
Theorem snapshot_reports_the_server_counters {D : Type}
    (w : Runtime.World RedisModel.t D) :
  let r := Runtime.client (Runtime.redis w) in
  let h := Z.of_N (RedisModel.keyspace_hits r) in
  let m := Z.of_N (RedisModel.keyspace_misses r) in
  RedisModel.up r = true ->
  Spec.no_line_break (RedisModel.used_memory_human r) = true ->
  CacheMetricsService.trim (RedisModel.used_memory_human r) <> "" ->
  exists snap,
    fst (CacheMetricsService.getMetrics w) = Js.Ret snap
    /\ fst (MetricsController.getCacheMetrics w)
       = Js.Ret (MetricsController.body_of snap)
    /\ map fst (MetricsController.body_of snap)
       = ["hits"; "misses"; "hitRate"; "totalKeys"; "memoryUsed"]
    /\ CacheMetrics.hits snap = Double.of_Z h
    /\ CacheMetrics.misses snap = Double.of_Z m
    /\ ((h <= 2 ^ 53)%Z -> CacheMetrics.hits snap = Double.Finite (inject_Z h))
    /\ ((m <= 2 ^ 53)%Z -> CacheMetrics.misses snap = Double.Finite (inject_Z m))
    /\ CacheMetrics.totalKeys snap = Z.of_nat (length (RedisModel.live_keys r))
    /\ CacheMetrics.memoryUsed snap
       = CacheMetricsService.trim (RedisModel.used_memory_human r)
    /\ CacheMetrics.hitRate snap
       = CacheMetricsService.toFixed2
           (Spec.rate (CacheMetrics.hits snap) (CacheMetrics.misses snap))
    /\ ((h + m = 0)%Z -> CacheMetrics.hitRate snap = Double.Finite 0)
    /\ ((0 < h + m <= 2 ^ 53)%Z ->
        exists k : Z,
          CacheMetrics.hitRate snap = Double.of_Q (k # 100)
          /\ (0 <= k <= 10000)%Z
          /\ (Qabs ((k # 100) - inject_Z h / inject_Z (h + m) * 100)
              <= (1 # 200) + (1 # 17592186044416))%Q).
Proof.
  intros r h m Hup Hline Hmem.
  assert (Hne : RedisModel.used_memory_human r <> "").
  { intros E. apply Hmem. rewrite E. reflexivity. }
  assert (Hrun : fst (CacheMetricsService.getMetrics w) =
            Js.Ret (CacheMetrics.mk (Double.of_Z h) (Double.of_Z m)
                      (CacheMetricsService.toFixed2
                         (Spec.rate (Double.of_Z h) (Double.of_Z m)))
                      (Z.of_nat (length (RedisModel.live_keys r)))
                      (CacheMetricsService.trim (RedisModel.used_memory_human r)))).
  { rewrite (getMetrics_resolves w
               (RedisModel.stats_text (RedisModel.keyspace_hits r)
                  (RedisModel.keyspace_misses r)) r
               (Z.of_nat (length (RedisModel.live_keys r))) r
               (RedisModel.memory_text (RedisModel.used_memory_human r)) r).
    - unfold Spec.counter, Spec.memory_of.
      rewrite stats_hits, stats_misses, memory_line by assumption.
      cbn [fmap option_fmap option_map].
      rewrite !truthy_str_some
        by first [apply number_toString_N_nonempty | assumption].
      cbn [default from_option]. unfold id, h, m. now rewrite !parseInt_N.
    - change (Runtime.ioredis_info "stats" (Runtime.client (Runtime.redis w)))
        with (RedisModel.info "stats" r).
      unfold RedisModel.info. now rewrite Hup.
    - change (Runtime.ioredis_dbsize r) with (RedisModel.dbsize r).
      unfold RedisModel.dbsize. now rewrite Hup.
    - change (Runtime.ioredis_info "memory" r) with (RedisModel.info "memory" r).
      unfold RedisModel.info. now rewrite Hup. }
  assert (Hh : (0 <= h)%Z) by (unfold h; lia).
  assert (Hm : (0 <= m)%Z) by (unfold m; lia).
  eexists. split; [exact Hrun|].
  split; [now rewrite getCacheMetrics_body, Hrun|].
  split; [reflexivity|]. split; [reflexivity|]. split; [reflexivity|].
  cbn [CacheMetrics.hits CacheMetrics.misses CacheMetrics.hitRate
       CacheMetrics.totalKeys CacheMetrics.memoryUsed].
  split; [intros Hs; apply of_Z_exact; lia|].
  split; [intros Hs; apply of_Z_exact; lia|].
  split; [reflexivity|]. split; [reflexivity|]. split; [reflexivity|]. split.
  - intros Hz. replace h with 0%Z by lia. replace m with 0%Z by lia. reflexivity.
  - intros Hpos.
    destruct (rate_safe h m Hh Hm Hpos) as (x & -> & Hx0 & Hx).
    rewrite eps53 in Hx. apply Qabs_Qle_condition in Hx.
    unfold Spec.exact_rate in Hx.
    destruct (Z.gtb_spec (h + m) 0) as [_|]; [|lia].
    destruct (toFixed2_percent x Hx0) as (k & -> & Hk & Hkx).
    + set (e := (inject_Z h / inject_Z (h + m) * 100)%Q) in *.
      assert (e <= 100)%Q; [|lra].
      unfold e. 
      assert (Qt : (0 < inject_Z (h + m))%Q).
      { change 0%Q with (inject_Z 0). rewrite <- Zlt_Qlt. lia. }
      assert (Qle (inject_Z h / inject_Z (h + m)) 1).
      { apply Qle_shift_div_r; [exact Qt|]. rewrite Qmult_1_l, <- Zle_Qle. lia. }
      lra.
    + exists k. split; [reflexivity|]. split; [exact Hk|].
      apply Qabs_Qle_condition in Hkx. apply Qabs_Qle_condition. split; lra.
Qed.

Lemma snapshot_reports_the_server_counters_witness :
  exists snap,
    fst (CacheMetricsService.getMetrics
           (Scenario.world (RedisModel.mk true ∅ 0 1 2 " 1.00M") false tt))
    = Js.Ret snap
    /\ CacheMetrics.hits snap = Double.Finite 1
    /\ CacheMetrics.misses snap = Double.Finite 2
    /\ CacheMetrics.memoryUsed snap = "1.00M".
Proof.
  destruct (snapshot_reports_the_server_counters
              (Scenario.world (RedisModel.mk true ∅ 0 1 2 " 1.00M") false tt)
              eq_refl eq_refl)
    as (snap & E & _ & _ & Hh & Hm & _ & _ & _ & Hmem & _).
  - discriminate.
  - exists snap. auto.
Defined.

(* ===================================================================== *)
(** * Sanity checks of the model on concrete inputs *)
(* ===================================================================== *)

Example build_user_42 :
  CacheKeyBuilder.build "user" (CacheKeyBuilder.IdNumber 42) = "app:v1:user:42".
Proof. reflexivity. Qed.

Example pattern_users :
  CacheKeyBuilder.pattern "users" None = "app:v1:users:*".
Proof. reflexivity. Qed.

Example buildList_users_2_10 :
  CacheKeyBuilder.buildList "users"
    (Some {| CacheKeyBuilder.page := Some 2; CacheKeyBuilder.limit := None |})
  = "app:v1:users:list:page-2:limit-10".
Proof. reflexivity. Qed.

Example parse_nested_text :
  JSON.parse " [1, -2 , {} , [] ] "
  = inr (Js.Array [Js.Number 1; Js.Number (-2); Js.Object []; Js.Array []]).
Proof. reflexivity. Qed.

Example parse_rejects_leading_zero :
  JSON.parse "01" = inl (Js.SyntaxError "Unexpected token in JSON").
Proof. reflexivity. Qed.

Example stringify_drops_undefined :
  JSON.stringify
    (Js.Object [("id", Js.Number 42); ("x", Js.Undefined);
                ("tags", Js.Array [Js.Undefined; Js.Bool true])])
  = JSON.stringify
      (Js.Object [("id", Js.Number 42); ("tags", Js.Array [Js.Null; Js.Bool true])]).
Proof. reflexivity. Qed.

Example parseInt_reads_the_leading_integer :
  Js.parseInt "42" = Double.Finite 42
  /\ Js.parseInt "  -17px" = Double.Finite (-17)
  /\ Js.parseInt "0x1F" = Double.Finite 31
  /\ Js.parseInt "" = Double.NaN
  /\ Js.parseInt "9007199254740993" = Double.Finite 9007199254740992.
Proof. repeat split; vm_compute; reflexivity. Qed.

Example one_tenth_is_rounded :
  Double.of_Q (1 # 10) = Double.Finite (3602879701896397 # 36028797018963968).
Proof. vm_compute. reflexivity. Qed.

Example a_counter_of_309_digits_is_infinite :
  Double.of_Z (10 ^ 308) <> Double.Infinity false
  /\ Double.of_Z (10 ^ 309) = Double.Infinity false.
Proof. split; vm_compute; [discriminate|reflexivity]. Qed.

(** 23 hits and 137 misses: [(23 / 160) * 100] is the double
    14.374999999999998, so the snapshot says 14.37 although the exact
    percentage is 14.375. *)
Example hit_rate_of_23_hits_and_137_misses :
  let w := Scenario.world (RedisModel.mk true ∅ 0 23 137 "1.00M") true tt in
  Spec.rate (Double.Finite 23) (Double.Finite 137)
  = Double.Finite (8092405580431359 # 562949953421312)
  /\ (exists snap, fst (CacheMetricsService.getMetrics w) = Js.Ret snap
                   /\ CacheMetrics.hitRate snap = Double.of_Q (1437 # 100))
  /\ (Spec.exact_rate 23 137 == 14375 # 1000)%Q.
Proof.
  cbv zeta. split; [vm_compute; reflexivity|]. split; [|vm_compute; reflexivity].
  eexists. split; vm_compute; reflexivity.
Qed.

Example retry_delay_is_capped :
  RedisService.retryStrategy 3 = 150 /\ RedisService.retryStrategy 100 = 2000.
Proof. split; reflexivity. Qed.

Example miss_then_hit_trace :
  let w := Scenario.world RedisModel.empty true tt in
  let w1 := snd (CacheInterceptor.intercept (Some UsersController.findOne_policy)
                   (Scenario.request_user "42") (Scenario.resolves Scenario.ann) w) in
  let w2 := snd (CacheInterceptor.intercept (Some UsersController.findOne_policy)
                   (Scenario.request_user "42") (Scenario.resolves Scenario.ann) w1) in
  Runtime.trace w2
  = [Runtime.RedisCall (Runtime.GET "app:v1:user:42"); Runtime.HandlerCall;
     Runtime.RedisCall
       (Runtime.SETEX "app:v1:user:42" 300 (JSON.stringify Scenario.ann));
     Runtime.RedisCall (Runtime.GET "app:v1:user:42")].
Proof. vm_compute. reflexivity. Qed.

Example server_down_falls_back_to_the_handler :
  let w := Scenario.world (RedisModel.down RedisModel.empty) true tt in
  fst (CacheInterceptor.intercept (Some UsersController.findOne_policy)
         (Scenario.request_user "42") (Scenario.resolves Scenario.ann) w)
  = Js.Ret Scenario.ann.
Proof. vm_compute. reflexivity. Qed.

Example expired_entry_is_a_miss :
  Spec.cached "app:v1:user:42"
    (Scenario.world (RedisModel.advance 300 Scenario.warm_server) true tt) = None.
Proof. vm_compute. reflexivity. Qed.

Example unknown_user_is_looked_up_again :
  let table : gmap string Js.Value := {[ "42" := Scenario.ann ]} in
  let w := Scenario.world RedisModel.empty true table in
  let w1 := snd (CacheInterceptor.intercept (Some UsersController.findOne_policy)
                   (Scenario.request_user "7") (Scenario.findOne "7") w) in
  fst (CacheInterceptor.intercept (Some UsersController.findOne_policy)
         (Scenario.request_user "7") (Scenario.findOne "7") w) = Js.Ret Js.Null
  /\ Spec.cached "app:v1:user:7" w1 = None
  /\ Spec.handler_called w1
       (snd (CacheInterceptor.intercept (Some UsersController.findOne_policy)
               (Scenario.request_user "7") (Scenario.findOne "7") w1)) = true.
Proof. vm_compute. repeat split. Qed.

(* ===================================================================== *)
(** * More on the key builder *)
(* ===================================================================== *)

Section KeyBuilderMore.
Import CacheKeyBuilder Spec Props.

Lemma no_colon_uint (u : Decimal.uint) :
  no_colon (NilEmpty.string_of_uint u) = true.
Proof. induction u; simpl; auto. Qed.

Lemma no_colon_number (n : Z) : no_colon (Js.number_toString n) = true.
Proof.
  destruct n as [|p|p]; [reflexivity| |].
  - rewrite to_uint_string. apply no_colon_uint.
  - change (Js.number_toString (Z.neg p))
      with (String "-" (NilZero.string_of_uint (Pos.to_uint p))).
    rewrite nilzero_string by apply DecimalPos.Unsigned.to_uint_nonnil.
    simpl. apply no_colon_uint.
Qed.

Lemma build_as_prefix (resource : string) (identifier : Identifier) :
  build resource identifier
  = "app:v1:" ++ resource ++ ":" ++ identifier_toString identifier.
Proof. reflexivity. Qed.

Lemma buildList_as_prefix (resource : string) (params : option ListParams) :
  buildList resource params = "app:v1:" ++ resource ++ ":" ++ list_suffix params.
Proof. reflexivity. Qed.

Lemma pattern_as_prefix (resource : string) :
  pattern resource None = "app:v1:" ++ (resource ++ ":") ++ "*".
Proof.
  unfold pattern, NAMESPACE, VERSION. simpl. now rewrite append_assoc.
Qed.

Lemma list_suffix_inj (p1 p2 : option ListParams) :
  list_suffix p1 = list_suffix p2 -> effective p1 = effective p2.
Proof.
  unfold list_suffix. intros E. simpl in E. injection E as E.
  destruct (split_at_colon _ _ _ _ (no_colon_number _) (no_colon_number _) E)
    as [E1 E2].
  simpl in E2. injection E2 as E2.
  apply number_toString_inj in E1. apply number_toString_inj in E2.
  unfold effective. now rewrite E1, E2.
Qed.

(** ** Glob patterns made of plain characters *)

Lemma glob_star_all (s : string) : RedisModel.glob_match "*" s = true.
Proof.
  induction s as [|c s IH]; [reflexivity|].
  simpl in IH |- *. exact IH.
Qed.

Lemma glob_plain_prefix (p q s : string) :
  glob_plain p = true ->
  RedisModel.glob_match (p ++ q) s = true <->
  exists s', s = p ++ s' /\ RedisModel.glob_match q s' = true.
Proof.
  revert s. induction p as [|c p IH]; intros s Hp.
  - simpl. split; [eauto|]. now intros (s' & -> & H).
  - simpl in Hp. apply andb_prop in Hp as [Hc Hp].
    apply negb_true_iff in Hc. simpl in Hc.
    repeat match type of Hc with
           | (_ || _)%bool = false => apply orb_false_elim in Hc as [? Hc]
           end.
    change (String c p ++ q) with (String c (p ++ q)).
    cbn [RedisModel.glob_match].
    replace (Ascii.eqb c "*") with false by (symmetry; assumption).
    replace (Ascii.eqb c "?") with false by (symmetry; assumption).
    destruct s as [|d s].
    + split; [discriminate|]. intros (s' & E & _). discriminate.
    + simpl orb. destruct (Ascii.eqb_spec c d) as [->|Hne]; simpl andb.
      * rewrite (IH s Hp). split.
        -- intros (s' & -> & G). eauto.
        -- intros (s' & [= ->] & G). eauto.
      * split; [discriminate|]. intros (s' & [= E _] & _). congruence.
Qed.
End KeyBuilderMore.

(** X1.  List keys are injective: for resources that do not contain [:],
    two calls of [buildList] return the same key exactly when the
    resources are equal and the page and the limit, after the defaults 1
    and 10, are equal. *)
Theorem buildList_keys_differ_with_page_or_limit
    (r1 r2 : string) (p1 p2 : option CacheKeyBuilder.ListParams) :
  Spec.no_colon r1 = true -> Spec.no_colon r2 = true ->
  (CacheKeyBuilder.buildList r1 p1 = CacheKeyBuilder.buildList r2 p2
   <-> r1 = r2 /\ Props.effective p1 = Props.effective p2).
Proof.
  intros H1 H2. rewrite !buildList_as_prefix. split.
  - intros E. simpl in E. injection E as E.
    destruct (split_at_colon _ _ _ _ H1 H2 E) as [-> Es].
    split; [reflexivity|]. now apply list_suffix_inj.
  - intros [-> E]. unfold Props.list_suffix. now rewrite E.
Qed.

Lemma buildList_keys_differ_with_page_or_limit_witness :
  CacheKeyBuilder.buildList "users"
    (Some {| CacheKeyBuilder.page := Some 1; CacheKeyBuilder.limit := None |})
  <> CacheKeyBuilder.buildList "users"
       (Some {| CacheKeyBuilder.page := Some 2; CacheKeyBuilder.limit := None |}).
Proof.
  intros E.
  apply (buildList_keys_differ_with_page_or_limit "users" "users") in E;
    [|reflexivity|reflexivity].
  destruct E as [_ E]. discriminate.
Defined.

(** X2.  A single-entity key and a list key of separator-free resources
    coincide only when the identifier is the string that spells the list
    suffix of the same resource; a numeric identifier never collides with
    a list key. *)
Theorem entity_key_meets_list_key_only_by_spelling
    (r1 r2 : string) (i : CacheKeyBuilder.Identifier)
    (p : option CacheKeyBuilder.ListParams) :
  Spec.no_colon r1 = true -> Spec.no_colon r2 = true ->
  (CacheKeyBuilder.build r1 i = CacheKeyBuilder.buildList r2 p
   <-> r1 = r2 /\ i = CacheKeyBuilder.IdString (Props.list_suffix p)).
Proof.
  intros H1 H2. rewrite build_as_prefix, buildList_as_prefix. split.
  - intros E. simpl in E. injection E as E.
    destruct (split_at_colon _ _ _ _ H1 H2 E) as [-> Es].
    split; [reflexivity|].
    destruct i as [s|n]; simpl in Es; [now subst|].
    exfalso. unfold Props.list_suffix in Es.
    destruct (number_toString_head n) as (c & t & En & Hc).
    rewrite En in Es. simpl in Es. injection Es as -> _. discriminate.
  - now intros [-> ->].
Qed.

Lemma entity_key_meets_list_key_only_by_spelling_witness :
  CacheKeyBuilder.build "users" (CacheKeyBuilder.IdNumber 1)
  <> CacheKeyBuilder.buildList "users" None.
Proof.
  intros E.
  apply (entity_key_meets_list_key_only_by_spelling "users" "users") in E;
    [|reflexivity|reflexivity].
  destruct E as [_ E]. discriminate.
Defined.

(** X3.  The pattern of a resource selects the keys of that resource.
    For a resource without glob metacharacters, the glob
    [pattern(resource)] matches exactly the strings that start with
    [app:v1:resource:], hence every key [build] and [buildList] return
    for it.  When, in addition, neither that resource nor another one
    contains the separator [:], no key built for the other resource is
    matched.  (A resource with a [:] in it also selects keys of others:
    [pattern("a:b")] matches [build("a", "b:c")].) *)
Theorem pattern_selects_its_resource
    (r r' : string) (i : CacheKeyBuilder.Identifier)
    (p : option CacheKeyBuilder.ListParams) :
  Props.glob_plain r = true ->
  RedisModel.glob_match (CacheKeyBuilder.pattern r None)
    (CacheKeyBuilder.build r i) = true
  /\ RedisModel.glob_match (CacheKeyBuilder.pattern r None)
       (CacheKeyBuilder.buildList r p) = true
  /\ (Spec.no_colon r = true -> Spec.no_colon r' = true ->
      RedisModel.glob_match (CacheKeyBuilder.pattern r None)
        (CacheKeyBuilder.build r' i) = true
      \/ RedisModel.glob_match (CacheKeyBuilder.pattern r None)
           (CacheKeyBuilder.buildList r' p) = true ->
      r = r')
  /\ (forall key,
        RedisModel.glob_match (CacheKeyBuilder.pattern r None) key = true
        <-> exists rest, key = "app:v1:" ++ r ++ ":" ++ rest).
Proof.
  intros Hr.
  assert (Hplain : Props.glob_plain ("app:v1:" ++ r ++ ":") = true).
  { simpl. clear -Hr. induction r as [|c r IH]; [reflexivity|].
    simpl in Hr |- *. apply andb_prop in Hr as [-> Hr]. simpl. now apply IH. }
  assert (Hpat : CacheKeyBuilder.pattern r None = ("app:v1:" ++ r ++ ":") ++ "*").
  { rewrite pattern_as_prefix. now rewrite !append_assoc. }
  assert (Hkey : forall r0 s, "app:v1:" ++ r0 ++ ":" ++ s = ("app:v1:" ++ r0 ++ ":") ++ s).
  { intros. now rewrite !append_assoc. }
  rewrite Hpat, build_as_prefix, buildList_as_prefix.
  split; [|split; [|split]].
  - apply (glob_plain_prefix _ "*" _ Hplain). rewrite Hkey.
    eexists. split; [reflexivity|apply glob_star_all].
  - apply (glob_plain_prefix _ "*" _ Hplain). rewrite Hkey.
    eexists. split; [reflexivity|apply glob_star_all].
  - intros Hc Hc' [G|G]; rewrite ?build_as_prefix, ?buildList_as_prefix in G;
      apply (glob_plain_prefix _ "*" _ Hplain) in G; destruct G as (s' & E & _);
      simpl in E; injection E as E; rewrite append_assoc in E;
      symmetry; now destruct (split_at_colon _ _ _ _ Hc' Hc E).
  - intros key. rewrite (glob_plain_prefix _ "*" key Hplain). split.
    + intros (rest & -> & _). exists rest. now rewrite Hkey.
    + intros (rest & ->). exists rest. rewrite Hkey.
      split; [reflexivity|apply glob_star_all].
Qed.

Lemma pattern_selects_its_resource_witness :
  RedisModel.glob_match (CacheKeyBuilder.pattern "user" None)
    (CacheKeyBuilder.build "user" (CacheKeyBuilder.IdString "42")) = true.
Proof.
  destruct (pattern_selects_its_resource "user" "users"
              (CacheKeyBuilder.IdString "42") None eq_refl) as (G & _).
  exact G.
Defined.

(** X4.  The key of [findOne] depends on the route parameter [id] only,
    never on the query string, and two requests share a key exactly when
    their ids are the same text. *)
Theorem findOne_key_is_the_id
    (params1 params2 query1 query2 : gmap string string) (id1 id2 : string) :
  params1 !! "id" = Some id1 -> params2 !! "id" = Some id2 ->
  CacheInterceptor.keyBuilder UsersController.findOne_policy params1 query1
  = "app:v1:user:" ++ id1
  /\ (CacheInterceptor.keyBuilder UsersController.findOne_policy params1 query1
      = CacheInterceptor.keyBuilder UsersController.findOne_policy params2 query2
      <-> id1 = id2).
Proof.
  intros E1 E2. unfold UsersController.findOne_policy. simpl.
  rewrite E1, E2. simpl. split; [reflexivity|].
  rewrite !build_as_prefix. simpl. split.
  - now intros [= ->].
  - now intros ->.
Qed.

Lemma findOne_key_is_the_id_witness :
  CacheInterceptor.keyBuilder UsersController.findOne_policy
    {[ "id" := "42" ]} {[ "page" := "9" ]}
  = "app:v1:user:42".
Proof.
  refine (proj1 (findOne_key_is_the_id {[ "id" := "42" ]} {[ "id" := "42" ]}
                   {[ "page" := "9" ]} ∅ "42" "42" _ _));
    vm_compute; reflexivity.
Defined.

(* ===================================================================== *)
(** * More on the resilient client *)
(* ===================================================================== *)

(** X5.  The reconnect delay grows by 50 ms per attempt and is capped:
    from the first attempt on it lies between 50 and 2000, equals
    [50 * times] up to the 40th attempt and 2000 from there on, and never
    decreases with the attempt number. *)
Theorem retry_backoff_is_linear_then_capped (times : Z) :
  1 <= times ->
  50 <= RedisService.retryStrategy times <= 2000
  /\ (times <= 40 -> RedisService.retryStrategy times = 50 * times)
  /\ (40 <= times -> RedisService.retryStrategy times = 2000)
  /\ (forall later, times <= later ->
        RedisService.retryStrategy times <= RedisService.retryStrategy later).
Proof. unfold RedisService.retryStrategy. intros H. repeat split; intros; lia. Qed.

Lemma retry_backoff_is_linear_then_capped_witness :
  RedisService.retryStrategy 7 = 50 * 7.
Proof.
  destruct (retry_backoff_is_linear_then_capped 7) as (_ & E & _); [lia|].
  apply E. lia.
Defined.

(** X6.  The health flag is the memory of the last lifecycle event: after
    any sequence of [connect], [error] and [close] events the service is
    healthy exactly when the last one was [connect] (and as before when
    there was none), and the raw client is the same object throughout. *)
Theorem health_is_the_last_lifecycle_event {B : Type}
    (evs : list RedisService.ConnectionEvent) (s : Runtime.RedisState B) :
  Runtime.client (Props.after_events evs s) = Runtime.client s
  /\ Runtime.isConnected (Props.after_events evs s)
     = match last evs with
       | Some RedisService.connect => true
       | Some _ => false
       | None => Runtime.isConnected s
       end.
Proof.
  unfold Props.after_events.
  induction evs as [|ev evs IH] using rev_ind; [auto|].
  rewrite fold_left_app, last_snoc. simpl. destruct IH as [IH _].
  destruct ev; simpl; auto.
Qed.

Section ServiceMore.
Import Runtime Spec Props.
Context {B D : Type} `{RedisClient B}.
Implicit Type w : World B D.

Lemma events_after_call (c : Command) (b' : B) w :
  events_since w (after_call c b' w) = [RedisCall c].
Proof. unfold after_call. apply events_since_app. Qed.

Lemma del_world k w :
  snd (RedisService.del k w) =
    if isConnected (redis w)
    then let ks := match k with inl key => [key] | inr keys => keys end in
         after_call (DEL ks) (snd (ioredis_del ks (client (redis w)))) w
    else w.
Proof.
  destruct (isConnected (redis w)) eqn:Hc.
  - now rewrite del_healthy.
  - now rewrite del_unhealthy.
Qed.
End ServiceMore.

(** X7.  While healthy, each operation of the client makes exactly one call
    on the raw client: [get] sends [GET key]; [set] sends
    [SETEX key ttl value] when a non-zero TTL is given and [SET key value]
    otherwise; [del] sends one [DEL] with the key or with all the keys of
    the array; [keys] sends [KEYS pattern].  [get] and [keys] hand back
    what the raw call resolved with. *)
Theorem healthy_operations_make_one_call {B D : Type} `{Runtime.RedisClient B}
    (w : Runtime.World B D) :
  Runtime.isConnected (Runtime.redis w) = true ->
  let b := Runtime.client (Runtime.redis w) in
  (forall key,
      Runtime.events_since w (snd (RedisService.get key w))
      = [Runtime.RedisCall (Runtime.GET key)]
      /\ (forall v, fst (Runtime.ioredis_get key b) = Js.Ret v ->
                    fst (RedisService.get key w) = Js.Ret v))
  /\ (forall key value ttl,
        Runtime.events_since w (snd (RedisService.set key value ttl w))
        = [Runtime.RedisCall
             match ttl with
             | Some seconds =>
                 if (seconds =? 0)%Z then Runtime.SET key value
                 else Runtime.SETEX key seconds value
             | None => Runtime.SET key value
             end])
  /\ (forall key,
        Runtime.events_since w (snd (RedisService.del (inl key) w))
        = [Runtime.RedisCall (Runtime.DEL [key])])
  /\ (forall keys,
        Runtime.events_since w (snd (RedisService.del (inr keys) w))
        = [Runtime.RedisCall (Runtime.DEL keys)])
  /\ (forall p,
        Runtime.events_since w (snd (RedisService.keys p w))
        = [Runtime.RedisCall (Runtime.KEYS p)]
        /\ (forall ks, fst (Runtime.ioredis_keys p b) = Js.Ret ks ->
                       fst (RedisService.keys p w) = Js.Ret ks)).
Proof.
  intros Hc b. subst b. repeat apply conj.
  - intros key. rewrite get_healthy by assumption. simpl.
    split; [apply events_after_call|]. now intros v ->.
  - intros key value [seconds|].
    + destruct (Z.eqb_spec seconds 0) as [->|Hs].
      * rewrite set_healthy_plain by auto. apply events_after_call.
      * rewrite set_healthy_setex by auto. apply events_after_call.
    + rewrite set_healthy_plain by auto. apply events_after_call.
  - intros key. rewrite (del_healthy w (inl key)) by assumption.
    apply events_after_call.
  - intros keys. rewrite (del_healthy w (inr keys)) by assumption.
    apply events_after_call.
  - intros p. rewrite keys_healthy by assumption. simpl.
    split; [apply events_after_call|]. now intros ks ->.
Qed.

Lemma healthy_operations_make_one_call_witness :
  Runtime.events_since (Scenario.world RedisModel.empty true tt)
    (snd (RedisService.set "k" "v" (Some 60)
            (Scenario.world RedisModel.empty true tt)))
  = [Runtime.RedisCall (Runtime.SETEX "k" 60 "v")].
Proof.
  destruct (healthy_operations_make_one_call
              (Scenario.world RedisModel.empty true tt) eq_refl)
    as (_ & E & _).
  exact (E "k" "v" (Some 60)).
Defined.

Section ModelMore.
Import Runtime Spec Props.
Context {D : Type}.
Implicit Type w : World RedisModel.t D.

Lemma model_set_plain_client key value ttl w :
  ttl = None \/ ttl = Some 0 ->
  client (redis (snd (RedisService.set key value ttl w))) =
    if isConnected (redis w) && RedisModel.up (client (redis w))
    then RedisModel.with_store (client (redis w))
           (<[key := RedisModel.mkEntry value None]> (RedisModel.store (client (redis w))))
    else client (redis w).
Proof.
  intros Ht. destruct (isConnected (redis w)) eqn:Hc.
  - rewrite set_healthy_plain by auto. simpl.
    unfold RedisModel.set, RedisModel.unreachable.
    now destruct (RedisModel.up (client (redis w))).
  - now rewrite set_unhealthy.
Qed.

Lemma model_del_client key w :
  client (redis (snd (RedisService.del (inl key) w))) =
    if isConnected (redis w) && RedisModel.up (client (redis w))
    then RedisModel.with_store (client (redis w))
           (delete key (RedisModel.store (client (redis w))))
    else client (redis w).
Proof.
  rewrite del_world. destruct (isConnected (redis w)); [|reflexivity]. simpl.
  unfold RedisModel.del, RedisModel.unreachable.
  destruct (RedisModel.up (client (redis w))); [|reflexivity]. simpl.
  now destruct (RedisModel.lookup_live key (client (redis w))).
Qed.

Lemma del_connected k (w : World RedisModel.t D) :
  isConnected (redis (snd (RedisService.del k w))) = isConnected (redis w).
Proof.
  rewrite del_world. destruct (isConnected (redis w)) eqn:Hc; simpl; auto.
Qed.

Lemma cached_elapse key seconds w :
  cached key (elapse seconds w) =
    match RedisModel.store (client (redis w)) !! key with
    | Some e =>
        if RedisModel.live (RedisModel.now (client (redis w)) + seconds) e
        then Some (RedisModel.value e) else None
    | None => None
    end.
Proof. reflexivity. Qed.
End ModelMore.

(** X8.  Through the client, against the reference server, a value comes
    back as it was stored until its TTL has passed: after
    [set(key, value, ttl)] with a positive TTL, [get(key)] resolves with
    [value] while fewer than [ttl] seconds have passed and with [null]
    from then on; a value stored without TTL does not expire; [del]
    removes it; and other keys are read as before the write. *)
Theorem value_comes_back_until_its_ttl {D : Type}
    (w : Runtime.World RedisModel.t D) (key value : string) (ttl dt : Z) :
  Runtime.isConnected (Runtime.redis w) = true ->
  RedisModel.up (Runtime.client (Runtime.redis w)) = true ->
  (0 < ttl)%Z ->
  let stored := snd (RedisService.set key value (Some ttl) w) in
  fst (RedisService.get key (Props.elapse dt stored))
  = Js.Ret (if (dt <? ttl)%Z then Some value else None)
  /\ fst (RedisService.get key
            (Props.elapse dt (snd (RedisService.set key value None w))))
     = Js.Ret (Some value)
  /\ fst (RedisService.get key (snd (RedisService.del (inl key) stored)))
     = Js.Ret None
  /\ (forall other, other <> key ->
        fst (RedisService.get other stored) = fst (RedisService.get other w)).
Proof.
  intros Hc Hup Httl. cbv zeta.
  set (r := Runtime.client (Runtime.redis w)) in *.
  destruct (set_frame key value ttl w) as (_ & _ & Hc1).
  assert (Hclient := model_set_client key value ttl w Httl).
  fold r in Hclient. rewrite Hc, Hup in Hclient. simpl in Hclient.
  set (stored := snd (RedisService.set key value (Some ttl) w)) in *.
  repeat apply conj.
  - rewrite model_get_result. simpl. rewrite Hc1, Hc, Hclient. simpl. rewrite Hup.
    simpl. rewrite cached_elapse, Hclient. simpl.
    rewrite lookup_insert_eq. unfold RedisModel.live. simpl.
    destruct (Z.ltb_spec dt ttl), (Z.ltb_spec (RedisModel.now r + dt) (RedisModel.now r + ttl));
      try reflexivity; lia.
  - rewrite model_get_result. simpl.
    assert (Hp := model_set_plain_client key value None w (or_introl eq_refl)).
    fold r in Hp. rewrite Hc, Hup in Hp. simpl in Hp.
    rewrite set_healthy_plain by auto. simpl.
    rewrite Hc. unfold RedisModel.set. fold r. rewrite Hup. simpl. rewrite Hup. simpl.
    unfold Spec.cached, Props.elapse, RedisModel.lookup_live. simpl.
    now rewrite lookup_insert_eq.
  - rewrite model_get_result, del_connected, Hc1, Hc.
    unfold Spec.cached. rewrite model_del_client, Hc1, Hc, Hclient. simpl.
    rewrite Hup. simpl. rewrite Hup. unfold RedisModel.lookup_live. simpl.
    now rewrite lookup_delete_eq.
  - intros other Hne. rewrite !model_get_result.
    rewrite Hc1, Hc, Hclient. simpl. fold r. rewrite Hup.
    unfold Spec.cached, RedisModel.lookup_live. rewrite Hclient. simpl. fold r.
    now rewrite lookup_insert_ne by congruence.
Qed.

Lemma value_comes_back_until_its_ttl_witness :
  fst (RedisService.get "k"
         (Props.elapse 60
            (snd (RedisService.set "k" "v" (Some 60)
                    (Scenario.world RedisModel.empty true tt)))))
  = Js.Ret None.
Proof.
  destruct (value_comes_back_until_its_ttl
              (Scenario.world RedisModel.empty true tt) "k" "v" 60 60
              eq_refl eq_refl) as (E & _); [lia|].
  exact E.
Defined.

(* ===================================================================== *)
(** * More on the interceptor, over any platform and any backend *)
(* ===================================================================== *)

Section InterceptorMore.
Import Runtime Spec Props CacheInterceptor.
Context {V : Type} `{JsPlatform V} {B D : Type} `{RedisClient B}.
Implicit Type w : World B D.

(** When the lookup cannot produce a usable payload. *)
Lemma lookup_fails_is_a_miss key w :
  isConnected (redis w) = false
  \/ (exists e, fst (ioredis_get key (client (redis w))) = Throw e)
  \/ fst (ioredis_get key (client (redis w))) = Ret None
  \/ fst (ioredis_get key (client (redis w))) = Ret (Some "") ->
  exists o, fst (RedisService.get key w) = Ret o /\ truthy_str o = false.
Proof.
  rewrite get_result. intros Hcase.
  destruct (isConnected (redis w)); [|now exists None].
  destruct Hcase as [Hc|[[e He]|[He|He]]]; try discriminate; rewrite He; eauto.
Qed.

Lemma intercept_miss_db cfg req next w o :
  fst (RedisService.get (cache_key cfg req) w) = Ret o -> truthy_str o = false ->
  fst (intercept (Some cfg) req next w) = fst (next (db w))
  /\ db (snd (intercept (Some cfg) req next w)) = snd (next (db w)).
Proof.
  intros Hg Ho. rewrite (intercept_miss _ _ _ _ o Hg Ho). cbv zeta.
  destruct (get_frame (cache_key cfg req) w) as (_ & Hd & _ & _).
  rewrite Hd. destruct (fst (next (db w))) as [data|e] eqn:Hn; simpl.
  - split; [reflexivity|]. destruct (truthy data); simpl.
    + destruct (set_frame (cache_key cfg req) (JSON_stringify data) (ttl cfg)
                  (after_handler next (snd (RedisService.get (cache_key cfg req) w))))
        as (_ & -> & _).
      simpl. now rewrite Hd.
    + now rewrite Hd.
  - now rewrite Hd.
Qed.

Lemma intercept_connected cacheConfig req next w :
  isConnected (redis (snd (intercept cacheConfig req next w))) = isConnected (redis w).
Proof.
  destruct cacheConfig as [cfg|]; [|now rewrite intercept_unbound].
  destruct (get_resolves (cache_key cfg req) w) as [o Ho].
  destruct (get_frame (cache_key cfg req) w) as (_ & _ & Hc & _).
  destruct (truthy_str o) eqn:Ht.
  - destruct o as [s|]; [|discriminate].
    rewrite (intercept_hit _ _ _ _ s Ho); [exact Hc|]. intros ->. discriminate.
  - rewrite (intercept_miss _ _ _ _ o Ho Ht). cbv zeta.
    destruct (fst (next _)) as [data|e]; simpl; [|exact Hc].
    destruct (truthy data); [|exact Hc].
    destruct (set_frame (cache_key cfg req) (JSON_stringify data) (ttl cfg)
                (after_handler next (snd (RedisService.get (cache_key cfg req) w))))
      as (_ & _ & ->).
    exact Hc.
Qed.

(** The events of any run of the interceptor. *)
Lemma intercept_events cacheConfig req next w :
  let evs := events_since w (snd (intercept cacheConfig req next w)) in
  match cacheConfig with
  | None => evs = [HandlerCall]
  | Some cfg =>
      (isConnected (redis w) = true /\ evs = [RedisCall (GET (cache_key cfg req))])
      \/ evs = miss_events (isConnected (redis w)) cfg (cache_key cfg req)
                 (fst (next (db w)))
  end.
Proof.
  cbv zeta. destruct cacheConfig as [cfg|].
  - destruct (get_resolves (cache_key cfg req) w) as [o Ho].
    destruct (truthy_str o) eqn:Ht.
    + destruct o as [s|]; [|discriminate]. left. split.
      * rewrite get_result in Ho. now destruct (isConnected (redis w)).
      * apply (intercept_hit_frame cfg req next w s Ho). intros ->. discriminate.
    + right. apply (intercept_miss_events cfg req next w o Ho Ht).
  - rewrite intercept_unbound. unfold after_handler. apply events_since_app.
Qed.
End InterceptorMore.

(** X9.  Whenever the lookup yields nothing usable (the client is
    unhealthy, the raw [GET] rejects, or it resolves with [null] or with
    the empty string), and whenever no policy is bound, the response is
    exactly what the handler did on the data as it was: its value or its
    rejection, with the handler's effect on the data store and nothing
    else.  This holds whatever the backend does with the write that
    follows, and a handler that rejects leaves no write behind. *)
Theorem response_of_a_miss_is_the_handlers
    {V : Type} `{Runtime.JsPlatform V} {B D : Type} `{Runtime.RedisClient B}
    (cfg : CacheInterceptor.CacheConfig) (req : CacheInterceptor.Request)
    (next : D -> Js.Outcome V * D) (w : Runtime.World B D) :
  let key := Spec.cache_key cfg req in
  let b := Runtime.client (Runtime.redis w) in
  (Runtime.isConnected (Runtime.redis w) = false
   \/ (exists e, fst (Runtime.ioredis_get key b) = Js.Throw e)
   \/ fst (Runtime.ioredis_get key b) = Js.Ret None
   \/ fst (Runtime.ioredis_get key b) = Js.Ret (Some "") ->
   let w' := snd (CacheInterceptor.intercept (Some cfg) req next w) in
   fst (CacheInterceptor.intercept (Some cfg) req next w) = fst (next (Runtime.db w))
   /\ Runtime.db w' = snd (next (Runtime.db w))
   /\ Spec.handler_called w w' = true
   /\ (forall e, fst (next (Runtime.db w)) = Js.Throw e -> Spec.wrote w w' = false))
  /\ (let w' := snd (CacheInterceptor.intercept None req next w) in
      fst (CacheInterceptor.intercept None req next w) = fst (next (Runtime.db w))
      /\ Runtime.db w' = snd (next (Runtime.db w))
      /\ Runtime.events_since w w' = [Runtime.HandlerCall]).
Proof.
  cbv zeta. split.
  - intros Hcase.
    destruct (lookup_fails_is_a_miss _ w Hcase) as (o & Hg & Ho).
    destruct (intercept_miss_db cfg req next w o Hg Ho) as (Hr & Hd).
    destruct (intercept_miss_events cfg req next w o Hg Ho) as (Hev & Hh).
    repeat split; auto.
    intros e He. unfold Spec.wrote. rewrite Hev, He. unfold Spec.miss_events.
    now destruct (Runtime.isConnected (Runtime.redis w)).
  - rewrite intercept_unbound. simpl. repeat split.
    unfold Spec.after_handler. apply events_since_app.
Qed.

Lemma response_of_a_miss_is_the_handlers_witness :
  fst (CacheInterceptor.intercept (Some UsersController.findOne_policy)
         (Scenario.request_user "42")
         (Scenario.rejects (Js.HandlerError "not found"))
         (Scenario.world Scenario.warm_server false tt))
  = Js.Throw (Js.HandlerError "not found").
Proof.
  destruct (response_of_a_miss_is_the_handlers
              UsersController.findOne_policy (Scenario.request_user "42")
              (Scenario.rejects (V:=Js.Value) (Js.HandlerError "not found"))
              (Scenario.world Scenario.warm_server false tt)) as (T & _).
  destruct (T (or_introl eq_refl)) as (E & _). exact E.
Defined.

(** X10.  One request costs at most one lookup and one write: the
    interceptor invokes the handler at most once and calls the raw client
    at most twice, only with a [GET], [SET] or [SETEX] of the key derived
    for the request; it makes no call at all when no policy is bound or
    the client is unhealthy, and it never changes the health flag. *)
Theorem interceptor_traffic_is_bounded
    {V : Type} `{Runtime.JsPlatform V} {B D : Type} `{Runtime.RedisClient B}
    (cacheConfig : option CacheInterceptor.CacheConfig)
    (req : CacheInterceptor.Request)
    (next : D -> Js.Outcome V * D) (w : Runtime.World B D) :
  let w' := snd (CacheInterceptor.intercept cacheConfig req next w) in
  let evs := Runtime.events_since w w' in
  (Props.count_handler_calls evs <= 1)%nat
  /\ (Props.count_redis_calls evs <= 2)%nat
  /\ (forall cfg, cacheConfig = Some cfg ->
        forallb (Props.lookup_or_write_of (Spec.cache_key cfg req)) evs = true)
  /\ (cacheConfig = None \/ Runtime.isConnected (Runtime.redis w) = false ->
      Props.count_redis_calls evs = 0%nat)
  /\ Runtime.isConnected (Runtime.redis w') = Runtime.isConnected (Runtime.redis w).
Proof.
  cbv zeta. pose proof (intercept_events cacheConfig req next w) as Hev.
  cbv zeta in Hev.
  set (evs := Runtime.events_since w
                (snd (CacheInterceptor.intercept cacheConfig req next w))) in *.
  assert (Hshape :
    (cacheConfig = None /\ evs = [Runtime.HandlerCall])
    \/ exists cfg, cacheConfig = Some cfg /\
         let key := Spec.cache_key cfg req in
         (Runtime.isConnected (Runtime.redis w) = true
          /\ (evs = [Runtime.RedisCall (Runtime.GET key)]
              \/ evs = [Runtime.RedisCall (Runtime.GET key); Runtime.HandlerCall]
              \/ (exists v, evs = [Runtime.RedisCall (Runtime.GET key);
                                   Runtime.HandlerCall;
                                   Runtime.RedisCall (Runtime.SET key v)])
              \/ (exists v, evs = [Runtime.RedisCall (Runtime.GET key);
                                   Runtime.HandlerCall;
                                   Runtime.RedisCall
                                     (Runtime.SETEX key (CacheInterceptor.ttl cfg) v)])))
         \/ (Runtime.isConnected (Runtime.redis w) = false
             /\ evs = [Runtime.HandlerCall])).
  { destruct cacheConfig as [cfg|]; [right|left; auto].
    exists cfg. split; [reflexivity|]. cbv zeta.
    destruct Hev as [[Hc ->] | ->]; [left; auto|].
    unfold Spec.miss_events.
    destruct (Runtime.isConnected (Runtime.redis w)) eqn:Hc; [left|right];
      (split; [reflexivity|]);
      destruct (fst (next (Runtime.db w))) as [data|e]; simpl; auto;
      destruct (Runtime.truthy data); simpl; auto.
    destruct (CacheInterceptor.ttl cfg =? 0)%Z; eauto 6. }
  clearbody evs.
  split; [|split; [|split; [|split; [|apply intercept_connected]]]].
  - destruct Hshape as [[_ ->] | (cfg & _ & [[_ Hs] | [_ ->]])]; [cbn; lia| |cbn; lia].
    destruct Hs as [-> | [-> | [[v ->] | [v ->]]]]; cbn; lia.
  - destruct Hshape as [[_ ->] | (cfg & _ & [[_ Hs] | [_ ->]])]; [cbn; lia| |cbn; lia].
    destruct Hs as [-> | [-> | [[v ->] | [v ->]]]]; cbn; lia.
  - intros cfg0 Hcfg.
    destruct Hshape as [[Hn _] | (cfg & Hcfg' & Hs)]; [congruence|].
    rewrite Hcfg in Hcfg'. injection Hcfg' as <-. cbv zeta in Hs.
    destruct Hs as [[_ Hs] | [_ ->]]; [|reflexivity].
    destruct Hs as [-> | [-> | [[v ->] | [v ->]]]]; cbn;
      rewrite ?String.eqb_refl; reflexivity.
  - intros Hcase.
    destruct Hshape as [[_ ->] | (cfg & Hcfg & [[Hc _] | [_ ->]])];
      [reflexivity| |reflexivity].
    destruct Hcase; congruence.
Qed.

Lemma interceptor_traffic_is_bounded_witness :
  Props.count_redis_calls
    (Runtime.events_since (Scenario.world Scenario.warm_server false tt)
       (snd (CacheInterceptor.intercept (Some UsersController.findOne_policy)
               (Scenario.request_user "42") (Scenario.resolves Scenario.ann)
               (Scenario.world Scenario.warm_server false tt))))
  = 0%nat.
Proof.
  destruct (interceptor_traffic_is_bounded
              (Some UsersController.findOne_policy) (Scenario.request_user "42")
              (Scenario.resolves Scenario.ann)
              (Scenario.world Scenario.warm_server false tt))
    as (_ & _ & _ & E & _).
  apply E. right. reflexivity.
Defined.

(* ===================================================================== *)
(** * More on the interceptor in front of the reference server *)
(* ===================================================================== *)

Section TraceMore.
Import Runtime Spec Props CacheInterceptor.
Context {V : Type} `{JsPlatform V} {B D : Type} `{RedisClient B}.
Implicit Type w : World B D.

Lemma set_trace key value seconds w :
  exists evs, trace (snd (RedisService.set key value (Some seconds) w))
              = (trace w ++ evs)%list.
Proof.
  rewrite set_world. destruct (isConnected (redis w)).
  - destruct (seconds =? 0)%Z; simpl; eauto.
  - exists []. now rewrite app_nil_r.
Qed.

(** The trace only grows. *)
Lemma intercept_trace cacheConfig req next w :
  trace (snd (intercept cacheConfig req next w))
  = (trace w ++ events_since w (snd (intercept cacheConfig req next w)))%list.
Proof.
  assert (Hgen : forall w' evs, trace w' = (trace w ++ evs)%list ->
                   trace w' = (trace w ++ events_since w w')%list).
  { intros w' evs E. now rewrite (events_since_trace w w' evs E). }
  destruct cacheConfig as [cfg|].
  - destruct (get_resolves (cache_key cfg req) w) as [o Ho].
    destruct (get_frame (cache_key cfg req) w) as (_ & _ & _ & Ht).
    destruct (truthy_str o) eqn:Hto.
    + destruct o as [s|]; [|discriminate].
      rewrite (intercept_hit _ _ _ _ s Ho) by (intros ->; discriminate).
      simpl. eapply Hgen, Ht.
    + rewrite (intercept_miss _ _ _ _ o Ho Hto). cbv zeta.
      destruct (fst (next _)) as [data|e].
      * destruct (truthy data).
        -- destruct (set_trace (cache_key cfg req) (JSON_stringify data) (ttl cfg)
                       (after_handler next (snd (RedisService.get (cache_key cfg req) w))))
             as [evs E].
           eapply Hgen. simpl. rewrite E. simpl. rewrite Ht, <- !app_assoc. reflexivity.
        -- eapply Hgen. simpl. rewrite Ht, <- !app_assoc. reflexivity.
      * eapply Hgen. simpl. rewrite Ht, <- !app_assoc. reflexivity.
  - rewrite intercept_unbound. eapply Hgen. reflexivity.
Qed.

Lemma events_since_compose w w1 w2 :
  trace w1 = (trace w ++ events_since w w1)%list ->
  trace w2 = (trace w1 ++ events_since w1 w2)%list ->
  events_since w w2 = (events_since w w1 ++ events_since w1 w2)%list
  /\ trace w2 = (trace w ++ events_since w w2)%list.
Proof.
  intros E1 E2.
  assert (E : trace w2 = (trace w ++ events_since w w1 ++ events_since w1 w2)%list).
  { rewrite E2, E1 at 1. now rewrite <- app_assoc. }
  rewrite (events_since_trace w w2 _ E). auto.
Qed.

Lemma serve_trace (reqs : list (Incoming V D)) w :
  trace (snd (serve reqs w)) = (trace w ++ events_since w (snd (serve reqs w)))%list.
Proof.
  revert w. induction reqs as [|[[cfg req] next] reqs IH]; intros w.
  - simpl. rewrite events_since_refl. now rewrite app_nil_r.
  - simpl. destruct (intercept cfg req next w) as [o w1] eqn:E1.
    destruct (serve reqs w1) as [os w2] eqn:E2. simpl.
    pose proof (intercept_trace cfg req next w) as T1. rewrite E1 in T1. simpl in T1.
    pose proof (IH w1) as T2. rewrite E2 in T2. simpl in T2.
    now destruct (events_since_compose w w1 w2 T1 T2).
Qed.
End TraceMore.

Section ModelInterceptMore.
Import Runtime Spec Props CacheInterceptor.
Context {V : Type} `{JsPlatform V} {D : Type}.
Implicit Type w : World RedisModel.t D.

(** What a request does to the reference server: the clock and the switch
    stay, the counters may move, and the store is as before or has one new
    entry under the derived key, holding the serialized truthy result of
    the handler. *)
Lemma model_intercept_store cfg req next w :
  let r := client (redis w) in
  let r' := client (redis (snd (intercept (Some cfg) req next w))) in
  RedisModel.now r' = RedisModel.now r
  /\ RedisModel.up r' = RedisModel.up r
  /\ (RedisModel.store r' = RedisModel.store r
      \/ exists data expiry,
           fst (next (db w)) = Ret data /\ truthy data = true
           /\ RedisModel.store r'
              = <[cache_key cfg req := RedisModel.mkEntry (JSON_stringify data) expiry]>
                  (RedisModel.store r)).
Proof.
  cbv zeta. set (key := cache_key cfg req).
  destruct (get_resolves key w) as [o Ho].
  destruct (model_get_stable key w) as (Hup & Hst & Hnow).
  destruct (get_frame (B:=RedisModel.t) key w) as (_ & Hd & _ & _).
  destruct (truthy_str o) eqn:Hto.
  - destruct o as [s|]; [|discriminate].
    rewrite (intercept_hit _ _ _ _ s Ho) by (intros ->; discriminate). simpl.
    fold key. tauto.
  - rewrite (intercept_miss _ _ _ _ o Ho Hto). cbv zeta. fold key. rewrite Hd.
    destruct (fst (next (db w))) as [data|e] eqn:Hn; simpl; [|tauto].
    destruct (truthy data) eqn:Htd; [|simpl; tauto].
    rewrite set_world. simpl.
    destruct (isConnected (redis (snd (RedisService.get key w)))); [|simpl; tauto].
    destruct (ttl cfg =? 0)%Z; simpl.
    + unfold RedisModel.set, RedisModel.unreachable.
      destruct (RedisModel.up (client (redis (snd (RedisService.get key w))))) eqn:Hu;
        simpl; [|rewrite Hu; tauto].
      split; [congruence|]. split; [congruence|]. right. exists data, None.
      rewrite Hst. auto.
    + unfold RedisModel.setex, RedisModel.unreachable.
      destruct (RedisModel.up (client (redis (snd (RedisService.get key w))))) eqn:Hu;
        simpl; [|rewrite Hu; tauto].
      destruct (ttl cfg <=? 0)%Z; simpl; [rewrite Hu; tauto|].
      split; [congruence|]. split; [congruence|]. right. eexists data, _.
      rewrite Hst. auto.
Qed.
End ModelInterceptMore.

(** X11.  A request leaves every other key of the cache alone: whatever
    the state of the client and of the server, after a request the server
    holds under every key other than the one derived for the request
    exactly what it held before. *)
Theorem other_keys_are_left_alone
    {V : Type} `{Runtime.JsPlatform V} {D : Type}
    (cacheConfig : option CacheInterceptor.CacheConfig)
    (req : CacheInterceptor.Request)
    (next : D -> Js.Outcome V * D) (w : Runtime.World RedisModel.t D)
    (other : string) :
  (forall cfg, cacheConfig = Some cfg -> other <> Spec.cache_key cfg req) ->
  let w' := snd (CacheInterceptor.intercept cacheConfig req next w) in
  RedisModel.store (Runtime.client (Runtime.redis w')) !! other
  = RedisModel.store (Runtime.client (Runtime.redis w)) !! other
  /\ Spec.cached other w' = Spec.cached other w.
Proof.
  intros Hother. cbv zeta.
  assert (E : RedisModel.store (Runtime.client (Runtime.redis
                (snd (CacheInterceptor.intercept cacheConfig req next w)))) !! other
              = RedisModel.store (Runtime.client (Runtime.redis w)) !! other
              /\ RedisModel.now (Runtime.client (Runtime.redis
                   (snd (CacheInterceptor.intercept cacheConfig req next w))))
                 = RedisModel.now (Runtime.client (Runtime.redis w))).
  { destruct cacheConfig as [cfg|]; [|now rewrite intercept_unbound].
    destruct (model_intercept_store cfg req next w) as (Hnow & _ & Hst).
    split; [|exact Hnow].
    destruct Hst as [-> | (data & expiry & _ & _ & ->)]; [reflexivity|].
    apply lookup_insert_ne. intros E. now apply (Hother cfg eq_refl). }
  destruct E as [Est Enow]. split; [exact Est|].
  unfold Spec.cached, RedisModel.lookup_live. now rewrite Est, Enow.
Qed.

Lemma other_keys_are_left_alone_witness :
  Spec.cached "app:v1:user:42"
    (snd (CacheInterceptor.intercept (Some UsersController.findOne_policy)
            (Scenario.request_user "7") (Scenario.resolves Js.Null)
            (Scenario.world Scenario.warm_server true tt)))
  = Spec.cached "app:v1:user:42" (Scenario.world Scenario.warm_server true tt).
Proof.
  refine (proj2 (other_keys_are_left_alone
                   (Some UsersController.findOne_policy) (Scenario.request_user "7")
                   (Scenario.resolves Js.Null)
                   (Scenario.world Scenario.warm_server true tt)
                   "app:v1:user:42" _)).
  intros cfg [= <-]. vm_compute. discriminate.
Defined.

(* ===================================================================== *)
(** * A cached result over time *)
(* ===================================================================== *)

Section Populate.
Import Runtime Spec Props CacheInterceptor.
Context {V : Type} `{JsPlatform V} {D : Type}.
Implicit Type w : World RedisModel.t D.

(** A lookup that finds nothing on a healthy client in front of a
    reachable server. *)
Lemma model_get_nothing key w :
  isConnected (redis w) = true -> RedisModel.up (client (redis w)) = true ->
  cached key w = None ->
  fst (RedisService.get key w) = Ret None
  /\ client (redis (snd (RedisService.get key w))) = RedisModel.count_miss (client (redis w)).
Proof.
  intros Hc Hu Hk. rewrite model_get_result, model_get_client, Hc, Hu, Hk. auto.
Qed.

(** A lookup that finds a payload. *)
Lemma model_get_something key w s :
  isConnected (redis w) = true -> RedisModel.up (client (redis w)) = true ->
  cached key w = Some s ->
  fst (RedisService.get key w) = Ret (Some s)
  /\ client (redis (snd (RedisService.get key w))) = RedisModel.count_hit (client (redis w)).
Proof.
  intros Hc Hu Hk. rewrite model_get_result, model_get_client, Hc, Hu, Hk. auto.
Qed.

(** The server after a miss that populated the cache. *)
Lemma model_populate cfg req next w data :
  isConnected (redis w) = true -> RedisModel.up (client (redis w)) = true ->
  (0 < ttl cfg)%Z ->
  cached (cache_key cfg req) w = None ->
  fst (next (db w)) = Ret data -> truthy data = true ->
  client (redis (snd (intercept (Some cfg) req next w)))
  = RedisModel.with_store (RedisModel.count_miss (client (redis w)))
      (<[cache_key cfg req :=
           RedisModel.mkEntry (JSON_stringify data)
             (Some (RedisModel.now (client (redis w)) + ttl cfg)%Z)]>
         (RedisModel.store (client (redis w)))).
Proof.
  intros Hc Hu Httl Hk Hn Htd.
  destruct (model_get_nothing _ w Hc Hu Hk) as [Hg Hcl].
  destruct (get_frame (B:=RedisModel.t) (cache_key cfg req) w) as (_ & Hd & Hc' & _).
  rewrite (intercept_miss _ _ _ _ None Hg eq_refl). cbv zeta.
  rewrite Hd, Hn, Htd. simpl.
  rewrite (model_set_client _ _ _ _ Httl). simpl.
  rewrite Hc', Hc, Hcl. simpl. rewrite Hu. reflexivity.
Qed.
End Populate.

(** X12.  How long a cached result is served.  A request that missed and
    populated the cache (healthy client, reachable server, positive TTL,
    truthy result) is followed, [dt] seconds later, by a request with the
    same key.  While [dt] is below the TTL the second request is answered
    with the value the first one stored and its handler is not invoked,
    whatever the handler would return and however the data behind it has
    changed in between; from the TTL on the second handler is invoked and
    its outcome is the response. *)
Theorem cached_result_is_served_until_it_expires
    {D : Type} (cfg : CacheInterceptor.CacheConfig) (req : CacheInterceptor.Request)
    (next again : D -> Js.Outcome Js.Value * D) (data : Js.Value)
    (w : Runtime.World RedisModel.t D) (dt : Z) (d' : D) :
  Runtime.isConnected (Runtime.redis w) = true ->
  RedisModel.up (Runtime.client (Runtime.redis w)) = true ->
  (0 < CacheInterceptor.ttl cfg)%Z ->
  Spec.cached (Spec.cache_key cfg req) w = None ->
  fst (next (Runtime.db w)) = Js.Ret data -> Js.truthy data = true ->
  let w1 := snd (CacheInterceptor.intercept (Some cfg) req next w) in
  let later := Props.with_db d' (Props.elapse dt w1) in
  let run := CacheInterceptor.intercept (Some cfg) req again later in
  if (dt <? CacheInterceptor.ttl cfg)%Z
  then fst run = Js.Ret (JSON.normalize data)
       /\ Spec.handler_called later (snd run) = false
       /\ Runtime.db (snd run) = d'
  else fst run = fst (again d')
       /\ Spec.handler_called later (snd run) = true.
Proof.
  intros Hc Hu Httl Hk Hn Htd. cbv zeta.
  set (key := Spec.cache_key cfg req) in *.
  set (w1 := snd (CacheInterceptor.intercept (Some cfg) req next w)).
  pose proof (model_populate cfg req next w data Hc Hu Httl Hk Hn Htd) as Hcl.
  fold key w1 in Hcl.
  pose proof (intercept_connected (Some cfg) req next w) as Hc1. fold w1 in Hc1.
  set (later := Props.with_db d' (Props.elapse dt w1)).
  assert (Hcl' : Runtime.isConnected (Runtime.redis later) = true)
    by (simpl; congruence).
  assert (Hul : RedisModel.up (Runtime.client (Runtime.redis later)) = true)
    by (simpl; rewrite Hcl; exact Hu).
  assert (Hkl : Spec.cached key later
                = if (dt <? CacheInterceptor.ttl cfg)%Z
                  then Some (JSON.stringify data) else None).
  { change (Spec.cached key later) with (Spec.cached key (Props.elapse dt w1)).
    rewrite cached_elapse, Hcl. simpl. rewrite lookup_insert_eq.
    unfold RedisModel.live. simpl.
    destruct (Z.ltb_spec dt (CacheInterceptor.ttl cfg));
      destruct (Z.ltb_spec (RedisModel.now (Runtime.client (Runtime.redis w)) + dt)
                  (RedisModel.now (Runtime.client (Runtime.redis w))
                   + CacheInterceptor.ttl cfg)); (reflexivity || lia). }
  destruct (dt <? CacheInterceptor.ttl cfg)%Z.
  - destruct (model_get_something key later _ Hcl' Hul Hkl) as [Hg _].
    rewrite (intercept_hit cfg req again later _ Hg (stringify_truthy data)).
    simpl fst. change (Runtime.JSON_parse (JSON.stringify data))
      with (JSON.parse (JSON.stringify data)).
    rewrite parse_stringify. split; [reflexivity|].
    pose proof (intercept_hit_frame cfg req again later _ Hg (stringify_truthy data))
      as (_ & Hh & Hdb).
    rewrite (intercept_hit cfg req again later _ Hg (stringify_truthy data)) in Hh, Hdb.
    cbv zeta in Hh, Hdb. split; [exact Hh|exact Hdb].
  - destruct (model_get_nothing key later Hcl' Hul Hkl) as [Hg _].
    split.
    + apply (intercept_miss_db cfg req again later None Hg eq_refl).
    + apply (intercept_miss_events cfg req again later None Hg eq_refl).
Qed.

Lemma cached_result_is_served_until_it_expires_witness :
  let w1 := snd (CacheInterceptor.intercept (Some UsersController.findOne_policy)
                   (Scenario.request_user "42")
                   (Scenario.findOne "42")
                   (Scenario.world RedisModel.empty true {[ "42" := Scenario.ann ]})) in
  let later := Props.with_db ∅ (Props.elapse 299 w1) in
  let run := CacheInterceptor.intercept (Some UsersController.findOne_policy)
               (Scenario.request_user "42") (Scenario.findOne "42") later in
  fst run = Js.Ret (JSON.normalize Scenario.ann)
  /\ Spec.handler_called later (snd run) = false
  /\ Runtime.db (snd run) = ∅.
Proof.
  refine (cached_result_is_served_until_it_expires
            UsersController.findOne_policy (Scenario.request_user "42")
            (Scenario.findOne "42") (Scenario.findOne "42") Scenario.ann
            (Scenario.world RedisModel.empty true {[ "42" := Scenario.ann ]})
            299 ∅ _ _ _ _ _ _); vm_compute; reflexivity.
Defined.

(* ===================================================================== *)
(** * A cache that only the interceptor writes *)
(* ===================================================================== *)

Section SelfPopulated.
Import Runtime Spec Props CacheInterceptor.
Context {D : Type}.
Implicit Type w : World RedisModel.t D.

Lemma clean_insert (r : RedisModel.t) key (data : Js.Value) expiry m :
  clean r ->
  RedisModel.store m
  = <[key := RedisModel.mkEntry (JSON.stringify data) expiry]> (RedisModel.store r) ->
  clean m.
Proof.
  intros Hr Hm k e. rewrite Hm.
  destruct (decide (k = key)) as [->|Hne].
  - rewrite lookup_insert_eq. intros [= <-]. simpl. split.
    + apply stringify_truthy.
    + exists (JSON.normalize data). apply parse_stringify.
  - rewrite lookup_insert_ne by congruence. apply Hr.
Qed.

(** One request keeps the store clean. *)
Lemma intercept_clean cacheConfig req (next : D -> Js.Outcome Js.Value * D) w :
  clean (client (redis w)) ->
  clean (client (redis (snd (intercept cacheConfig req next w)))).
Proof.
  intros Hcl. destruct cacheConfig as [cfg|]; [|now rewrite intercept_unbound].
  destruct (model_intercept_store cfg req next w) as (_ & _ & Hst).
  destruct Hst as [E | (data & expiry & _ & _ & E)].
  - intros k e. rewrite E. apply Hcl.
  - eapply clean_insert; eauto.
Qed.

(** A payload of a clean store is usable. *)
Lemma clean_cached key w s :
  clean (client (redis w)) -> cached key w = Some s ->
  s <> "" /\ exists v, JSON.parse s = inr v.
Proof.
  unfold cached, RedisModel.lookup_live. intros Hcl.
  destruct (RedisModel.store (client (redis w)) !! key) as [e|] eqn:E; [|discriminate].
  destruct (RedisModel.live _ e); [|discriminate].
  intros [= <-]. exact (Hcl key e E).
Qed.

(** Over a clean store, the response is a parsed payload or the outcome
    of the handler. *)
Lemma intercept_clean_response cacheConfig req
    (next : D -> Js.Outcome Js.Value * D) w :
  clean (client (redis w)) ->
  (exists v, fst (intercept cacheConfig req next w) = Js.Ret v)
  \/ fst (intercept cacheConfig req next w) = fst (next (db w)).
Proof.
  intros Hcl. destruct cacheConfig as [cfg|]; [|right; now rewrite intercept_unbound].
  destruct (get_resolves (cache_key cfg req) w) as [o Ho].
  destruct (Js.truthy_str o) eqn:Hto.
  - left. destruct o as [s|]; [|discriminate].
    assert (Hs : s <> "") by (intros ->; discriminate).
    rewrite (intercept_hit _ _ _ _ s Ho Hs). simpl.
    rewrite model_get_result in Ho.
    destruct (isConnected (redis w) && RedisModel.up (client (redis w)));
      [|discriminate].
    injection Ho as Ho.
    destruct (clean_cached _ w s Hcl Ho) as (_ & v & ->). eauto.
  - right. apply (intercept_miss_db cfg req next w o Ho Hto).
Qed.
End SelfPopulated.

(** X13.  A cache that only the interceptor has written never yields an
    unparsable payload.  Requests are served one after the other against
    a server whose store holds only non-empty payloads that [JSON.parse]
    accepts (an empty store, for one), whatever the state of the client
    and of the server, the policies and the handlers.  Then the store is
    in that state again at the end, and a response that is a rejection is
    the rejection of the handler of that request: none of them comes from
    [JSON.parse]. *)
Theorem interceptor_reads_back_its_own_writes
    {D : Type} (reqs : list (Props.Incoming Js.Value D))
    (w : Runtime.World RedisModel.t D) :
  Props.clean (Runtime.client (Runtime.redis w)) ->
  Props.clean (Runtime.client (Runtime.redis (snd (Props.serve reqs w))))
  /\ Forall2 (fun (rq : Props.Incoming Js.Value D) o =>
                forall e, o = Js.Throw e -> exists d, fst (snd rq d) = Js.Throw e)
       reqs (fst (Props.serve reqs w)).
Proof.
  revert w. induction reqs as [|[[cfg req] next] reqs IH]; intros w Hcl.
  - simpl. split; [exact Hcl|constructor].
  - simpl.
    pose proof (intercept_clean cfg req next w Hcl) as Hcl1.
    pose proof (intercept_clean_response cfg req next w Hcl) as Hresp.
    destruct (CacheInterceptor.intercept cfg req next w) as [o w1].
    simpl in Hcl1, Hresp.
    destruct (IH w1 Hcl1) as [Hcl2 Hos].
    destruct (Props.serve reqs w1) as [os w2]. simpl in *.
    split; [exact Hcl2|]. constructor; [|exact Hos].
    simpl. intros e ->. destruct Hresp as [[v Hv]|Hn]; [discriminate|].
    exists (Runtime.db w). now symmetry.
Qed.

Lemma interceptor_reads_back_its_own_writes_witness :
  Props.clean (Runtime.client (Runtime.redis (snd (Props.serve
     [(Some UsersController.findOne_policy, Scenario.request_user "42",
       Scenario.findOne "42");
      (Some UsersController.findOne_policy, Scenario.request_user "42",
       Scenario.findOne "42")]
     (Scenario.world RedisModel.empty true {[ "42" := Scenario.ann ]}))))).
Proof.
  refine (proj1 (interceptor_reads_back_its_own_writes
     [(Some UsersController.findOne_policy, Scenario.request_user "42",
       Scenario.findOne "42");
      (Some UsersController.findOne_policy, Scenario.request_user "42",
       Scenario.findOne "42")]
     (Scenario.world RedisModel.empty true {[ "42" := Scenario.ann ]}) _)).
  intros k e. simpl. rewrite lookup_empty. discriminate.
Defined.

(* ===================================================================== *)
(** * The counters of the server over a sequence of requests *)
(* ===================================================================== *)

Section Counting.
Import Runtime Spec Props CacheInterceptor.
Context {D : Type}.
Implicit Type w : World RedisModel.t D.

Lemma count_handler_calls_app (xs ys : list Event) :
  count_handler_calls (xs ++ ys) = (count_handler_calls xs + count_handler_calls ys)%nat.
Proof. unfold count_handler_calls. now rewrite List.filter_app, length_app. Qed.

Lemma count_handler_calls_miss (cfg : CacheConfig) key (o : Js.Outcome Js.Value) :
  count_handler_calls (miss_events true cfg key o) = 1%nat.
Proof.
  unfold miss_events. destruct o as [data|e]; [|reflexivity].
  destruct (truthy data); [|reflexivity]. simpl.
  now destruct (ttl cfg =? 0)%Z.
Qed.

(** What [getMetrics] reads from a reachable reference server, whatever
    its memory figure looks like. *)
Lemma model_getMetrics_counters w :
  RedisModel.up (client (redis w)) = true ->
  exists snap,
    fst (CacheMetricsService.getMetrics w) = Js.Ret snap
    /\ CacheMetrics.hits snap
       = Double.of_Z (Z.of_N (RedisModel.keyspace_hits (client (redis w))))
    /\ CacheMetrics.misses snap
       = Double.of_Z (Z.of_N (RedisModel.keyspace_misses (client (redis w))))
    /\ CacheMetrics.totalKeys snap
       = Z.of_nat (length (RedisModel.live_keys (client (redis w))))
    /\ CacheMetrics.hitRate snap
       = CacheMetricsService.toFixed2
           (rate (CacheMetrics.hits snap) (CacheMetrics.misses snap)).
Proof.
  intros Hup. set (r := client (redis w)) in *.
  eexists. split.
  - apply (getMetrics_resolves w
             (RedisModel.stats_text (RedisModel.keyspace_hits r)
                (RedisModel.keyspace_misses r)) r
             (Z.of_nat (length (RedisModel.live_keys r))) r
             (RedisModel.memory_text (RedisModel.used_memory_human r)) r);
      simpl; fold r; unfold RedisModel.info, RedisModel.dbsize; rewrite Hup; reflexivity.
  - simpl. unfold counter. rewrite stats_hits, stats_misses.
    rewrite !truthy_str_some by apply number_toString_N_nonempty.
    simpl. rewrite !parseInt_N. auto.
Qed.

(** One request with a policy, on a healthy client in front of a
    reachable server with a clean store: the handler ran and one miss was
    counted, or it did not run and one hit was counted. *)
Lemma model_intercept_counts cfg req (next : D -> Js.Outcome Js.Value * D) w :
  isConnected (redis w) = true -> RedisModel.up (client (redis w)) = true ->
  clean (client (redis w)) ->
  let w' := snd (intercept (Some cfg) req next w) in
  let r := client (redis w) in
  let r' := client (redis w') in
  (count_handler_calls (events_since w w') = 0%nat
   /\ RedisModel.keyspace_hits r' = (RedisModel.keyspace_hits r + 1)%N
   /\ RedisModel.keyspace_misses r' = RedisModel.keyspace_misses r)
  \/ (count_handler_calls (events_since w w') = 1%nat
      /\ RedisModel.keyspace_hits r' = RedisModel.keyspace_hits r
      /\ RedisModel.keyspace_misses r' = (RedisModel.keyspace_misses r + 1)%N).
Proof.
  intros Hc Hu Hcl. cbv zeta. set (key := cache_key cfg req).
  destruct (cached key w) as [s|] eqn:Hk.
  - left. destruct (clean_cached key w s Hcl Hk) as [Hs _].
    destruct (model_get_something key w s Hc Hu Hk) as [Hg Hr].
    destruct (intercept_hit_frame cfg req next w s Hg Hs) as (He & _ & _).
    cbv zeta in He. rewrite He.
    rewrite (intercept_hit cfg req next w s Hg Hs). simpl snd. fold key.
    rewrite Hr. simpl. auto.
  - right. destruct (model_get_nothing key w Hc Hu Hk) as [Hg Hr].
    destruct (intercept_miss_events cfg req next w None Hg eq_refl) as [He _].
    cbv zeta in He. rewrite He, Hc. split; [apply count_handler_calls_miss|].
    rewrite (intercept_miss _ _ _ _ None Hg eq_refl). cbv zeta. fold key.
    assert (Hw2 : client (redis (after_handler next (snd (RedisService.get key w))))
                  = RedisModel.count_miss (client (redis w))) by exact Hr.
    destruct (get_frame (B:=RedisModel.t) key w) as (_ & Hd & _ & _). rewrite Hd.
    destruct (fst (next (db w))) as [data|e]; cbn [snd]; [|rewrite Hw2; simpl; auto].
    destruct (truthy data); [|rewrite Hw2; simpl; auto].
    destruct (model_set_counters key (JSON_stringify data) (ttl cfg)
                (after_handler next (snd (RedisService.get key w))))
      as (Hh & Hm & _ & _).
    cbv zeta in Hh, Hm. rewrite Hh, Hm, Hw2. simpl. auto.
Qed.

Lemma serve_counts (reqs : list (Incoming Js.Value D)) w :
  isConnected (redis w) = true -> RedisModel.up (client (redis w)) = true ->
  clean (client (redis w)) ->
  Forall (fun rq : Incoming Js.Value D => is_Some (fst (fst rq))) reqs ->
  let w' := snd (serve reqs w) in
  let r := client (redis w) in
  let r' := client (redis w') in
  let calls := N.of_nat (count_handler_calls (events_since w w')) in
  RedisModel.up r' = true
  /\ RedisModel.keyspace_misses r' = (RedisModel.keyspace_misses r + calls)%N
  /\ (RedisModel.keyspace_hits r' + calls
      = RedisModel.keyspace_hits r + N.of_nat (length reqs))%N
  /\ (count_handler_calls (events_since w w') <= length reqs)%nat.
Proof.
  revert w. induction reqs as [|[[cfg req] next] reqs IH]; intros w Hc Hu Hcl Hall.
  - simpl. rewrite events_since_refl. simpl. split; [exact Hu|].
    change (count_handler_calls []) with 0%nat. cbn [length]. repeat split; lia.
  - inversion Hall as [|? ? [cfg' Hcfg] Hall']; subst. cbn [fst] in Hcfg. subst cfg.
    cbv zeta. cbn [serve length].
    pose proof (model_intercept_counts cfg' req next w Hc Hu Hcl) as Hstep.
    pose proof (intercept_connected (Some cfg') req next w) as Hc1.
    pose proof (model_intercept_store cfg' req next w) as (_ & Hu1 & _).
    pose proof (intercept_clean (Some cfg') req next w Hcl) as Hcl1.
    pose proof (intercept_trace (Some cfg') req next w) as T1.
    cbv zeta in Hstep, Hu1.
    destruct (intercept (Some cfg') req next w) as [o w1]. cbn [snd] in *.
    rewrite Hc in Hc1. rewrite Hu in Hu1.
    specialize (IH w1 Hc1 Hu1 Hcl1 Hall'). cbv zeta in IH.
    pose proof (serve_trace reqs w1) as T2.
    destruct (serve reqs w1) as [os w2]. cbn [snd] in *.
    destruct (events_since_compose w w1 w2 T1 T2) as [-> _].
    rewrite count_handler_calls_app.
    destruct IH as (Hu2 & Hm2 & Hh2 & Hle2). split; [exact Hu2|].
    destruct Hstep as [(-> & Hh1 & Hm1)|(-> & Hh1 & Hm1)]; repeat split; lia.
Qed.
End Counting.

(** X14.  The counters of the server over a sequence of requests.
    Requests whose handlers all have a policy bound are served one after
    the other by a healthy client in front of a reachable server whose
    store is clean.  Then the server has counted one keyspace miss for
    each invocation of a handler and one keyspace hit for each request
    answered without one, and [getMetrics], called afterwards, resolves
    with these numbers (as Numbers: exact up to [2^53], the nearest
    double beyond). *)
Theorem server_counters_count_the_traffic
    {D : Type} (reqs : list (Props.Incoming Js.Value D))
    (w : Runtime.World RedisModel.t D) :
  Runtime.isConnected (Runtime.redis w) = true ->
  RedisModel.up (Runtime.client (Runtime.redis w)) = true ->
  Props.clean (Runtime.client (Runtime.redis w)) ->
  Forall (fun rq : Props.Incoming Js.Value D => is_Some (fst (fst rq))) reqs ->
  let w' := snd (Props.serve reqs w) in
  let r := Runtime.client (Runtime.redis w) in
  let r' := Runtime.client (Runtime.redis w') in
  let calls := Props.count_handler_calls (Runtime.events_since w w') in
  (calls <= length reqs)%nat
  /\ RedisModel.keyspace_misses r' = (RedisModel.keyspace_misses r + N.of_nat calls)%N
  /\ RedisModel.keyspace_hits r'
     = (RedisModel.keyspace_hits r + N.of_nat (length reqs - calls))%N
  /\ exists snap,
       fst (CacheMetricsService.getMetrics w') = Js.Ret snap
       /\ (let misses := (Z.of_N (RedisModel.keyspace_misses r) + Z.of_nat calls)%Z in
           CacheMetrics.misses snap = Double.of_Z misses
           /\ ((misses <= 2 ^ 53)%Z ->
               CacheMetrics.misses snap = Double.Finite (inject_Z misses)))
       /\ (let hits :=
             (Z.of_N (RedisModel.keyspace_hits r)
              + Z.of_nat (length reqs - calls))%Z in
           CacheMetrics.hits snap = Double.of_Z hits
           /\ ((hits <= 2 ^ 53)%Z ->
               CacheMetrics.hits snap = Double.Finite (inject_Z hits))).
Proof.
  intros Hc Hu Hcl Hall. cbv zeta.
  destruct (serve_counts reqs w Hc Hu Hcl Hall) as (Hu' & Hm & Hh & Hle).
  cbv zeta in Hm, Hh.
  set (calls := Props.count_handler_calls _) in *.
  split; [exact Hle|]. split; [exact Hm|].
  assert (Hh' : RedisModel.keyspace_hits
                  (Runtime.client (Runtime.redis (snd (Props.serve reqs w))))
                = (RedisModel.keyspace_hits (Runtime.client (Runtime.redis w))
                   + N.of_nat (length reqs - calls))%N) by lia.
  split; [exact Hh'|].
  destruct (model_getMetrics_counters (snd (Props.serve reqs w)) Hu')
    as (snap & Hrun & Hhits & Hmiss & _).
  exists snap. split; [exact Hrun|]. cbv zeta. rewrite Hhits, Hmiss, Hm, Hh'.
  rewrite !N2Z.inj_add, !nat_N_Z.
  repeat split; try reflexivity; intros Hs; apply of_Z_exact; lia.
Qed.

Lemma server_counters_count_the_traffic_witness :
  let reqs : list (Props.Incoming Js.Value (gmap string Js.Value)) :=
    [(Some UsersController.findOne_policy, Scenario.request_user "42",
      Scenario.findOne "42");
     (Some UsersController.findOne_policy, Scenario.request_user "42",
      Scenario.findOne "42");
     (Some UsersController.findOne_policy, Scenario.request_user "7",
      Scenario.findOne "7")] in
  let w := Scenario.world RedisModel.empty true {[ "42" := Scenario.ann ]} in
  RedisModel.keyspace_misses (Runtime.client (Runtime.redis (snd (Props.serve reqs w))))
  = (0 + N.of_nat (Props.count_handler_calls
                     (Runtime.events_since w (snd (Props.serve reqs w)))))%N.
Proof.
  intros reqs w.
  refine (proj1 (proj2 (server_counters_count_the_traffic reqs w _ _ _ _))).
  - reflexivity.
  - reflexivity.
  - intros k e. simpl. rewrite lookup_empty. discriminate.
  - repeat constructor; simpl; eauto.
Defined.

(* ===================================================================== *)
(** * The snapshot of the metrics service, for any backend *)
(* ===================================================================== *)

Section SnapshotShape.
Import Js Runtime Spec Props CacheMetricsService.

(** A counter read from the text is the Number of a count. *)
Lemma counter_is_a_count (label info : string) :
  exists n : Z, (0 <= n)%Z /\ counter label info = Double.of_Z n.
Proof.
  unfold counter. cbv zeta.
  destruct (match_digits_after label info) as [ds|] eqn:E.
  - destruct (match_digits_captured _ _ _ E) as [Hne Hds].
    rewrite (truthy_str_some ds Hne). cbn [default from_option]. unfold id.
    destruct (parseInt_digit_string ds Hne Hds) as (u & _ & ->).
    exists (Z.of_uint u). split; [apply of_uint_nonneg|reflexivity].
  - exists 0%Z. split; [lia|reflexivity].
Qed.

(** The Number of a count is an infinity or a double that is not
    negative. *)
Lemma count_cases (n : Z) :
  (0 <= n)%Z ->
  Double.of_Z n = Double.Infinity false
  \/ exists r, Double.of_Z n = Double.Finite r /\ (0 <= r)%Q
               /\ Double.of_Q r = Double.Finite r.
Proof.
  intros Hn. destruct (of_Z_nonneg n Hn) as [E|(r & E & H0 & Hid & _)];
    [now left|right; eauto].
Qed.

(** The shape of the rounded rate of two counts. *)
Lemma rounded_rate_shape (hits misses : Double.t) (n n' : Z) :
  (0 <= n)%Z -> hits = Double.of_Z n ->
  (0 <= n')%Z -> misses = Double.of_Z n' ->
  (hits = Double.Infinity false -> toFixed2 (rate hits misses) = Double.NaN)
  /\ (hits = Double.Finite 0 -> toFixed2 (rate hits misses) = Double.Finite 0)
  /\ (forall q, hits = Double.Finite q ->
        exists k : Z, toFixed2 (rate hits misses) = Double.of_Q (k # 100)
                      /\ (0 <= k <= 10000)%Z).
Proof.
  intros Hn Eh Hn' Em.
  assert (Hm : misses = Double.Infinity false
               \/ exists r, misses = Double.Finite r /\ (0 <= r)%Q).
  { rewrite Em. destruct (count_cases n' Hn') as [E|(r & E & H0 & _)];
      [now left|right; eauto]. }
  assert (Hzero : toFixed2 (rate (Double.Finite 0) misses) = Double.Finite 0).
  { now rewrite (rate_no_hits misses Hm). }
  split; [|split].
  - intros ->. rewrite rate_infinite_hits; [reflexivity|].
    destruct Hm as [E|(r & E & _)]; [now left|right; eauto].
  - intros ->. exact Hzero.
  - intros q Eq.
    destruct (count_cases n Hn) as [E|(r & E & H0 & Hid)];
      rewrite <- Eh, Eq in E; [discriminate|]. injection E as <-. rewrite Eq.
    destruct (Qeq_dec q 0) as [Ez|Hnz].
    + assert (q = 0%Q) as ->.
      { rewrite (of_Q_zero _ Ez) in Hid. now injection Hid. }
      rewrite Hzero. exists 0%Z. split; [reflexivity|lia].
    + destruct (rate_of_doubles q misses) as (x & -> & Hx0 & Hx1);
        [lra|exact Hid|exact Hm|].
      destruct (toFixed2_percent x Hx0) as (k & -> & Hk & _); [lra|].
      exists k. auto.
Qed.


Context {B D : Type} `{RedisClient B}.

End SnapshotShape.



(* ===================================================================== *)
(** * Statistics the server does not report *)
(* ===================================================================== *)

Section MissingLines.
Import Js Runtime Spec Props CacheMetricsService.

(** The pattern [/label(\d+)/] matches exactly the texts that mention the
    label followed by a digit. *)
Lemma match_digits_mentions (label info : string) :
  match_digits_after label info <> None <-> mentions label info.
Proof.
  split.
  - induction info as [|c info IH].
    + simpl. destruct (strip_prefix label "") as [r|] eqn:E; [|congruence].
      destruct (String.eqb_spec (fst (span_digits r)) "") as [|Hne]; [congruence|].
      intros _. destruct (span_digits_nonempty r Hne) as (d & post & -> & Hd).
      exists "", d, post. split; [|exact Hd]. exact (strip_prefix_app _ _ _ E).
    + simpl.
      destruct (strip_prefix label (String c info)) as [r|] eqn:E.
      * destruct (String.eqb_spec (fst (span_digits r)) "") as [|Hne].
        -- intros Hm. destruct (IH Hm) as (pre & d & post & -> & Hd).
           now exists (String c pre), d, post.
        -- intros _. destruct (span_digits_nonempty r Hne) as (d & post & -> & Hd).
           exists "", d, post. split; [|exact Hd]. exact (strip_prefix_app _ _ _ E).
      * intros Hm. destruct (IH Hm) as (pre & d & post & -> & Hd).
        now exists (String c pre), d, post.
  - intros (pre & d & post & -> & Hd).
    induction pre as [|c pre IH].
    + change ("" ++ label ++ String d post) with (label ++ String d post).
      assert (E : match strip_prefix label (label ++ String d post) with
                  | Some r => let ds := fst (span_digits r) in
                              if String.eqb ds "" then None else Some ds
                  | None => None
                  end <> None).
      { rewrite strip_prefix_here. cbv zeta. simpl. rewrite Hd.
        destruct (span_digits post). simpl. congruence. }
      destruct (label ++ String d post) as [|x y]; simpl in *;
        destruct (match strip_prefix label _ with Some _ => _ | None => _ end);
        congruence.
    + change (String c pre ++ label ++ String d post)
        with (String c (pre ++ label ++ String d post)).
      simpl.
      destruct (match strip_prefix label _ with Some _ => _ | None => _ end);
        [congruence|exact IH].
Qed.

Lemma counter_of_unmentioned (label info : string) :
  ~ mentions label info -> counter label info = Double.Finite 0.
Proof.
  intros Hno. unfold counter. cbv zeta.
  destruct (match_digits_after label info) as [ds|] eqn:E; [|reflexivity].
  exfalso. apply Hno, match_digits_mentions. congruence.
Qed.
End MissingLines.

(** X16.  Statistics the server does not report read as zero.  When
    [INFO stats], [DBSIZE] and [INFO memory] resolve and the text of
    [INFO stats] nowhere has [keyspace_hits:] followed by a digit,
    [getMetrics] resolves with [hits] 0 and [hitRate] 0; when it nowhere
    has [keyspace_misses:] followed by a digit, [misses] is 0 and
    [hitRate] is 100 as soon as [hits] is positive and finite ([NaN]
    when [hits] is [Infinity]).  No error is raised for the missing
    line. *)
Theorem unreported_statistics_read_as_zero
    {B D : Type} `{Runtime.RedisClient B} (w : Runtime.World B D)
    (info : string) (b1 : B) (n : Z) (b2 : B) (mem : string) (b3 : B) :
  Runtime.ioredis_info "stats" (Runtime.client (Runtime.redis w)) = (Js.Ret info, b1) ->
  Runtime.ioredis_dbsize b1 = (Js.Ret n, b2) ->
  Runtime.ioredis_info "memory" b2 = (Js.Ret mem, b3) ->
  exists snap,
    fst (CacheMetricsService.getMetrics w) = Js.Ret snap
    /\ (~ Props.mentions "keyspace_hits:" info ->
        CacheMetrics.hits snap = Double.Finite 0
        /\ CacheMetrics.hitRate snap = Double.Finite 0)
    /\ (~ Props.mentions "keyspace_misses:" info ->
        CacheMetrics.misses snap = Double.Finite 0
        /\ (forall q, CacheMetrics.hits snap = Double.Finite q -> (0 < q)%Q ->
                      CacheMetrics.hitRate snap = Double.Finite 100)
        /\ (CacheMetrics.hits snap = Double.Infinity false ->
            CacheMetrics.hitRate snap = Double.NaN)).
Proof.
  intros E1 E2 E3. eexists. split; [exact (getMetrics_resolves w _ _ _ _ _ _ E1 E2 E3)|].
  cbn [CacheMetrics.hits CacheMetrics.misses CacheMetrics.hitRate].
  destruct (counter_is_a_count "keyspace_hits:" info) as (nh & Hnh & Eh).
  destruct (counter_is_a_count "keyspace_misses:" info) as (nm & Hnm & Em).
  split.
  - intros Hno.
    destruct (rounded_rate_shape _ _ nh nm Hnh Eh Hnm Em) as (_ & Rzero & _).
    split; [exact (counter_of_unmentioned _ _ Hno)|].
    apply Rzero. exact (counter_of_unmentioned _ _ Hno).
  - intros Hno. rewrite (counter_of_unmentioned _ _ Hno).
    split; [reflexivity|]. split.
    + intros q Eq Hq.
      destruct (count_cases nh Hnh) as [E|(r & E & _ & Hid)];
        rewrite <- Eh, Eq in E; [discriminate|]. injection E as <-.
      rewrite Eq, (rate_no_misses q Hq Hid). reflexivity.
    + intros ->. reflexivity.
Qed.

Lemma unreported_statistics_read_as_zero_witness :
  exists snap,
    fst (CacheMetricsService.getMetrics (H:=Props.terse)
           (Runtime.mkWorld (Runtime.mkRedisState tt true)
              (Runtime.mkMetricsState 0 0) tt []))
    = Js.Ret snap
    /\ CacheMetrics.hits snap = Double.Finite 0
    /\ CacheMetrics.misses snap = Double.Finite 0.
Proof.
  destruct (unreported_statistics_read_as_zero (H:=Props.terse)
              (Runtime.mkWorld (Runtime.mkRedisState tt true)
                 (Runtime.mkMetricsState 0 0) tt [])
              "" tt 0 tt "" tt eq_refl eq_refl eq_refl)
    as (snap & Hsnap & Hhits & Hmisses).
  assert (Hno : forall label, ~ Props.mentions label "").
  { intros label (pre & d & post & E & _).
    destruct pre; [destruct label|]; discriminate. }
  exists snap. split; [exact Hsnap|]. split.
  - exact (proj1 (Hhits (Hno _))).
  - exact (proj1 (Hmisses (Hno _))).
Defined.

(* ===================================================================== *)
(** * Resetting the metrics *)
(* ===================================================================== *)

Section Reset.
Import Runtime Spec Props.
Context {D : Type}.
Implicit Type w : World RedisModel.t D.

Lemma model_reset_world w :
  RedisModel.up (client (redis w)) = true ->
  CacheMetricsService.resetMetrics w
  = (Js.Ret tt,
     mkWorld
       (mkRedisState
          (RedisModel.mk true (RedisModel.store (client (redis w)))
             (RedisModel.now (client (redis w))) 0 0
             (RedisModel.used_memory_human (client (redis w))))
          (isConnected (redis w)))
       (mkMetricsState 0 0) (db w)
       (trace w ++ [RedisCall (CONFIG "RESETSTAT")])%list).
Proof.
  intros Hup. unfold_metrics. simpl. unfold RedisModel.config. rewrite Hup.
  reflexivity.
Qed.
End Reset.

(** X17.  Resetting the metrics on a reachable server, whatever the
    health flag says: the endpoint resolves with its message, the
    keyspace counters of the server and the process-local counters are 0
    afterwards, and nothing is evicted: every key holds what it held, and
    a snapshot taken next reports 0 hits, 0 misses, a hit rate of 0 and
    the number of live keys from before the reset. *)
Theorem reset_zeroes_the_counters_and_keeps_the_cache
    {D : Type} (w : Runtime.World RedisModel.t D) :
  RedisModel.up (Runtime.client (Runtime.redis w)) = true ->
  let w' := snd (MetricsController.resetMetrics w) in
  let r := Runtime.client (Runtime.redis w) in
  let r' := Runtime.client (Runtime.redis w') in
  fst (MetricsController.resetMetrics w)
  = Js.Ret [("message", MetricsController.FString "Metrics reset successfully")]
  /\ Runtime.metrics w' = Runtime.mkMetricsState 0 0
  /\ RedisModel.keyspace_hits r' = 0%N /\ RedisModel.keyspace_misses r' = 0%N
  /\ (forall key, Spec.cached key w' = Spec.cached key w)
  /\ exists snap,
       fst (CacheMetricsService.getMetrics w') = Js.Ret snap
       /\ CacheMetrics.hits snap = Double.Finite 0
       /\ CacheMetrics.misses snap = Double.Finite 0
       /\ CacheMetrics.hitRate snap = Double.Finite 0
       /\ CacheMetrics.totalKeys snap = Z.of_nat (length (RedisModel.live_keys r)).
Proof.
  intros Hup. cbv zeta.
  assert (E : MetricsController.resetMetrics w
              = (Js.Ret [("message",
                          MetricsController.FString "Metrics reset successfully")],
                 snd (CacheMetricsService.resetMetrics w))).
  { unfold MetricsController.resetMetrics, Runtime.bind, Runtime.ret.
    now rewrite (model_reset_world w Hup). }
  rewrite E, (model_reset_world w Hup). cbn [fst snd].
  split; [reflexivity|]. split; [reflexivity|]. split; [reflexivity|].
  split; [reflexivity|]. split; [reflexivity|].
  match goal with
  | |- exists snap, fst (CacheMetricsService.getMetrics ?w1) = _ /\ _ =>
      destruct (model_getMetrics_counters w1 eq_refl)
        as (snap & Hrun & Hh & Hm & Hk & Hrate)
  end.
  exists snap. split; [exact Hrun|]. simpl in Hh, Hm, Hk.
  split; [exact Hh|]. split; [exact Hm|]. split; [|exact Hk].
  rewrite Hrate, Hh, Hm. reflexivity.
Qed.

Lemma reset_zeroes_the_counters_and_keeps_the_cache_witness :
  Runtime.metrics
    (snd (MetricsController.resetMetrics (Scenario.world Scenario.warm_server false tt)))
  = Runtime.mkMetricsState 0 0.
Proof.
  refine (proj1 (proj2 (reset_zeroes_the_counters_and_keeps_the_cache
                          (Scenario.world Scenario.warm_server false tt) _))).
  reflexivity.
Defined.

(* ===================================================================== *)
(** * The process-local counters *)
(* ===================================================================== *)

(** X18.  The counters kept by [recordHit] and [recordMiss] never reach
    a snapshot: for any backend, [getMetrics] resolves or rejects with the
    same result whatever the process-local counters hold, in particular
    after any number of calls of [recordHit] and [recordMiss], which touch
    nothing but these counters. *)
Theorem local_counters_never_reach_the_snapshot
    {B D : Type} `{Runtime.RedisClient B} (w : Runtime.World B D)
    (m : Runtime.MetricsState) (recorded : list bool) :
  let record (w : Runtime.World B D) (hit : bool) :=
    snd ((if hit then CacheMetricsService.recordHit
          else CacheMetricsService.recordMiss) w) in
  let w' := fold_left record recorded w in
  fst (CacheMetricsService.getMetrics (Props.with_metrics m w))
  = fst (CacheMetricsService.getMetrics w)
  /\ fst (CacheMetricsService.getMetrics w') = fst (CacheMetricsService.getMetrics w)
  /\ Runtime.redis w' = Runtime.redis w /\ Runtime.db w' = Runtime.db w
  /\ Runtime.trace w' = Runtime.trace w
  /\ Runtime.hits (Runtime.metrics w')
     = (Runtime.hits (Runtime.metrics w)
        + Z.of_nat (length (List.filter id recorded)))%Z
  /\ Runtime.misses (Runtime.metrics w')
     = (Runtime.misses (Runtime.metrics w)
        + Z.of_nat (length (List.filter negb recorded)))%Z.
Proof.
  cbv zeta.
  assert (Hany : forall m' (w0 : Runtime.World B D),
            fst (CacheMetricsService.getMetrics (Props.with_metrics m' w0))
            = fst (CacheMetricsService.getMetrics w0)).
  { intros m' w0. unfold_metrics. simpl.
    destruct (Runtime.ioredis_info "stats" _) as [[info|e1] b1]; simpl;
      destruct (Runtime.ioredis_dbsize b1) as [[n|e2] b2]; simpl; try reflexivity.
    destruct (Runtime.ioredis_info "memory" b2) as [[mem|e3] b3]; reflexivity. }
  split; [apply Hany|].
  revert w. induction recorded as [|hit recorded IH]; intros w.
  - simpl. repeat split; lia.
  - cbn [fold_left].
    destruct (IH (snd ((if hit then CacheMetricsService.recordHit
                        else CacheMetricsService.recordMiss) w)))
      as (E1 & E2 & E3 & E4 & E5 & E6).
    rewrite E1, E2, E3, E4, E5, E6.
    destruct hit; cbn [List.filter id negb length];
      (split; [apply (Hany _ w)|]); simpl; repeat split; lia.
Qed.

(* ===================================================================== *)
(** * What the client is sent for a corrupt payload *)
(* ===================================================================== *)

(** X19.  What the client is sent when [JSON.parse] throws on the
    payload found under the key.  For any platform: if the lookup yields
    a non-empty payload on which [JSON.parse] throws a [SyntaxError], the
    interceptor rejects with that error and the handler is not invoked;
    a [SyntaxError] is no [HttpException], so the global filter answers
    with status 500 and a body of four properties whose message is the
    fixed text.  The reply does not depend on the payload, the parser's
    message, the handler or the data behind it. *)
Theorem corrupt_payload_is_answered_with_500
    {V : Type} `{Runtime.JsPlatform V} {B D : Type} `{Runtime.RedisClient B}
    (cfg : CacheInterceptor.CacheConfig) (req : CacheInterceptor.Request)
    (next : D -> Js.Outcome V * D) (w : Runtime.World B D)
    (s msg timestamp url : string) :
  fst (RedisService.get (Spec.cache_key cfg req) w) = Js.Ret (Some s) ->
  s <> "" -> Runtime.JSON_parse s = inl (Js.SyntaxError msg) ->
  fst (CacheInterceptor.intercept (Some cfg) req next w)
  = Js.Throw (Js.SyntaxError msg)
  /\ Spec.handler_called w (snd (CacheInterceptor.intercept (Some cfg) req next w))
     = false
  /\ AllExceptionsFilter.catch
       (AllExceptionsFilter.Uncaught (Js.SyntaxError msg)) timestamp url
     = AllExceptionsFilter.mkReply 500
         (Js.Object [("statusCode", Js.Number 500); ("timestamp", Js.Str timestamp);
                     ("path", Js.Str url);
                     ("message", Js.Str "Internal server error")]).
Proof.
  intros Hg Hs Hp.
  destruct (intercept_unparsable_hit cfg req next w s _ Hg Hs Hp) as [Hthrow Hcalled].
  split; [exact Hthrow|]. split; [exact Hcalled|reflexivity].
Qed.

Lemma corrupt_payload_is_answered_with_500_witness :
  AllExceptionsFilter.statusCode
    (AllExceptionsFilter.catch
       (AllExceptionsFilter.Uncaught (Js.SyntaxError "Unexpected token in JSON"))
       "2024-01-01T00:00:00.000Z" "/users/42") = 500
  /\ fst (CacheInterceptor.intercept (Some UsersController.findOne_policy)
            (Scenario.request_user "42") (Scenario.resolves Scenario.ann)
            (Scenario.world Scenario.corrupt_server true tt))
     = Js.Throw (Js.SyntaxError "Unexpected token in JSON").
Proof.
  pose proof (corrupt_payload_is_answered_with_500
                UsersController.findOne_policy (Scenario.request_user "42")
                (Scenario.resolves Scenario.ann)
                (Scenario.world Scenario.corrupt_server true tt)
                "{" "Unexpected token in JSON"
                "2024-01-01T00:00:00.000Z" "/users/42"
                eq_refl ltac:(discriminate) eq_refl) as (Hthrow & _ & Hreply).
  split; [now rewrite Hreply|exact Hthrow].
Defined.

(* ===================================================================== *)
(** * The users of the seed script *)
(* ===================================================================== *)

Section SeedFacts.
Import Seed.
Context {R : Type}.
Implicit Types adminRole userRole : R.

Lemma append_inv_tail (a b c : string) : a ++ c = b ++ c -> a = b.
Proof.
  revert b. induction a as [|x a IH]; intros [|y b] E.
  - reflexivity.
  - apply (f_equal String.length) in E. cbn [String.append String.length] in E.
    rewrite length_append in E. lia.
  - apply (f_equal String.length) in E. cbn [String.append String.length] in E.
    rewrite length_append in E. lia.
  - cbn [String.append] in E. injection E as -> E. now rewrite (IH b E).
Qed.

Lemma email_inj adminRole userRole (i j : Z) :
  email (user adminRole userRole i) = email (user adminRole userRole j) -> i = j.
Proof.
  simpl. intros E. apply number_toString_inj.
  apply (append_inv_tail _ _ "@example.com").
  change ("user" ++ Js.number_toString i ++ "@example.com"
          = "user" ++ Js.number_toString j ++ "@example.com") in E.
  simpl in E. now injection E.
Qed.

(** The loop appends the users numbered from [i] up to [count]. *)
Lemma loop_spec adminRole userRole (count : Z) (fuel : nat) :
  forall (i : Z) (acc : list (UserInput R)),
    (Z.to_nat (count - i) <= fuel)%nat ->
    loop fuel count i adminRole userRole acc
    = (acc ++ map (fun k => user adminRole userRole (i + Z.of_nat k))
                (seq 0 (Z.to_nat (count - i))))%list.
Proof.
  induction fuel as [|fuel IH]; intros i acc Hfuel.
  - simpl. replace (Z.to_nat (count - i)) with 0%nat by lia. simpl.
    now rewrite app_nil_r.
  - simpl. destruct (Z.ltb_spec i count) as [Hlt|Hge].
    + rewrite IH by lia.
      replace (Z.to_nat (count - i)) with (S (Z.to_nat (count - (i + 1)))) by lia.
      cbn [seq map]. rewrite <- seq_shift, map_map, <- app_assoc. simpl.
      rewrite Z.add_0_r. f_equal. f_equal. apply map_ext. intros k. f_equal. lia.
    + replace (Z.to_nat (count - i)) with 0%nat by lia. simpl.
      now rewrite app_nil_r.
Qed.

Lemma users_for_map adminRole userRole (count : Z) :
  users_for count adminRole userRole
  = map (fun k => user adminRole userRole (Z.of_nat k)) (seq 0 (Z.to_nat count)).
Proof.
  unfold users_for. rewrite loop_spec by lia. rewrite Z.sub_0_r. reflexivity.
Qed.

Lemma users_for_succ adminRole userRole (n : nat) :
  users_for (Z.of_nat (S n)) adminRole userRole
  = (users_for (Z.of_nat n) adminRole userRole
     ++ [user adminRole userRole (Z.of_nat n)])%list.
Proof.
  rewrite !users_for_map, !Nat2Z.id, seq_S, map_app. reflexivity.
Qed.

Context `{EqDecision R}.

Lemma admins_of_users_for adminRole userRole (n : nat) :
  adminRole <> userRole ->
  length (filter (fun u => roleId u = adminRole)
            (users_for (Z.of_nat n) adminRole userRole))
  = Z.to_nat ((Z.of_nat n + 9) / 10).
Proof.
  intros Hne. induction n as [|n IH].
  - reflexivity.
  - rewrite users_for_succ, filter_app, length_app, IH.
    rewrite filter_cons, filter_nil. cbn [roleId user].
    destruct (Z.of_nat n mod 10 =? 0)%Z eqn:Hm.
    + rewrite decide_True by reflexivity. cbn [length]. apply Z.eqb_eq in Hm.
      Z.div_mod_to_equations. lia.
    + rewrite decide_False by congruence. cbn [length]. apply Z.eqb_neq in Hm.
      Z.div_mod_to_equations. lia.
Qed.
End SeedFacts.

(** X20.  The users the seed script creates.  For every bound of the
    loop the array holds one user per number below the bound, in order;
    their e-mail addresses are pairwise distinct; and when the two roles
    have distinct ids, the users given the admin role are those whose
    number is a multiple of 10, one in ten rounded up.  For the 1000
    users of [main]: 1000 distinct addresses and 100 administrators. *)
Theorem seed_users_are_distinct_and_one_in_ten_is_admin
    {R : Type} `{EqDecision R} (adminRole userRole : R) (count : Z) :
  adminRole <> userRole ->
  let users := Seed.users_for count adminRole userRole in
  length users = Z.to_nat count
  /\ (forall i, (0 <= i < count)%Z ->
        users !! Z.to_nat i = Some (Seed.user adminRole userRole i))
  /\ NoDup (map Seed.email users)
  /\ (forall i u, users !! i = Some u ->
        Seed.roleId u = adminRole <-> (Z.of_nat i mod 10 = 0)%Z)
  /\ length (filter (fun u => Seed.roleId u = adminRole) users)
     = Z.to_nat ((Z.max count 0 + 9) / 10).
Proof.
  intros Hne. cbv zeta.
  assert (Hlookup : forall i u,
            Seed.users_for count adminRole userRole !! i = Some u ->
            u = Seed.user adminRole userRole (Z.of_nat i)).
  { intros i u. rewrite users_for_map, list_lookup_fmap.
    destruct (seq 0 (Z.to_nat count) !! i) as [k|] eqn:E; [|discriminate].
    apply lookup_seq in E as [-> _]. simpl. now intros [= <-]. }
  split; [|split; [|split; [|split]]].
  - now rewrite users_for_map, length_map, length_seq.
  - intros i Hi. rewrite users_for_map, list_lookup_fmap.
    rewrite (proj2 (lookup_seq 0 (Z.to_nat count) (Z.to_nat i) (Z.to_nat i)))
      by (split; [reflexivity|lia]).
    simpl. now rewrite Z2Nat.id by lia.
  - rewrite users_for_map, map_map.
    apply (NoDup_fmap_2_strong
             (fun k => Seed.email (Seed.user adminRole userRole (Z.of_nat k)))).
    + intros x y _ _ E. apply email_inj in E. lia.
    + apply NoDup_seq.
  - intros i u Hu. rewrite (Hlookup i u Hu). simpl.
    destruct (Z.eqb_spec (Z.of_nat i mod 10) 0); split; congruence.
  - destruct (Z.le_gt_cases 0 count) as [Hpos|Hneg].
    + rewrite Z.max_l by lia. rewrite <- (Z2Nat.id count Hpos) at 1 2.
      now apply admins_of_users_for.
    + rewrite users_for_map. replace (Z.to_nat count) with 0%nat by lia.
      rewrite Z.max_r by lia. reflexivity.
Qed.

Lemma seed_users_are_distinct_and_one_in_ten_is_admin_witness :
  length (Seed.users 2%Z 1%Z) = 1000%nat
  /\ NoDup (map Seed.email (Seed.users 2%Z 1%Z))
  /\ length (filter (fun u => Seed.roleId u = 2%Z) (Seed.users 2%Z 1%Z)) = 100%nat.
Proof.
  pose proof (seed_users_are_distinct_and_one_in_ten_is_admin 2%Z 1%Z 1000
                ltac:(discriminate)) as (Hlen & _ & Hdup & _ & Hadmins).
  split; [exact Hlen|]. split; [exact Hdup|exact Hadmins].
Defined.
